(** * AudiVisual: the frame-evolution engine of [generative_animator.py]

    A shallow embedding of the schedule parser, the keyframe interpolator,
    the audio-reactive modulator, the per-frame generation step, the
    frame-rate upsampler and the orchestrating loop, followed by the
    properties established about them.

    Conventions.
    - Python [int] is [Z]; Python [float] (and [numpy.float64]) is the
      kernel's binary64 [float]; a [numpy.float32] value is a [spec_float]
      rounded with 24 bits of precision.
    - Python [str] is [string]; a character stands for the code point of
      the same number, so the model covers text of code points below 256.
    - [AnimationKeyframe] objects are mutable and shared: they live in a
      heap addressed by [loc], and a configuration holds addresses.
    - The diffusion pipeline and its loading, OpenCV's warps, optical flow
      and colour-space conversions and numpy's resampling are
      collaborators; they are the fields of the classes [Transforms.OpenCV]
      and [Collaborators]. A call that can raise answers with a [result]:
      the warp, the optical flow, the pipeline and the loading of the
      pipeline do. *)

From Stdlib Require Import ZArith List String Ascii Lia Floats Sorted.
From Stdlib Require Import Reals Lra.
From stdpp Require Import base list gmap strings.

Set Warnings "-inexact-float".
Local Open Scope Z_scope.

(** ** Exceptions and results *)

Inductive value_error : Type :=
| invalid_literal_for_int (text : string)
| could_not_convert_string_to_float (text : string)
| too_many_values_to_unpack
| operands_could_not_be_broadcast
| number_of_samples_must_be_non_negative (n : Z)
| array_of_sample_points_is_empty.

Inductive exn : Type :=
| ValueError (why : value_error)
| IndexError
| ZeroDivisionError
| OverflowError
| CallbackError (tag : Z)
| PipelineError (tag : Z)
| OpenCVError (message : string)
| LoadError (tag : Z).

Inductive result (A : Type) : Type :=
| Ok (a : A)
| Raise (e : exn).

Arguments Ok {A} a.
Arguments Raise {A} e.

#[global] Instance result_ret : MRet result := fun A a => Ok a.
#[global] Instance result_bind : MBind result :=
  fun A B f m => match m with Ok a => f a | Raise e => Raise e end.

(** [for x in xs: ys.append(f(x))], stopping at the first exception. *)
Fixpoint for_each {A B : Type} (f : A -> result B) (xs : list A) : result (list B) :=
  match xs with
  | [] => Ok []
  | x :: xs' =>
      match f x with
      | Raise e => Raise e
      | Ok y =>
          match for_each f xs' with
          | Raise e => Raise e
          | Ok ys => Ok (y :: ys)
          end
      end
  end.

(** [range(n)]. *)
Definition range (n : Z) : list Z := map Z.of_nat (seq 0 (Z.to_nat n)).

(** ** Floating point *)

Definition prec64 : Z := 53.
Definition emax64 : Z := 1024.
Definition prec32 : Z := 24.
Definition emax32 : Z := 128.

(** The quotient [p / q] of two positive integers, rounded once to the
    nearest float of the given format (ties to even): the quotient is taken
    with three guard bits and a sticky bit, which [binary_normalize] rounds. *)
Definition round_ratio (prec emax : Z) (neg : bool) (p q : positive) : spec_float :=
  let k := Z.max 0 (prec + 3 + Z.log2_up (Z.pos q) - Z.log2 (Z.pos p)) in
  let n := Z.pos p * 2 ^ k in
  let m := n / Z.pos q in
  let sticky := if n mod Z.pos q =? 0 then 0 else 1 in
  binary_normalize prec emax (cond_Zopp neg (2 * m + sticky)) (- (k + 1)) false.

(** Python's [a / b] on two [int]s: the correctly rounded quotient, and
    [OverflowError] when it rounds to no finite float, which is when
    [|a / b| >= 2^1024 - 2^970]. *)
Definition truediv (a b : Z) : result float :=
  match b with
  | 0 => Raise ZeroDivisionError
  | _ =>
      let neg := xorb (a <? 0) (b <? 0) in
      if (2 ^ 1024 - 2 ^ 970) * Z.abs b <=? Z.abs a then Raise OverflowError
      else
        match Z.abs a, Z.abs b with
        | Z.pos p, Z.pos q => Ok (SF2Prim (round_ratio prec64 emax64 neg p q))
        | _, _ => Ok (SF2Prim (S754_zero (b <? 0)))
        end
  end.

(** The value [± m * 10^e] as the nearest binary64 float. *)
Definition float_of_decimal (neg : bool) (m e : Z) : float :=
  match m with
  | Z.pos p =>
      SF2Prim
        (if 0 <=? e
         then round_ratio prec64 emax64 neg (p * Z.to_pos (10 ^ e)) 1
         else round_ratio prec64 emax64 neg p (Z.to_pos (10 ^ (- e))))
  | _ => SF2Prim (S754_zero neg)
  end.

(** *** binary32, for the pixel arithmetic of numpy *)

Definition float32 : Type := spec_float.

(** [numpy.uint8 -> numpy.float32], exact. *)
Definition f32_of_uint8 (v : Z) : float32 := binary_normalize prec32 emax32 v 0 false.

(** A Python [float] operand of a [float32] array is rounded to binary32. *)
Definition f32_of_float (x : float) : float32 :=
  match Prim2SF x with
  | S754_finite s m e => binary_round prec32 emax32 s m e
  | other => other
  end.

Definition f32_mul : float32 -> float32 -> float32 := SFmul prec32 emax32.
Definition f32_add : float32 -> float32 -> float32 := SFadd prec32 emax32.

(** [.astype(numpy.uint8)]: the fraction is dropped and the integer is kept
    modulo 256. (Of a value that is not finite the cast is unspecified; 0 here.) *)
Definition uint8_of_f32 (x : float32) : Z :=
  match x with
  | S754_finite s m e =>
      let v := if 0 <=? e then Z.pos m * 2 ^ e else Z.pos m / 2 ^ (- e) in
      (cond_Zopp s v) mod 256
  | _ => 0
  end.

(** ** Strings *)

Definition code (c : ascii) : Z := Z.of_N (N_of_ascii c).

(** [str.isspace] on code points below 256. *)
Definition is_space (c : ascii) : bool :=
  let n := code c in
  ((9 <=? n) && (n <=? 13)) || ((28 <=? n) && (n <=? 32)) || (n =? 133) || (n =? 160).

Fixpoint lstrip_by (p : ascii -> bool) (l : list ascii) : list ascii :=
  match l with
  | c :: l' => if p c then lstrip_by p l' else l
  | [] => []
  end.

Fixpoint rstrip_by (p : ascii -> bool) (l : list ascii) : list ascii :=
  match l with
  | c :: l' =>
      match rstrip_by p l' with
      | [] => if p c then [] else [c]
      | r => c :: r
      end
  | [] => []
  end.

Definition strip_by (p : ascii -> bool) (l : list ascii) : list ascii :=
  rstrip_by p (lstrip_by p l).

(** [s.strip()]. *)
Definition strip (s : string) : string :=
  string_of_list_ascii (strip_by is_space (list_ascii_of_string s)).

(** [s.strip(chars)]. *)
Definition strip_chars (chars : string) (s : string) : string :=
  let member c := existsb (Ascii.eqb c) (list_ascii_of_string chars) in
  string_of_list_ascii (strip_by member (list_ascii_of_string s)).

(** [c in s] for a one-character [c]. *)
Definition contains (c : ascii) (s : string) : bool :=
  existsb (Ascii.eqb c) (list_ascii_of_string s).

(** [s.split(sep)] for a one-character separator. *)
Fixpoint split (sep : ascii) (s : string) : list string :=
  match s with
  | EmptyString => [EmptyString]
  | String c s' =>
      if Ascii.eqb c sep then EmptyString :: split sep s'
      else
        match split sep s' with
        | p :: ps => String c p :: ps
        | [] => [String c EmptyString]
        end
  end.

(** *** [int(s)] and [float(s)] *)

Definition digit_of (c : ascii) : option Z :=
  let n := code c in
  if (48 <=? n) && (n <=? 57) then Some (n - 48) else None.

(** Reads [digit (["_"] digit)*] after its first digit has been seen:
    the value so far, the number of digits so far, and what is left. *)
Fixpoint digits_loop (acc : Z) (n : Z) (l : list ascii) : Z * Z * list ascii :=
  match l with
  | c :: l' =>
      match digit_of c with
      | Some d => digits_loop (10 * acc + d) (n + 1) l'
      | None =>
          if Ascii.eqb c "_"
          then
            match l' with
            | c' :: l'' =>
                match digit_of c' with
                | Some d => digits_loop (10 * acc + d) (n + 1) l''
                | None => (acc, n, l)
                end
            | [] => (acc, n, l)
            end
          else (acc, n, l)
      end
  | [] => (acc, n, [])
  end.

(** [digitpart]: value, number of digits, rest. *)
Definition digitpart (l : list ascii) : option (Z * Z * list ascii) :=
  match l with
  | c :: _ => match digit_of c with Some _ => Some (digits_loop 0 0 l) | None => None end
  | [] => None
  end.

(** An optional sign: is it negative, and the rest. *)
Definition sign (l : list ascii) : bool * list ascii :=
  match l with
  | c :: l' =>
      if Ascii.eqb c "-" then (true, l')
      else if Ascii.eqb c "+" then (false, l')
      else (false, l)
  | [] => (false, [])
  end.

(** The whitespace [int] and [float] skip around a literal. A string of
    ASCII characters goes to the parser as it is, and the parser skips
    ASCII whitespace; in a string with a code point above 127 every
    [str.isspace] character is first replaced by a space. *)
Definition is_ascii_space (c : ascii) : bool :=
  let n := code c in
  ((9 <=? n) && (n <=? 13)) || (n =? 32).

Definition strip_literal (l : list ascii) : list ascii :=
  if forallb (fun c => code c <? 128) l then strip_by is_ascii_space l
  else strip_by is_space l.

(** [int(s)] in base 10, for a literal within the interpreter's limit on
    the number of digits; [None] is [ValueError]. *)
Definition python_int (s : string) : option Z :=
  let '(neg, l) := sign (strip_literal (list_ascii_of_string s)) in
  match digitpart l with
  | Some (v, _, []) => Some (cond_Zopp neg v)
  | _ => None
  end.

Definition lower (c : ascii) : ascii :=
  let n := code c in
  if (65 <=? n) && (n <=? 90) then ascii_of_N (Z.to_N (n + 32)) else c.

Definition is_word (w : string) (l : list ascii) : bool :=
  String.eqb (string_of_list_ascii (map lower l)) w.

(** The optional exponent of a float literal; [None] when what is left is
    not an exponent and not empty. *)
Definition exponent (l : list ascii) : option Z :=
  match l with
  | [] => Some 0
  | c :: l' =>
      if Ascii.eqb (lower c) "e"
      then
        let '(neg, l'') := sign l' in
        match digitpart l'' with
        | Some (v, _, []) => Some (cond_Zopp neg v)
        | _ => None
        end
      else None
  end.

(** [float(s)]; [None] is [ValueError]. *)
Definition python_float (s : string) : option float :=
  let '(neg, l) := sign (strip_literal (list_ascii_of_string s)) in
  if is_word "inf" l || is_word "infinity" l then Some (SF2Prim (S754_infinity neg))
  else if is_word "nan" l then Some (SF2Prim S754_nan)
  else
    let number :=
      match digitpart l with
      | Some (ip, _, rest) =>
          match rest with
          | c :: rest' =>
              if Ascii.eqb c "."
              then
                match digitpart rest' with
                | Some (fp, nf, rest'') => Some (ip * 10 ^ nf + fp, nf, rest'')
                | None => Some (ip, 0, rest')
                end
              else Some (ip, 0, rest)
          | [] => Some (ip, 0, [])
          end
      | None =>
          match l with
          | c :: rest' =>
              if Ascii.eqb c "."
              then
                match digitpart rest' with
                | Some (fp, nf, rest'') => Some (fp, nf, rest'')
                | None => None
                end
              else None
          | [] => None
          end
      end in
    match number with
    | Some (m, nf, rest) =>
        match exponent rest with
        | Some e => Some (float_of_decimal neg m (e - nf))
        | None => None
        end
    | None => None
    end.

(** ** Scanning for the surrounding control points

    Both [parse_schedule_string] and [_get_keyframe_at_frame] run the loop
<<
    for kf in ...:
        if kf.frame <= frame_idx: before = kf
        if kf.frame > frame_idx and after is None: after = kf
>>
    [find_surrounding] is that loop, with [before] and [after] as they stand
    when it is entered. *)
Fixpoint find_surrounding {A : Type} (key : A -> Z) (frame_idx : Z) (l : list A)
    (before after : option A) : option A * option A :=
  match l with
  | [] => (before, after)
  | kf :: rest =>
      let before' := if key kf <=? frame_idx then Some kf else before in
      let after' :=
        match after with
        | None => if frame_idx <? key kf then Some kf else None
        | Some _ => after
        end in
      find_surrounding key frame_idx rest before' after'
  end.

(** ** The schedule parser *)

(** What the first loop of [parse_schedule_string] makes of one [part] of
    [schedule.split(',')]: nothing when it holds no colon, a control point,
    or the [ValueError] of the unpacking, of [int] or of [float]. *)
Inductive token : Type :=
| no_colon
| control_point (frame : Z) (value : float)
| refused (why : value_error).

Definition read_token (part : string) : token :=
  let part := strip part in
  if contains ":" part
  then
    match split ":" part with
    | [frame_str; value_str] =>
        match python_int (strip frame_str) with
        | None => refused (invalid_literal_for_int (strip frame_str))
        | Some frame =>
            match python_float (strip_chars "() " value_str) with
            | None => refused (could_not_convert_string_to_float (strip_chars "() " value_str))
            | Some value => control_point frame value
            end
        end
    | _ => refused too_many_values_to_unpack
    end
  else no_colon.

(** The first loop, [points] being the list built so far. *)
Fixpoint parse_parts (parts : list string) (points : list (Z * float))
    : result (list (Z * float)) :=
  match parts with
  | [] => Ok points
  | part :: rest =>
      match read_token part with
      | no_colon => parse_parts rest points
      | control_point frame value => parse_parts rest (points ++ [(frame, value)])
      | refused why => Raise (ValueError why)
      end
  end.

Definition schedule_points (schedule : string) : result (list (Z * float)) :=
  parse_parts (split "," schedule) [].

(** One iteration of the second loop: the value appended for [frame]. *)
Definition schedule_value (points : list (Z * float)) (frame : Z) : result float :=
  match find_surrounding fst frame points None None with
  | (None, _) =>
      match points with
      | p :: _ => Ok (snd p)
      | [] => Raise IndexError
      end
  | (Some before, None) => Ok (snd before)
  | (Some before, Some after) =>
      t ← truediv (frame - fst before) (fst after - fst before);
      Ok (snd before + (snd after - snd before) * t)%float
  end.

Definition parse_schedule_string (schedule : string) (total_frames : Z)
    : result (list float) :=
  points ← schedule_points schedule;
  for_each (schedule_value points) (range total_frames).

(** ** Keyframes *)

Module AnimationKeyframe.
Record t : Type := make {
  frame : Z;
  prompt : string;
  negative_prompt : string;
  strength : float;
  seed : Z;
  zoom : float;
  angle : float;
  translation_x : float;
  translation_y : float;
  translation_z : float;
  rotation_3d_x : float;
  rotation_3d_y : float;
  rotation_3d_z : float;
  perspective_flip_theta : float;
  perspective_flip_phi : float;
  perspective_flip_gamma : float;
  noise_schedule : string;
  color_coherence : string;
  diffusion_cadence : Z;
  optical_flow_cadence : string
}.

(** [AnimationKeyframe(frame=frame, prompt=prompt)]: the dataclass defaults. *)
Definition default (frame : Z) (prompt : string) : t :=
  {| frame := frame; prompt := prompt; negative_prompt := "";
     strength := 0.75; seed := -1; zoom := 1.0; angle := 0.0;
     translation_x := 0.0; translation_y := 0.0; translation_z := 0.0;
     rotation_3d_x := 0.0; rotation_3d_y := 0.0; rotation_3d_z := 0.0;
     perspective_flip_theta := 0.0; perspective_flip_phi := 0.0;
     perspective_flip_gamma := 0.0;
     noise_schedule := "0:(0.02)"; color_coherence := "Match Frame 0 LAB";
     diffusion_cadence := 1; optical_flow_cadence := "None" |}.

(** Attribute assignments [kf.zoom = v], [kf.angle = v], [kf.strength = v]. *)
Definition set_zoom (v : float) (kf : t) : t :=
  make (frame kf) (prompt kf) (negative_prompt kf) (strength kf) (seed kf) v (angle kf)
    (translation_x kf) (translation_y kf) (translation_z kf)
    (rotation_3d_x kf) (rotation_3d_y kf) (rotation_3d_z kf)
    (perspective_flip_theta kf) (perspective_flip_phi kf) (perspective_flip_gamma kf)
    (noise_schedule kf) (color_coherence kf) (diffusion_cadence kf) (optical_flow_cadence kf).

Definition set_angle (v : float) (kf : t) : t :=
  make (frame kf) (prompt kf) (negative_prompt kf) (strength kf) (seed kf) (zoom kf) v
    (translation_x kf) (translation_y kf) (translation_z kf)
    (rotation_3d_x kf) (rotation_3d_y kf) (rotation_3d_z kf)
    (perspective_flip_theta kf) (perspective_flip_phi kf) (perspective_flip_gamma kf)
    (noise_schedule kf) (color_coherence kf) (diffusion_cadence kf) (optical_flow_cadence kf).

Definition set_strength (v : float) (kf : t) : t :=
  make (frame kf) (prompt kf) (negative_prompt kf) v (seed kf) (zoom kf) (angle kf)
    (translation_x kf) (translation_y kf) (translation_z kf)
    (rotation_3d_x kf) (rotation_3d_y kf) (rotation_3d_z kf)
    (perspective_flip_theta kf) (perspective_flip_phi kf) (perspective_flip_gamma kf)
    (noise_schedule kf) (color_coherence kf) (diffusion_cadence kf) (optical_flow_cadence kf).
End AnimationKeyframe.

Module KF := AnimationKeyframe.

(** [_lerp]. *)
Definition _lerp (a b t : float) : float := (a + (b - a) * t)%float.

(** The keyframe built when [frame_idx] lies between [before] and [after];
    the fields the constructor call does not pass take their defaults. *)
Definition interpolated (frame_idx : Z) (before after : KF.t) (t : float) : KF.t :=
  {| KF.frame := frame_idx;
     KF.prompt := if (t <? 0.5)%float then KF.prompt before else KF.prompt after;
     KF.negative_prompt := KF.negative_prompt before;
     KF.strength := _lerp (KF.strength before) (KF.strength after) t;
     KF.seed := KF.seed before;
     KF.zoom := _lerp (KF.zoom before) (KF.zoom after) t;
     KF.angle := _lerp (KF.angle before) (KF.angle after) t;
     KF.translation_x := _lerp (KF.translation_x before) (KF.translation_x after) t;
     KF.translation_y := _lerp (KF.translation_y before) (KF.translation_y after) t;
     KF.translation_z := _lerp (KF.translation_z before) (KF.translation_z after) t;
     KF.rotation_3d_x := _lerp (KF.rotation_3d_x before) (KF.rotation_3d_x after) t;
     KF.rotation_3d_y := _lerp (KF.rotation_3d_y before) (KF.rotation_3d_y after) t;
     KF.rotation_3d_z := _lerp (KF.rotation_3d_z before) (KF.rotation_3d_z after) t;
     KF.perspective_flip_theta := 0.0;
     KF.perspective_flip_phi := 0.0;
     KF.perspective_flip_gamma := 0.0;
     KF.noise_schedule := "0:(0.02)";
     KF.color_coherence := "Match Frame 0 LAB";
     KF.diffusion_cadence := 1;
     KF.optical_flow_cadence := "None" |}.

(** [sorted(xs, key=key)]: a stable sort, as an insertion sort. *)
Fixpoint insert_sorted {A : Type} (key : A -> Z) (x : A) (l : list A) : list A :=
  match l with
  | [] => [x]
  | y :: l' => if key x <=? key y then x :: l else y :: insert_sorted key x l'
  end.

Fixpoint sorted {A : Type} (key : A -> Z) (l : list A) : list A :=
  match l with
  | [] => []
  | x :: l' => insert_sorted key x (sorted key l')
  end.

(** ** Images and numpy arrays

    An RGB image of [height] rows and [width] columns; [numpy.array(image)]
    has shape [(height, width, 3)] and [data] is that array flattened in row
    order. An [Image.t] holds [uint8] values, a [ndarray] holds [float32]. *)

Module Image.
Record t : Type := make { height : nat; width : nat; data : list Z }.
End Image.

Record ndarray : Type := mk_ndarray { rows : nat; cols : nat; elements : list float32 }.

(** [numpy.array(image).astype(numpy.float32)]. *)
Definition astype_float32 (image : Image.t) : ndarray :=
  mk_ndarray (Image.height image) (Image.width image) (map f32_of_uint8 (Image.data image)).

(** [Image.fromarray(array.astype(numpy.uint8))]. *)
Definition fromarray_uint8 (array : ndarray) : Image.t :=
  Image.make (rows array) (cols array) (map uint8_of_f32 (elements array)).

(** [array * s] for a Python float [s]. *)
Definition times_scalar (array : ndarray) (s : float) : ndarray :=
  mk_ndarray (rows array) (cols array)
    (map (fun x => f32_mul x (f32_of_float s)) (elements array)).

(** numpy's broadcasting of one dimension. *)
Definition broadcast_dim (a b : nat) : option nat :=
  if (a =? b)%nat then Some a
  else if (a =? 1)%nat then Some b
  else if (b =? 1)%nat then Some a
  else None.

(** The element of [array] used at position [(y, x, c)] of a broadcast result. *)
Definition broadcast_get (array : ndarray) (y x c : nat) : float32 :=
  let y' := if (rows array =? 1)%nat then 0%nat else y in
  let x' := if (cols array =? 1)%nat then 0%nat else x in
  nth ((y' * cols array + x') * 3 + c) (elements array) S754_nan.

(** [a + b]; arrays of one shape are added element by element, others are
    broadcast or refused. *)
Definition plus (a b : ndarray) : result ndarray :=
  if ((rows a =? rows b) && (cols a =? cols b))%nat
  then Ok (mk_ndarray (rows a) (cols a) (zip_with f32_add (elements a) (elements b)))
  else
    match broadcast_dim (rows a) (rows b), broadcast_dim (cols a) (cols b) with
    | Some h, Some w =>
        Ok (mk_ndarray h w
              (y ← seq 0 h; x ← seq 0 w; c ← seq 0 3;
               [f32_add (broadcast_get a y x c) (broadcast_get b y x c)]))
    | _, _ => Raise (ValueError operands_could_not_be_broadcast)
    end.

(** [Image.fromarray((a * (1 - alpha) + b * alpha).astype(np.uint8))] with
    [a] and [b] the [float32] arrays of two images: the expression of
    [_blend_frames] and of [_interpolate_frames]. *)
Definition mix (a b : Image.t) (alpha : float) : result Image.t :=
  sum ← plus (times_scalar (astype_float32 a) (1 - alpha)%float)
             (times_scalar (astype_float32 b) alpha);
  Ok (fromarray_uint8 sum).

(** [_blend_frames]. *)
Definition _blend_frames (current previous : Image.t) (strength : float) : result Image.t :=
  mix current previous strength.

(** Python list indexing [xs[i]]. *)
Definition index {A : Type} (xs : list A) (i : Z) : result A :=
  let n := Z.of_nat (length xs) in
  let i' := if i <? 0 then i + n else i in
  if (0 <=? i') && (i' <? n)
  then match xs !! Z.to_nat i' with Some x => Ok x | None => Raise IndexError end
  else Raise IndexError.

(** [range(a, b)]. *)
Definition range_from (a b : Z) : list Z := map (fun j => a + j) (range (b - a)).

(** The body of the [try] of [_interpolate_frames]. *)
Definition interpolate_between (frames : list Image.t) (factor i : Z)
    : result (list Image.t) :=
  frame ← index frames i;
  next_frame ← index frames (i + 1);
  between ← for_each (fun j => alpha ← truediv j factor; mix frame next_frame alpha)
                     (range_from 1 factor);
  Ok (frame :: between).

Definition interpolate_try (frames : list Image.t) (factor : Z) : result (list Image.t) :=
  chunks ← for_each (interpolate_between frames factor)
                    (range (Z.of_nat (length frames) - 1));
  final ← index frames (-1);
  Ok (concat chunks ++ [final]).

(** [_interpolate_frames]: whatever the body raises is caught and the
    frames come back as they were given. *)
Definition _interpolate_frames (frames : list Image.t) (factor : Z) : list Image.t :=
  match interpolate_try frames factor with
  | Ok interpolated => interpolated
  | Raise _ => frames
  end.

(** ** Configuration *)

Definition loc : Type := nat.

(** The fields of [GenerativeAnimationConfig] that the per-frame loop reads. *)
Module GenerativeAnimationConfig.
Record t : Type := make {
  total_frames : Z;
  steps : Z;
  cfg_scale : float;
  animation_mode : string;
  border : string;
  color_coherence : string;
  diffusion_cadence : Z;
  temporal_strength : float;
  temporal_layers : Z;
  use_animatediff : bool;
  use_optical_flow : bool;
  use_frame_interpolation : bool;
  interpolation_factor : Z;
  keyframes : list loc
}.
End GenerativeAnimationConfig.

Module Cfg := GenerativeAnimationConfig.

(** ** The warp of a frame

    [_apply_transforms] and [_apply_3d_transform]. OpenCV's rotation
    matrix and warps, numpy's [radians], [cos] and [sin] and the inner
    product that numpy's [@] takes of a row and a column are collaborators;
    the matrices are built, stacked and sliced as the code does it. A warp
    answers with an image or with a [cv2.error]. (In mode ["3D"] the code
    hands [cv2.warpPerspective] a matrix of 2 rows and 4 columns, which
    OpenCV refuses: see [rejects_other_shapes].) *)

Module Transforms.

Inductive border_mode : Type := BORDER_WRAP | BORDER_REPLICATE.

(** The 2x3 matrix of [cv2.getRotationMatrix2D]. *)
Record affine : Type := mk_affine {
  m00 : float; m01 : float; m02 : float;
  m10 : float; m11 : float; m12 : float
}.

(** A [float64] array of two dimensions, by rows. *)
Definition matrix : Type := list (list float).

Inductive outcome : Type :=
| Returned (image : Image.t)
| Raised (e : exn)
| cv2_error (message : string).

Class OpenCV : Type := {
  (** [cv2.getRotationMatrix2D(center, angle, scale)] *)
  getRotationMatrix2D : float * float -> float -> float -> affine;
  (** [cv2.warpAffine(img, M, dsize, borderMode=...)] *)
  warpAffine : Image.t -> affine -> nat * nat -> border_mode -> outcome;
  (** [cv2.warpPerspective(img, M, dsize, borderMode=...)] *)
  warpPerspective : Image.t -> matrix -> nat * nat -> border_mode -> outcome;
  radians : float -> float;
  cos : float -> float;
  sin : float -> float;
  (** the inner product of a row and a column, as [@] accumulates it *)
  dot : list float -> list float -> float
}.

(** [cv2.BORDER_WRAP if border == "wrap" else cv2.BORDER_REPLICATE]. *)
Definition border_mode_of (border : string) : border_mode :=
  if String.eqb border "wrap" then BORDER_WRAP else BORDER_REPLICATE.

(** An entry of an array of [dtype=np.float32], as the [float64] it is
    promoted to in a product with a [float64] array. *)
Definition float32_entry (x : float32) : float := SF2Prim x.

Definition float32_of_int (n : Z) : float32 := binary_normalize prec32 emax32 n 0 false.

(** The columns of a matrix. *)
Definition columns (m : matrix) : list (list float) :=
  match m with
  | [] => []
  | row :: _ => map (fun j => map (fun r => nth j r 0%float) m) (seq 0 (length row))
  end.

(** [a @ b]. *)
Definition matmul `{OpenCV} (a b : matrix) : matrix :=
  map (fun row => map (dot row) (columns b)) a.

(** [np.hstack([R, T.reshape(3, 1)])]. *)
Definition hstack (R : matrix) (T : list float) : matrix :=
  zip_with (fun row t => row ++ [t]) R T.

(** The matrix handed to [cv2.warpPerspective]: [projection_matrix[:2, :]]. *)
Definition projection `{OpenCV} (w h : nat) (half_w half_h : float)
    (tx ty tz rx ry rz : float) : matrix :=
  let focal_length := float32_entry (float32_of_int (Z.of_nat w)) in
  let camera_matrix : matrix :=
    [[focal_length; 0; float32_entry (f32_of_float half_w)];
     [0; focal_length; float32_entry (f32_of_float half_h)];
     [0; 0; 1]]%float in
  let rx_rad := radians rx in
  let ry_rad := radians ry in
  let rz_rad := radians rz in
  let Rx : matrix :=
    [[1; 0; 0];
     [0; cos rx_rad; - sin rx_rad];
     [0; sin rx_rad; cos rx_rad]]%float in
  let Ry : matrix :=
    [[cos ry_rad; 0; sin ry_rad];
     [0; 1; 0];
     [- sin ry_rad; 0; cos ry_rad]]%float in
  let Rz : matrix :=
    [[cos rz_rad; - sin rz_rad; 0];
     [sin rz_rad; cos rz_rad; 0];
     [0; 0; 1]]%float in
  let R := matmul (matmul Rz Ry) Rx in
  let T := [tx; ty; tz] in
  let RT := hstack R T in
  let projection_matrix := matmul camera_matrix RT in
  take 2 projection_matrix.

(** [_apply_3d_transform]; [theta], [phi] and [gamma] are its three
    perspective-flip parameters. *)
Definition _apply_3d_transform `{OpenCV} (img : Image.t) (tx ty tz rx ry rz : float)
    (theta phi gamma : float) (border : string) : outcome :=
  let h := Image.height img in
  let w := Image.width img in
  match truediv (Z.of_nat w) 2 with
  | Raise e => Raised e
  | Ok half_w =>
      match truediv (Z.of_nat h) 2 with
      | Raise e => Raised e
      | Ok half_h =>
          warpPerspective img (projection w h half_w half_h tx ty tz rx ry rz) (w, h)
            (border_mode_of border)
      end
  end.

(** [_apply_transforms]. *)
Definition _apply_transforms `{OpenCV} (image : Image.t) (keyframe : KF.t)
    (mode border : string) : outcome :=
  let h := Image.height image in
  let w := Image.width image in
  if String.eqb mode "2D"
  then
    match truediv (Z.of_nat w) 2 with
    | Raise e => Raised e
    | Ok center_x =>
        match truediv (Z.of_nat h) 2 with
        | Raise e => Raised e
        | Ok center_y =>
            let M := getRotationMatrix2D (center_x, center_y)
                       (KF.angle keyframe) (KF.zoom keyframe) in
            let M := mk_affine (m00 M) (m01 M) (m02 M + KF.translation_x keyframe)
                               (m10 M) (m11 M) (m12 M) in
            let M := mk_affine (m00 M) (m01 M) (m02 M)
                               (m10 M) (m11 M) (m12 M + KF.translation_y keyframe) in
            warpAffine image M (w, h) (border_mode_of border)
        end
    end
  else if String.eqb mode "3D"
  then
    _apply_3d_transform image
      (KF.translation_x keyframe) (KF.translation_y keyframe) (KF.translation_z keyframe)
      (KF.rotation_3d_x keyframe) (KF.rotation_3d_y keyframe) (KF.rotation_3d_z keyframe)
      (KF.perspective_flip_theta keyframe) (KF.perspective_flip_phi keyframe)
      (KF.perspective_flip_gamma keyframe) border
  else Returned image.

(** What a call of [_apply_transforms] comes to in the caller: the image,
    or the exception raised. *)
Definition as_result (o : outcome) : result Image.t :=
  match o with
  | Returned image => Ok image
  | Raised e => Raise e
  | cv2_error message => Raise (OpenCVError message)
  end.

End Transforms.

(** [cv2.warpPerspective] asserts that its matrix has 3 rows and 3 columns
    and raises [cv2.error] for any other. *)
Definition rejects_other_shapes (cv : Transforms.OpenCV) : Prop :=
  forall (img : Image.t) (M : Transforms.matrix) (dsize : nat * nat)
         (mode : Transforms.border_mode),
    ~ (length M = 3%nat /\ Forall (fun row => length row = 3%nat) M) ->
    exists message,
      @Transforms.warpPerspective cv img M dsize mode = Transforms.cv2_error message.

(** Collaborators to run a warp on: the rotation matrix is the identity,
    a warp hands the image back (the perspective warp for a matrix of 3
    rows of 3 only), and the inner product is the sum of the products from
    the left. *)
Definition example_opencv : Transforms.OpenCV :=
  {| Transforms.getRotationMatrix2D := fun _ _ _ => Transforms.mk_affine 1 0 0 0 1 0;
     Transforms.warpAffine := fun img _ _ _ => Transforms.Returned img;
     Transforms.warpPerspective := fun img M _ _ =>
       if ((length M =? 3) && forallb (fun row => length row =? 3) M)%nat
       then Transforms.Returned img
       else Transforms.cv2_error "M0.rows == 3 && M0.cols == 3";
     Transforms.radians := fun x => (x * 0.017453292519943295)%float;
     Transforms.cos := fun _ => 1%float;
     Transforms.sin := fun _ => 0%float;
     Transforms.dot := fun row column =>
       fold_left PrimFloat.add (zip_with PrimFloat.mul row column) 0%float |}.

(** ** Collaborators *)

(** What one call of the diffusion pipeline is given. [num_frames] is passed
    on the AnimateDiff path only; [control_image] is always [None], since
    [_prepare_controlnet_inputs] returns the empty list; [manual_seed] is the
    seed fed to the generator, when the keyframe's seed is positive. *)
Record pipeline_call : Type := {
  call_prompt : string;
  call_negative_prompt : string;
  call_image : Image.t;
  call_num_frames : option Z;
  call_strength : float;
  call_guidance_scale : float;
  call_num_inference_steps : Z;
  call_manual_seed : option Z
}.

Class Collaborators : Type := {
  (** OpenCV and numpy as [_apply_transforms] uses them *)
  opencv :: Transforms.OpenCV;
  (** [_apply_optical_flow]: current, previous; its body is calls of
      OpenCV, which return an image or raise *)
  _apply_optical_flow : Image.t -> Image.t -> result Image.t;
  (** [self.pipeline(...)], down to the image it returns *)
  pipeline : pipeline_call -> result Image.t;
  (** [cv2.cvtColor(array, code)] on [uint8] arrays, by the name of the code *)
  cvtColor : Image.t -> string -> Image.t;
  (** numpy's [mean] and [std] of a [float32] array *)
  np_mean : list float32 -> float32;
  np_std : list float32 -> float32;
  (** [np.interp(np.linspace(0, len(values), n), np.arange(len(values)), values)]
      for the arguments numpy accepts: [n >= 0] and [values] not empty *)
  resample : list float -> Z -> list float;
  (** [self.pipeline is None or self.current_config != config], as a run
      finds the animator. The two attributes are read by this test and
      written by [load_pipeline] only: they are kept out of [animator]. *)
  pipeline_is_stale : Cfg.t -> bool;
  (** [self.load_pipeline(config)], whose body is modelled in [Loading]:
      it returns, with the pipeline loaded, or raises *)
  load_pipeline : Cfg.t -> result unit
}.

(** ** Colour coherence

    The channel statistics and the rescaling are written once, over the
    operations of [Arithmetic]. The code runs them on [float32], with
    numpy's [mean] and [std]; read over the real numbers they give the
    values that the [float32] results approximate. *)

Class Arithmetic (T : Type) : Type := {
  num_add : T -> T -> T;
  num_sub : T -> T -> T;
  num_mul : T -> T -> T;
  num_div : T -> T -> T;
  (** [x > 0] *)
  num_positive : T -> bool;
  (** [array.mean()] and [array.std()] *)
  num_mean : list T -> T;
  num_std : list T -> T
}.

Definition f32_sub : float32 -> float32 -> float32 := SFsub prec32 emax32.
Definition f32_div : float32 -> float32 -> float32 := SFdiv prec32 emax32.
Definition f32_positive (x : float32) : bool := SFltb (S754_zero false) x.

#[global] Instance float32_arithmetic `{Collaborators} : Arithmetic float32 :=
  {| num_add := f32_add; num_sub := f32_sub; num_mul := f32_mul; num_div := f32_div;
     num_positive := f32_positive; num_mean := np_mean; num_std := np_std |}.



(** [array[..., i]] of an array of shape [(h, w, 3)], flattened. *)
Fixpoint channel {T : Type} (i : nat) (flat : list T) : list T :=
  match flat with
  | x :: rest =>
      match i with
      | O => x :: channel 2 rest
      | S i' => channel i' rest
      end
  | [] => []
  end.

(** [array[..., i] = f(array[..., i])], element by element. *)
Fixpoint map_channel {T : Type} (f : T -> T) (i : nat) (flat : list T) : list T :=
  match flat with
  | x :: rest =>
      match i with
      | O => f x :: map_channel f 2 rest
      | S i' => x :: map_channel f i' rest
      end
  | [] => []
  end.

(** [(x - curr_mean) * (ref_std / curr_std) + ref_mean]. *)
Definition rescale {T : Type} `{Arithmetic T} (curr_mean curr_std ref_mean ref_std x : T) : T :=
  num_add (num_mul (num_sub x curr_mean) (num_div ref_std curr_std)) ref_mean.

(** One iteration of [for i in range(3)]. *)
Definition match_channel {T : Type} `{Arithmetic T} (ref : list T) (i : nat)
    (curr : list T) : list T :=
  let curr_mean := num_mean (channel i curr) in
  let curr_std := num_std (channel i curr) in
  let ref_mean := num_mean (channel i ref) in
  let ref_std := num_std (channel i ref) in
  if num_positive curr_std
  then map_channel (rescale curr_mean curr_std ref_mean ref_std) i curr
  else curr.

Definition match_channels {T : Type} `{Arithmetic T} (ref curr : list T) : list T :=
  match_channel ref 2 (match_channel ref 1 (match_channel ref 0 curr)).

(** The conversions into and out of the colour space of a method; [None]
    for the RGB array itself (the [else] branch takes every other name). *)
Definition conversions (method : string) : option string * option string :=
  if String.eqb method "Match Frame 0 LAB" then (Some "COLOR_RGB2LAB", Some "COLOR_LAB2RGB")
  else if String.eqb method "Match Frame 0 HSV" then (Some "COLOR_RGB2HSV", Some "COLOR_HSV2RGB")
  else (None, None).

(** The [float32] array the statistics are taken of: the image converted
    to the colour space of the method, or the RGB array itself. *)
Definition in_space `{Collaborators} (to_space : option string) (image : Image.t) : ndarray :=
  match to_space with
  | Some conversion => astype_float32 (cvtColor image conversion)
  | None => astype_float32 image
  end.

(** Back to an RGB image: the array cast to [uint8] and converted. *)
Definition out_of_space `{Collaborators} (from_space : option string) (array : ndarray)
    : Image.t :=
  match from_space with
  | Some conversion => cvtColor (fromarray_uint8 array) conversion
  | None => fromarray_uint8 array
  end.

(** [_apply_color_coherence]. *)
Definition _apply_color_coherence `{Collaborators} (current reference : Image.t)
    (method : string) : Image.t :=
  let curr := in_space (fst (conversions method)) current in
  let ref := in_space (fst (conversions method)) reference in
  out_of_space (snd (conversions method))
    (mk_ndarray (rows curr) (cols curr) (match_channels (elements ref) (elements curr))).

(** ** The animator: state and effects *)

Inductive event : Type :=
| progress_reported (frame_idx total_frames : Z)
| transforms_applied (frame_idx : Z)
| optical_flow_applied (frame_idx : Z)
| pipeline_called (frame_idx : Z) (call : pipeline_call)
| color_coherence_applied (frame_idx : Z)
| frames_blended (frame_idx : Z).

(** The objects a run touches: the keyframes (by address), the animator's
    [previous_frames], and the calls made so far, oldest first. *)
Record animator : Type := mk_animator {
  heap : list KF.t;
  previous_frames : list Image.t;
  calls : list event
}.

Definition M (A : Type) : Type := animator -> result A * animator.

#[global] Instance M_ret : MRet M := fun A a s => (Ok a, s).
#[global] Instance M_bind : MBind M :=
  fun A B f m s =>
    match m s with
    | (Ok a, s') => f a s'
    | (Raise e, s') => (Raise e, s')
    end.

Definition lift {A : Type} (r : result A) : M A := fun s => (r, s).

Definition record (e : event) : M unit :=
  fun s => (Ok tt, mk_animator (heap s) (previous_frames s) (calls s ++ [e])).

Definition get_previous_frames : M (list Image.t) := fun s => (Ok (previous_frames s), s).

Definition set_previous_frames (frames : list Image.t) : M unit :=
  fun s => (Ok tt, mk_animator (heap s) frames (calls s)).

(** Reading the object at an address. An address outside the heap is met by
    no run; the model answers it with [IndexError]. *)
Definition deref (l : loc) : M KF.t :=
  fun s => (match heap s !! l with Some kf => Ok kf | None => Raise IndexError end, s).

(** Assigning to attributes of the object at an address. *)
Definition update (l : loc) (f : KF.t -> KF.t) : M unit :=
  fun s =>
    match heap s !! l with
    | Some kf => (Ok tt, mk_animator (<[l := f kf]> (heap s)) (previous_frames s) (calls s))
    | None => (Raise IndexError, s)
    end.

(** Constructing an object: it gets an address no other object has. *)
Definition alloc (kf : KF.t) : M loc :=
  fun s => (Ok (length (heap s)),
            mk_animator (heap s ++ [kf]) (previous_frames s) (calls s)).

Fixpoint deref_all (ls : list loc) : M (list (loc * KF.t)) :=
  match ls with
  | [] => mret []
  | l :: ls' => kf ← deref l; rest ← deref_all ls'; mret ((l, kf) :: rest)
  end.

(** ** The animator's methods *)

Definition frame_of (object : loc * KF.t) : Z := KF.frame (snd object).

(** [_get_keyframe_at_frame]. It returns an address: of a new object when it
    builds a keyframe, of an object of the list when it picks one. *)
Definition _get_keyframe_at_frame (frame_idx : Z) (keyframes : list loc) : M loc :=
  match keyframes with
  | [] => alloc (KF.default frame_idx "")
  | first :: _ =>
      objects ← deref_all keyframes;
      match find_surrounding frame_of frame_idx (sorted frame_of objects) None None with
      | (None, _) => mret first
      | (Some before, None) => mret (fst before)
      | (Some before, Some after) =>
          t ← lift (truediv (frame_idx - frame_of before) (frame_of after - frame_of before));
          alloc (interpolated frame_idx (snd before) (snd after) t)
      end
  end.

(** One series resampled to the frame count. [np.linspace] raises
    [ValueError] for a negative number of samples, and [np.interp] for an
    empty array of sample points. *)
Definition resampled `{Collaborators} (values : list float) (total_frames : Z)
    : result (list float) :=
  if total_frames <? 0
  then Raise (ValueError (number_of_samples_must_be_non_negative total_frames))
  else
    match values with
    | [] => Raise (ValueError array_of_sample_points_is_empty)
    | _ => Ok (resample values total_frames)
    end.

(** [_parse_audio_data]: every feature series resampled to the frame
    count. The items are visited in the order of [map_to_list]; the order
    of the dict may be another, which changes nothing: whether a series is
    refused, and with what exception, depends on the frame count and on the
    series alone, and every series refused for one frame count is refused
    with the same exception. *)
Definition _parse_audio_data `{Collaborators} (audio_data : gmap string (list float))
    (total_frames : Z) : result (gmap string (list float)) :=
  params ← for_each (fun item => values ← resampled (snd item) total_frames;
                                 Ok (fst item, values))
                    (map_to_list audio_data);
  Ok (list_to_map params).

(** [_apply_audio_reactivity]: the keyframe object is modified in place and
    its own address is returned. *)
Definition _apply_audio_reactivity (keyframe : loc)
    (audio_params : gmap string (list float)) (frame_idx : Z) : M loc :=
  match audio_params !! "bass" with
  | Some series =>
      bass_value ← lift (index series frame_idx);
      update keyframe (fun kf => KF.set_zoom (KF.zoom kf * (1.0 + bass_value * 0.2))%float kf)
  | None => mret tt
  end;;
  match audio_params !! "treble" with
  | Some series =>
      treble_value ← lift (index series frame_idx);
      update keyframe (fun kf => KF.set_angle (KF.angle kf + treble_value * 45)%float kf)
  | None => mret tt
  end;;
  match audio_params !! "energy" with
  | Some series =>
      energy_value ← lift (index series frame_idx);
      update keyframe (fun kf => KF.set_strength (0.5 + energy_value * 0.5)%float kf)
  | None => mret tt
  end;;
  mret keyframe.

(** Python's [a % b] on [int]s. *)
Definition pymod (a b : Z) : result Z :=
  if b =? 0 then Raise ZeroDivisionError else Ok (a mod b).

(** The arguments of the pipeline call of [_generate_frame]. *)
Definition pipeline_arguments (warped_image : Image.t) (kf : KF.t) (config : Cfg.t)
    : pipeline_call :=
  {| call_prompt := KF.prompt kf;
     call_negative_prompt := KF.negative_prompt kf;
     call_image := warped_image;
     call_num_frames :=
       if Cfg.use_animatediff config then Some (Cfg.temporal_layers config) else None;
     call_strength := KF.strength kf;
     call_guidance_scale := Cfg.cfg_scale config;
     call_num_inference_steps := Cfg.steps config;
     call_manual_seed := if 0 <? KF.seed kf then Some (KF.seed kf) else None |}.

(** [_generate_frame]. *)
Definition _generate_frame `{Collaborators} (prev_image : Image.t) (frame_idx : Z)
    (keyframe : loc) (config : Cfg.t) : M Image.t :=
  kf ← deref keyframe;
  record (transforms_applied frame_idx);;
  warped_image ←
    lift (Transforms.as_result
            (Transforms._apply_transforms prev_image kf (Cfg.animation_mode config)
               (Cfg.border config)));
  previous ← get_previous_frames;
  warped_image ←
    (if Cfg.use_optical_flow config && (0 <? Z.of_nat (length previous))
     then
       latest ← lift (index previous (-1));
       record (optical_flow_applied frame_idx);;
       lift (_apply_optical_flow warped_image latest)
     else mret warped_image);
  remainder ← lift (pymod frame_idx (Cfg.diffusion_cadence config));
  if remainder =? 0
  then
    let call := pipeline_arguments warped_image kf config in
    record (pipeline_called frame_idx call);;
    output ← lift (pipeline call);
    output ←
      (if negb (String.eqb (Cfg.color_coherence config) "None")
          && (0 <? Z.of_nat (length previous))
       then
         reference_frame ← lift (index previous 0);
         record (color_coherence_applied frame_idx);;
         mret (_apply_color_coherence output reference_frame (Cfg.color_coherence config))
       else mret output);
    output ←
      (if (0 <? Cfg.temporal_strength config)%float && (0 <? Z.of_nat (length previous))
       then
         latest ← lift (index previous (-1));
         record (frames_blended frame_idx);;
         lift (_blend_frames output latest (Cfg.temporal_strength config))
       else mret output);
    mret output
  else mret warped_image.

(** One iteration of the loop of [generate_animation]; [frames] are the
    frames generated so far. *)
Definition generate_step `{Collaborators} (init_image : Image.t) (config : Cfg.t)
    (audio_params : gmap string (list float))
    (progress_callback : option (Z -> Z -> result unit))
    (frames : list Image.t) (frame_idx : Z) : M (list Image.t) :=
  match progress_callback with
  | Some callback =>
      record (progress_reported frame_idx (Cfg.total_frames config));;
      lift (callback frame_idx (Cfg.total_frames config))
  | None => mret tt
  end;;
  keyframe ← _get_keyframe_at_frame frame_idx (Cfg.keyframes config);
  keyframe ←
    (if bool_decide (audio_params = ∅) then mret keyframe
     else _apply_audio_reactivity keyframe audio_params frame_idx);
  prev_image ← (if frame_idx =? 0 then mret init_image else lift (index frames (-1)));
  frame ← _generate_frame prev_image frame_idx keyframe config;
  previous ← get_previous_frames;
  set_previous_frames
    (if Cfg.temporal_layers config <? Z.of_nat (length (previous ++ [frame]))
     then tail (previous ++ [frame])
     else previous ++ [frame]);;
  mret (frames ++ [frame]).

Fixpoint generate_loop `{Collaborators} (init_image : Image.t) (config : Cfg.t)
    (audio_params : gmap string (list float))
    (progress_callback : option (Z -> Z -> result unit))
    (indices : list Z) (frames : list Image.t) : M (list Image.t) :=
  match indices with
  | [] => mret frames
  | frame_idx :: rest =>
      frames' ← generate_step init_image config audio_params progress_callback frames frame_idx;
      generate_loop init_image config audio_params progress_callback rest frames'
  end.

(** [self._parse_audio_data(audio_data, config.total_frames) if audio_data else {}]. *)
Definition audio_params_of `{Collaborators} (audio_data : option (gmap string (list float)))
    (config : Cfg.t) : result (gmap string (list float)) :=
  match audio_data with
  | Some features =>
      if bool_decide (features = ∅) then Ok ∅
      else _parse_audio_data features (Cfg.total_frames config)
  | None => Ok ∅
  end.

(** [if self.pipeline is None or self.current_config != config:
    self.load_pipeline(config)]. *)
Definition ensure_pipeline `{Collaborators} (config : Cfg.t) : result unit :=
  if pipeline_is_stale config then load_pipeline config else Ok tt.

(** [generate_animation]. *)
Definition generate_animation `{Collaborators} (init_image : Image.t) (config : Cfg.t)
    (audio_data : option (gmap string (list float)))
    (progress_callback : option (Z -> Z -> result unit)) : M (list Image.t) :=
  lift (ensure_pipeline config);;
  set_previous_frames [];;
  audio_params ← lift (audio_params_of audio_data config);
  frames ← generate_loop init_image config audio_params progress_callback
             (range (Cfg.total_frames config)) [];
  if Cfg.use_frame_interpolation config && (1 <? Cfg.interpolation_factor config)
  then mret (_interpolate_frames frames (Cfg.interpolation_factor config))
  else mret frames.

(** ** A concrete set of collaborators

    Used to run the model on examples: the pipeline is loaded; the warps
    of OpenCV, the optical flow, the pipeline and the colour conversions
    hand back the image they are given, resampling keeps a series as it
    is, and the mean and the standard deviation are accumulated from left
    to right in [float32]. *)

Definition f32_sum (xs : list float32) : float32 :=
  fold_left f32_add xs (S754_zero false).

Definition f32_count (xs : list float32) : float32 :=
  binary_normalize prec32 emax32 (Z.of_nat (length xs)) 0 false.

Definition sequential_mean (xs : list float32) : float32 :=
  f32_div (f32_sum xs) (f32_count xs).

Definition sequential_std (xs : list float32) : float32 :=
  let m := sequential_mean xs in
  SFsqrt prec32 emax32
    (sequential_mean (map (fun x => f32_mul (f32_sub x m) (f32_sub x m)) xs)).

Definition still : Collaborators :=
  {| opencv := example_opencv;
     _apply_optical_flow := fun current _ => Ok current;
     pipeline := fun call => Ok (call_image call);
     cvtColor := fun image _ => image;
     np_mean := sequential_mean;
     np_std := sequential_std;
     resample := fun values _ => values;
     pipeline_is_stale := fun _ => false;
     load_pipeline := fun _ => Ok tt |}.

(** ** Vocabulary of the statements *)

(** *** The per-frame step *)

(** The warp of [_generate_frame]: the image, or the exception raised. *)
Definition warp `{Collaborators} (prev_image : Image.t) (kf : KF.t) (config : Cfg.t)
    : result Image.t :=
  Transforms.as_result
    (Transforms._apply_transforms prev_image kf (Cfg.animation_mode config)
       (Cfg.border config)).

(** The frame [_generate_frame] holds when it reaches the cadence test:
    the warped frame, aligned to the latest previous frame when optical
    flow is enabled and there is one; or the exception of the warp or of
    the alignment, with which the step ends before that test. *)
Definition warped_frame `{Collaborators} (prev_image : Image.t) (kf : KF.t) (config : Cfg.t)
    (previous : list Image.t) : result Image.t :=
  warped ← warp prev_image kf config;
  match last previous with
  | Some latest =>
      if Cfg.use_optical_flow config then _apply_optical_flow warped latest else Ok warped
  | None => Ok warped
  end.

(** The branch of [_generate_frame] that runs the diffusion, from the
    warped frame on. *)
Definition diffusion `{Collaborators} (frame_idx : Z) (warped_image : Image.t) (kf : KF.t)
    (config : Cfg.t) (previous : list Image.t) : M Image.t :=
  let call := pipeline_arguments warped_image kf config in
  record (pipeline_called frame_idx call);;
  output ← lift (pipeline call);
  output ←
    (if negb (String.eqb (Cfg.color_coherence config) "None")
        && (0 <? Z.of_nat (length previous))
     then
       reference_frame ← lift (index previous 0);
       record (color_coherence_applied frame_idx);;
       mret (_apply_color_coherence output reference_frame (Cfg.color_coherence config))
     else mret output);
  output ←
    (if (0 <? Cfg.temporal_strength config)%float && (0 <? Z.of_nat (length previous))
     then
       latest ← lift (index previous (-1));
       record (frames_blended frame_idx);;
       lift (_blend_frames output latest (Cfg.temporal_strength config))
     else mret output);
  mret output.

(** The calls that produce it, when the warp returns. *)
Definition warp_calls (frame_idx : Z) (config : Cfg.t) (previous : list Image.t)
    : list event :=
  transforms_applied frame_idx ::
  match last previous with
  | Some _ => if Cfg.use_optical_flow config then [optical_flow_applied frame_idx] else []
  | None => []
  end.

Definition is_pipeline_call (e : event) : bool :=
  match e with pipeline_called _ _ => true | _ => false end.

Definition is_progress (e : event) : bool :=
  match e with progress_reported _ _ => true | _ => false end.

(** The reports made to the progress callback, oldest first. *)
Definition progress_reports (made : list event) : list event :=
  filter (fun e => is_progress e = true) made.

(** A computation that only appends calls, none of them a progress report. *)
Definition quiet {A : Type} (m : M A) : Prop :=
  forall s, exists made,
    calls (snd (m s)) = calls s ++ made /\ progress_reports made = [].

(** *** Schedules *)

(** Control points listed by strictly ascending frame. *)
Definition ascending (points : list (Z * float)) : Prop :=
  StronglySorted (fun p q => fst p < fst q) points.

Definition is_refused (part : string) : bool :=
  match read_token part with refused _ => true | _ => false end.

(** *** Keyframes *)

Definition key_le {A : Type} (key : A -> Z) (x y : A) : Prop := key x <= key y.

(** Neither an infinity nor a NaN. *)
Definition finite (x : float) : bool :=
  match Prim2SF x with
  | S754_zero _ | S754_finite _ _ _ => true
  | _ => false
  end.

(** The float [-0.0]. *)
Definition negative_zero (x : float) : bool :=
  match Prim2SF x with
  | S754_zero true => true
  | _ => false
  end.

(** The fields [_get_keyframe_at_frame] passes through [_lerp]. *)
Definition interpolated_fields : list (KF.t -> float) :=
  [KF.strength; KF.zoom; KF.angle;
   KF.translation_x; KF.translation_y; KF.translation_z;
   KF.rotation_3d_x; KF.rotation_3d_y; KF.rotation_3d_z].

(** *** Images *)

(** One value of [a * (1 - alpha) + b * alpha] as it is stored in the image:
    computed in [float32] and cast to [uint8]. *)
Definition mix_value (alpha : float) (a b : Z) : Z :=
  uint8_of_f32 (f32_add (f32_mul (f32_of_uint8 a) (f32_of_float (1 - alpha)))
                        (f32_mul (f32_of_uint8 b) (f32_of_float alpha))).

(** The image of [a * (1 - alpha) + b * alpha] for two images of one shape. *)
Definition mixed (a b : Image.t) (alpha : float) : Image.t :=
  Image.make (Image.height a) (Image.width a)
    (zip_with (mix_value alpha) (Image.data a) (Image.data b)).

Definition same_shape (a b : Image.t) : Prop :=
  Image.height a = Image.height b /\ Image.width a = Image.width b.




(** *** Examples to run the model on *)

Definition example_image (v : Z) : Image.t := Image.make 1 1 [v; v; v].

Definition example_config (total_frames cadence : Z) (keyframes : list loc) : Cfg.t :=
  {| Cfg.total_frames := total_frames; Cfg.steps := 30; Cfg.cfg_scale := 7.0;
     Cfg.animation_mode := "2D"; Cfg.border := "replicate";
     Cfg.color_coherence := "Match Frame 0 RGB"; Cfg.diffusion_cadence := cadence;
     Cfg.temporal_strength := 0.5; Cfg.temporal_layers := 2;
     Cfg.use_animatediff := false; Cfg.use_optical_flow := true;
     Cfg.use_frame_interpolation := true; Cfg.interpolation_factor := 2;
     Cfg.keyframes := keyframes |}.

(** A keyframe at frame 0 with [angle = -0.0] and a perspective flip. *)
Definition tilted_keyframe : KF.t :=
  {| KF.frame := 0; KF.prompt := "dawn"; KF.negative_prompt := "blur";
     KF.strength := 0.75; KF.seed := 42; KF.zoom := 1.0; KF.angle := -0.0;
     KF.translation_x := 0.0; KF.translation_y := 0.0; KF.translation_z := 0.0;
     KF.rotation_3d_x := 0.0; KF.rotation_3d_y := 0.0; KF.rotation_3d_z := 0.0;
     KF.perspective_flip_theta := 10.0; KF.perspective_flip_phi := 0.0;
     KF.perspective_flip_gamma := 0.0;
     KF.noise_schedule := "0:(0.02)"; KF.color_coherence := "Match Frame 0 LAB";
     KF.diffusion_cadence := 1; KF.optical_flow_cadence := "None" |}.

(** A keyframe at frame 10 with a prompt, a negative prompt and a seed of its own. *)
Definition later_keyframe : KF.t :=
  {| KF.frame := 10; KF.prompt := "dusk"; KF.negative_prompt := "noise";
     KF.strength := 0.5; KF.seed := 7; KF.zoom := 2.0; KF.angle := 90.0;
     KF.translation_x := 0.0; KF.translation_y := 0.0; KF.translation_z := 0.0;
     KF.rotation_3d_x := 0.0; KF.rotation_3d_y := 0.0; KF.rotation_3d_z := 0.0;
     KF.perspective_flip_theta := 0.0; KF.perspective_flip_phi := 0.0;
     KF.perspective_flip_gamma := 0.0;
     KF.noise_schedule := "0:(0.02)"; KF.color_coherence := "Match Frame 0 LAB";
     KF.diffusion_cadence := 1; KF.optical_flow_cadence := "None" |}.

(** ** Deforum-style schedules

    [create_deforum_animation_schedule]. The items of [camera_movements]
    are listed in the order of the dict; [prompt_changes] is a dict of
    frame numbers, and [sorted(prompt_changes.items())] lists its items by
    ascending frame. *)

(** The first loop: [parsed_schedules[param] = parse_schedule_string(...)]. *)
Fixpoint parse_schedules (camera_movements : list (string * string)) (total_frames : Z)
    (parsed_schedules : gmap string (list float)) : result (gmap string (list float)) :=
  match camera_movements with
  | [] => Ok parsed_schedules
  | (param, schedule_str) :: rest =>
      values ← parse_schedule_string schedule_str total_frames;
      parse_schedules rest total_frames (<[param := values]> parsed_schedules)
  end.

(** [parsed_schedules.get(param, [fallback] * total_frames)[frame]]. *)
Definition scheduled (parsed_schedules : gmap string (list float)) (param : string)
    (fallback : float) (total_frames frame : Z) : result float :=
  index (match parsed_schedules !! param with
         | Some values => values
         | None => replicate (Z.to_nat total_frames) fallback
         end) frame.

(** The keyframe built for one prompt change. *)
Definition scheduled_keyframe (parsed_schedules : gmap string (list float))
    (total_frames : Z) (change : Z * string) : result KF.t :=
  let frame := fst change in
  zoom ← scheduled parsed_schedules "zoom" 1.0 total_frames frame;
  angle ← scheduled parsed_schedules "angle" 0.0 total_frames frame;
  translation_x ← scheduled parsed_schedules "translation_x" 0.0 total_frames frame;
  translation_y ← scheduled parsed_schedules "translation_y" 0.0 total_frames frame;
  translation_z ← scheduled parsed_schedules "translation_z" 0.0 total_frames frame;
  rotation_3d_x ← scheduled parsed_schedules "rotation_3d_x" 0.0 total_frames frame;
  rotation_3d_y ← scheduled parsed_schedules "rotation_3d_y" 0.0 total_frames frame;
  rotation_3d_z ← scheduled parsed_schedules "rotation_3d_z" 0.0 total_frames frame;
  Ok {| KF.frame := frame; KF.prompt := snd change; KF.negative_prompt := "";
        KF.strength := 0.75; KF.seed := -1; KF.zoom := zoom; KF.angle := angle;
        KF.translation_x := translation_x; KF.translation_y := translation_y;
        KF.translation_z := translation_z;
        KF.rotation_3d_x := rotation_3d_x; KF.rotation_3d_y := rotation_3d_y;
        KF.rotation_3d_z := rotation_3d_z;
        KF.perspective_flip_theta := 0.0; KF.perspective_flip_phi := 0.0;
        KF.perspective_flip_gamma := 0.0;
        KF.noise_schedule := "0:(0.02)"; KF.color_coherence := "Match Frame 0 LAB";
        KF.diffusion_cadence := 1; KF.optical_flow_cadence := "None" |}.

Definition create_deforum_animation_schedule (total_frames : Z)
    (prompt_changes : gmap Z string) (camera_movements : list (string * string))
    : result (list KF.t) :=
  parsed_schedules ← parse_schedules camera_movements total_frames ∅;
  for_each (scheduled_keyframe parsed_schedules total_frames)
           (sorted fst (map_to_list prompt_changes)).

(** The parameters a schedule can drive, each with the keyframe field it
    fills and the value the field takes without a schedule. *)
Definition scheduled_fields : list (string * (KF.t -> float) * float) :=
  [("zoom", KF.zoom, 1.0%float); ("angle", KF.angle, 0.0%float);
   ("translation_x", KF.translation_x, 0.0%float);
   ("translation_y", KF.translation_y, 0.0%float);
   ("translation_z", KF.translation_z, 0.0%float);
   ("rotation_3d_x", KF.rotation_3d_x, 0.0%float);
   ("rotation_3d_y", KF.rotation_3d_y, 0.0%float);
   ("rotation_3d_z", KF.rotation_3d_z, 0.0%float)].

(** The position [xs[i]] reads, for an index that may be negative. *)
Definition position (length i : Z) : Z := if i <? 0 then i + length else i.

(** *** What a computation leaves as it was *)

(** [preserves R m]: the state [m] ends in is related by [R] to the state
    it starts in, whether it returns or raises. *)
Definition preserves {A : Type} (R : animator -> animator -> Prop) (m : M A) : Prop :=
  forall s, R s (snd (m s)).

(** Every object holds what it held; objects may have been constructed. *)
Definition objects_kept (s s' : animator) : Prop := heap s `prefix_of` heap s'.

(** [previous_frames] is what it was. *)
Definition previous_frames_kept (s s' : animator) : Prop :=
  previous_frames s' = previous_frames s.

(** Only calls were made. *)
Definition only_calls_made (s s' : animator) : Prop :=
  heap s' = heap s /\ previous_frames s' = previous_frames s.

(** The frames [previous_frames] holds once [frames] have been generated:
    the latest [temporal_layers] of them. *)
Definition window (temporal_layers : Z) (frames : list Image.t) : list Image.t :=
  drop (length frames - Z.to_nat temporal_layers) frames.

(** The fields of a keyframe that [_get_keyframe_at_frame] does not pass
    to the constructor when it builds one. *)
Definition has_default_settings (kf : KF.t) : Prop :=
  KF.perspective_flip_theta kf = 0.0%float /\
  KF.perspective_flip_phi kf = 0.0%float /\
  KF.perspective_flip_gamma kf = 0.0%float /\
  KF.noise_schedule kf = "0:(0.02)" /\
  KF.color_coherence kf = "Match Frame 0 LAB" /\
  KF.diffusion_cadence kf = 1 /\
  KF.optical_flow_cadence kf = "None".

(** The values a [uint8] array can hold. *)
Definition all_uint8 : list Z := range 256.

(** An image as [Image.fromarray] makes it: [uint8] values, three for each
    of its [height * width] pixels. *)
Definition well_formed (image : Image.t) : Prop :=
  length (Image.data image) = (Image.height image * Image.width image * 3)%nat /\
  Forall (fun v => 0 <= v < 256) (Image.data image).
(** The fields of a keyframe that a warp in mode ["2D"] reads, and those
    that a warp in mode ["3D"] passes on to the projection. *)
Definition fields_of_2D : list (KF.t -> float) :=
  [KF.angle; KF.zoom; KF.translation_x; KF.translation_y].

Definition fields_of_3D : list (KF.t -> float) :=
  [KF.translation_x; KF.translation_y; KF.translation_z;
   KF.rotation_3d_x; KF.rotation_3d_y; KF.rotation_3d_z].

Definition agree (fields : list (KF.t -> float)) (kf kf' : KF.t) : Prop :=
  Forall (fun field => field kf = field kf') fields.


(** ** The slideshow engine of [animation_engine.py]

    [AnimationEngine.generate_frames], which [process_animation] runs to
    its end. The frames are OpenCV arrays: [cv2.addWeighted] and numpy's
    [sin] are collaborators. The generator is modelled by the frames it
    has appended to [self.frames] and the progress values it has yielded,
    in order, when it is exhausted. *)

Module AnimationEngine.

Inductive failure : Type :=
| raised (e : exn)
| no_images_loaded                 (* ValueError("No images loaded") *)
| cannot_convert_float_NaN         (* ValueError, of int(nan) *)
| cannot_convert_float_infinity    (* OverflowError, of int(inf) *)
| int_too_large_for_float.         (* OverflowError, of duration * fps *)

Inductive outcome (A : Type) : Type :=
| Done (a : A)
| Failed (why : failure).

Arguments Done {A} a.
Arguments Failed {A} why.

#[global] Instance outcome_ret : MRet outcome := fun A a => Done a.
#[global] Instance outcome_bind : MBind outcome :=
  fun A B f m => match m with Done a => f a | Failed why => Failed why end.

Definition of_result {A : Type} (r : result A) : outcome A :=
  match r with Ok a => Done a | Raise e => Failed (raised e) end.

Class Arrays (image : Type) : Type := {
  (** [cv2.addWeighted(img1, alpha, img2, beta, 0)], for two arrays it
      accepts: the images of an engine have one size and type *)
  addWeighted : image -> float -> image -> float -> image;
  np_sin : float -> float
}.

(** The fields of the configuration that [generate_frames] reads. *)
Record config : Type := {
  duration : option float;
  fps : Z;
  interpolation : string
}.

(** [float(n)] for an [int]: the nearest float, or [OverflowError]. *)
Definition float_of_int (n : Z) : outcome float :=
  if 2 ^ 1024 - 2 ^ 970 <=? Z.abs n then Failed int_too_large_for_float
  else Done (SF2Prim (binary_normalize prec64 emax64 n 0 false)).

(** [int(x)] for a [float]: the fraction is dropped. *)
Definition int_of_float (x : float) : outcome Z :=
  match Prim2SF x with
  | S754_nan => Failed cannot_convert_float_NaN
  | S754_infinity _ => Failed cannot_convert_float_infinity
  | S754_zero _ => Done 0
  | S754_finite s m e =>
      Done (cond_Zopp s (if 0 <=? e then Z.pos m * 2 ^ e else Z.pos m / 2 ^ (- e)))
  end.

(** [self.config.duration or 10.0]: [None] and zero are replaced. *)
Definition duration_or_default (d : option float) : float :=
  match d with
  | Some x => match Prim2SF x with S754_zero _ => 10.0%float | _ => x end
  | None => 10.0%float
  end.

(** [int(duration * fps)]. *)
Definition total_frames_of (c : config) : outcome Z :=
  rate ← float_of_int (fps c);
  int_of_float (duration_or_default (duration c) * rate)%float.

Definition np_pi : float := 3.141592653589793%float.

Definition _ease_in_out (t : float) : float := (t * t * (3.0 - 2.0 * t))%float.

Definition _bounce `{Arrays image} (t : float) : float := PrimFloat.abs (np_sin (t * np_pi)%float).

(** The interpolation curve of a configuration. *)
Definition curve `{Arrays image} (c : config) (alpha : float) : float :=
  if String.eqb (interpolation c) "ease-in-out" then _ease_in_out alpha
  else if String.eqb (interpolation c) "bounce" then _bounce alpha
  else alpha.

(** A [for] loop over a state, stopping at the first failure. *)
Fixpoint for_loop {S : Type} (body : Z -> S -> outcome S) (indices : list Z) (st : S)
    : outcome S :=
  match indices with
  | [] => Done st
  | i :: rest => st' ← body i st; for_loop body rest st'
  end.

Section Engine.
Context {image : Type} `{Arrays image}.

(** [self.frames] and the values yielded so far. *)
Definition state : Type := (list image * list float)%type.

(** The body of the loop over one image held still. *)
Definition hold (base_img : image) (total_frames : Z) (frame_idx : Z) (st : state)
    : outcome state :=
  let frames := fst st ++ [base_img] in
  if (frame_idx mod 10) =? 0
  then progress ← of_result (truediv frame_idx total_frames);
       Done (frames, snd st ++ [progress])
  else Done (frames, snd st).

(** The body of the loop over one transition. *)
Definition blend (c : config) (img1 img2 : image) (total_frames frames_per_transition : Z)
    (t_idx : Z) (st : state) : outcome state :=
  alpha ← of_result (truediv t_idx frames_per_transition);
  let alpha := curve c alpha in
  let frame := addWeighted img1 (1 - alpha)%float img2 alpha in
  let frames := fst st ++ [frame] in
  if (Z.of_nat (length frames) mod 10) =? 0
  then progress ← of_result (truediv (Z.of_nat (length frames)) total_frames);
       Done (frames, snd st ++ [progress])
  else Done (frames, snd st).

Definition transition (c : config) (images : list image)
    (total_frames frames_per_transition : Z) (img_idx : Z) (st : state) : outcome state :=
  img1 ← of_result (index images img_idx);
  img2 ← of_result (index images (img_idx + 1));
  for_loop (blend c img1 img2 total_frames frames_per_transition)
           (range frames_per_transition) st.

(** [while len(self.frames) < total_frames: self.frames.append(last)]. *)
Definition pad (frames : list image) (total_frames : Z) (final : image) : list image :=
  frames ++ replicate (Z.to_nat (total_frames - Z.of_nat (length frames))) final.

Definition generate_frames (c : config) (images : list image) (frames : list image)
    : outcome state :=
  total_frames ← total_frames_of c;
  let num_images := Z.of_nat (length images) in
  '(frames, yielded) ←
    (if num_images =? 0 then Failed no_images_loaded
     else if num_images =? 1
     then
       base_img ← of_result (index images 0);
       for_loop (hold base_img total_frames) (range total_frames) (frames, [])
     else
       let frames_per_transition := total_frames / (num_images - 1) in
       '(frames, yielded) ←
         for_loop (transition c images total_frames frames_per_transition)
                  (range (num_images - 1)) (frames, []);
       if Z.of_nat (length frames) <? total_frames
       then final ← of_result (index images (-1));
            Done (pad frames total_frames final, yielded)
       else Done (frames, yielded));
  Done (frames, yielded ++ [1.0%float]).

(** The frame blended at step [t_idx] of a transition. *)
Definition blended (c : config) (img1 img2 : image) (frames_per_transition t_idx : Z)
    : image :=
  match truediv t_idx frames_per_transition with
  | Ok alpha => addWeighted img1 (1 - curve c alpha)%float img2 (curve c alpha)
  | Raise _ => img1
  end.

(** The frames of the transition that starts at image [img_idx]. *)
Definition chunk (c : config) (images : list image) (frames_per_transition img_idx : Z)
    : list image :=
  match index images img_idx, index images (img_idx + 1) with
  | Ok img1, Ok img2 => map (blended c img1 img2 frames_per_transition)
                            (range frames_per_transition)
  | _, _ => []
  end.
End Engine.

End AnimationEngine.

Module Engine := AnimationEngine.

(** Arrays of one value, to run the engine on examples: [addWeighted] is
    the weighted sum and the sine is left out. *)
Definition one_value_arrays : Engine.Arrays float :=
  {| Engine.addWeighted := fun img1 alpha img2 beta => (img1 * alpha + img2 * beta)%float;
     Engine.np_sin := fun x => x |}.

(** ** The model library of [model_manager.py]

    [ModelManager.models_db] is a dict from checkpoint ids to
    [ModelCheckpoint] objects; it is listed in the order of insertion.
    The directories are those of a manager made for [models_dir]. *)

Module ModelCheckpoint.
(** The fields that the functions below read. *)
Record t : Type := make {
  id : string;
  name : string;
  type : string;
  path : string;
  is_downloaded : bool
}.
End ModelCheckpoint.

Module ModelManager.

(** [str.lower()] on code points below 256. *)
Definition lower_char (c : ascii) : ascii :=
  let n := code c in
  if ((65 <=? n) && (n <=? 90)) || ((192 <=? n) && (n <=? 214)) || ((216 <=? n) && (n <=? 222))
  then ascii_of_N (Z.to_N (n + 32)) else c.

Fixpoint str_lower (s : string) : string :=
  match s with
  | EmptyString => EmptyString
  | String c s' => String (lower_char c) (str_lower s')
  end.

(** [needle in s]. *)
Fixpoint occurs (needle s : string) : bool :=
  String.prefix needle s ||
  match s with
  | EmptyString => false
  | String _ s' => occurs needle s'
  end.

(** [_infer_base_model]. *)
Definition _infer_base_model (repo_id filename : string) : string :=
  let combined := str_lower (repo_id ++ filename) in
  if occurs "sdxl" combined || occurs "xl" combined then "SDXL"
  else if occurs "sd2" combined || occurs "v2" combined then "SD2.1"
  else if occurs "sd3" combined then "SD3"
  else "SD1.5".

(** [d.get(key, fallback)] for a dict written as a literal. *)
Fixpoint get {A : Type} (d : list (string * A)) (key : string) (fallback : A) : A :=
  match d with
  | [] => fallback
  | (k, v) :: rest => if String.eqb k key then v else get rest key fallback
  end.

(** [_determine_model_type]. *)
Definition _determine_model_type (civitai_type : string) : string :=
  get [("Checkpoint", "stable-diffusion"); ("LORA", "lora"); ("LoCon", "lora");
       ("Hypernetwork", "hypernetwork"); ("TextualInversion", "embedding");
       ("Controlnet", "controlnet"); ("VAE", "vae"); ("Poses", "controlnet");
       ("Wildcards", "wildcards"); ("Workflows", "workflow"); ("Other", "other")]
      civitai_type "stable-diffusion".

(** The directories of a manager. *)
Inductive directory : Type :=
| checkpoints_dir | loras_dir | controlnet_dir | vae_dir | animatediff_dir.

(** [_get_model_dir]. *)
Definition _get_model_dir (model_type : string) : directory :=
  get [("stable-diffusion", checkpoints_dir); ("lora", loras_dir);
       ("controlnet", controlnet_dir); ("vae", vae_dir);
       ("animatediff", animatediff_dir)]
      model_type checkpoints_dir.

(** [models_db]: the items of the dict, in the order of insertion. *)
Definition models_db : Type := list (string * ModelCheckpoint.t).

(** [get_model]. *)
Definition get_model (db : models_db) (checkpoint_id : string) : option ModelCheckpoint.t :=
  snd <$> List.find (fun item => String.eqb (fst item) checkpoint_id) db.

(** [if model_type: models = [m for m in models if m.type == model_type]]:
    [None] and the empty string filter nothing. *)
Definition of_type (model_type : option string) (models : list ModelCheckpoint.t)
    : list ModelCheckpoint.t :=
  match model_type with
  | None | Some EmptyString => models
  | Some wanted => List.filter (fun m => String.eqb (ModelCheckpoint.type m) wanted) models
  end.

(** [get_available_models]. *)
Definition get_available_models (db : models_db) (model_type : option string)
    : list ModelCheckpoint.t :=
  of_type model_type (map snd db).

(** [get_downloaded_models]. *)
Definition get_downloaded_models (db : models_db) (model_type : option string)
    : list ModelCheckpoint.t :=
  of_type model_type (List.filter ModelCheckpoint.is_downloaded (map snd db)).

End ModelManager.

(** ** Loading the pipeline

    [GenerativeAnimator.load_pipeline] and [_get_scheduler]. The classes
    of [diffusers] are collaborators: a call into them answers with a
    value or with an exception of its own. [self.pipeline] is an object
    that the calls modify in place; the model passes its state along. *)

Module Loading.

Inductive error : Type :=
| ImportError                  (* Please install diffusers *)
| ValueError_not_found (model_checkpoint : string)
                               (* Model ... not found or not downloaded *)
| AttributeError_from_config   (* a function object has no attribute from_config *)
| external (tag : Z).          (* raised inside diffusers *)

Inductive outcome (A : Type) : Type :=
| Loaded (a : A)
| Failed (e : error).

Arguments Loaded {A} a.
Arguments Failed {A} e.

Inductive pipeline_class : Type :=
| AnimateDiffPipeline
| StableDiffusionImg2ImgPipeline.

(** A value of the dict [schedulers]: a scheduler class, or the function
    written with [lambda] under the name of the Karras sampler. *)
Inductive scheduler_entry : Type :=
| scheduler_class (class_name : string)
| karras_lambda.

(** The fields of the configuration that [load_pipeline] reads. *)
Record settings : Type := {
  model_checkpoint : string;
  lora_models : list string;
  controlnet_models : list string;
  use_animatediff : bool;
  sampler : string
}.

Class Diffusers : Type := {
  pipeline : Type;
  controlnet : Type;
  scheduler : Type;
  (** whether the imports of [load_pipeline] from [diffusers] succeed, and
      those of [_get_scheduler] *)
  importable : bool;
  schedulers_importable : bool;
  (** [cls.from_pretrained(path, torch_dtype=torch.float16).to(device)] *)
  from_pretrained : pipeline_class -> string -> outcome pipeline;
  (** [pipeline.load_lora_weights(path)]: how the call ends, and the
      pipeline as it leaves it *)
  load_lora_weights : pipeline -> string -> outcome unit * pipeline;
  (** [ControlNetModel.from_pretrained(path, torch_dtype=torch.float16)] *)
  controlnet_from_pretrained : string -> outcome controlnet;
  (** the ControlNet img2img pipeline, imported and made of the components
      of a pipeline and a list of ControlNet models, moved to the device *)
  with_controlnet : pipeline -> list controlnet -> outcome pipeline;
  (** [cls.from_config(pipeline.scheduler.config)] for the class of a name *)
  from_config : string -> pipeline -> outcome scheduler;
  (** [pipeline.scheduler = scheduler] *)
  set_scheduler : pipeline -> scheduler -> pipeline;
  (** [pipeline.enable_attention_slicing()] *)
  enable_attention_slicing : pipeline -> outcome unit * pipeline;
  (** the guarded [enable_xformers_memory_efficient_attention()], whose
      failure is passed over *)
  enable_xformers : pipeline -> pipeline
}.

Section Loading.
Context `{Diffusers}.

(** The animator's [self.pipeline] and [self.current_config]. *)
Record animator : Type := mk_animator {
  self_pipeline : option pipeline;
  current_config : option settings
}.

Definition schedulers : list (string * scheduler_entry) :=
  [("DDIM", scheduler_class "DDIMScheduler");
   ("Euler a", scheduler_class "EulerAncestralDiscreteScheduler");
   ("DPM++ 2M Karras", karras_lambda);
   ("LMS", scheduler_class "LMSDiscreteScheduler");
   ("PNDM", scheduler_class "PNDMScheduler")].

(** [_get_scheduler], for the pipeline [self.pipeline] holds. *)
Definition _get_scheduler (sampler_name : string) (p : pipeline) : outcome scheduler :=
  if schedulers_importable
  then
    match ModelManager.get schedulers sampler_name
            (scheduler_class "DPMSolverMultistepScheduler") with
    | scheduler_class class_name => from_config class_name p
    | karras_lambda => Failed AttributeError_from_config
    end
  else Failed ImportError.

(** [model and model.is_downloaded]. *)
Definition available (db : ModelManager.models_db) (checkpoint_id : string)
    : option ModelCheckpoint.t :=
  match ModelManager.get_model db checkpoint_id with
  | Some checkpoint =>
      if ModelCheckpoint.is_downloaded checkpoint then Some checkpoint else None
  | None => None
  end.

(** The loop over [config.lora_models]: how it ends, and the pipeline as
    the calls have left it. *)
Fixpoint load_loras (db : ModelManager.models_db) (lora_ids : list string) (p : pipeline)
    : outcome unit * pipeline :=
  match lora_ids with
  | [] => (Loaded tt, p)
  | lora_id :: rest =>
      match available db lora_id with
      | Some lora =>
          match load_lora_weights p (ModelCheckpoint.path lora) with
          | (Loaded _, p') => load_loras db rest p'
          | (Failed e, p') => (Failed e, p')
          end
      | None => load_loras db rest p
      end
  end.

(** The loop over [config.controlnet_models]. *)
Fixpoint load_controlnets (db : ModelManager.models_db) (cn_ids : list string)
    (loaded : list controlnet) : outcome (list controlnet) :=
  match cn_ids with
  | [] => Loaded loaded
  | cn_id :: rest =>
      match available db cn_id with
      | Some cn =>
          match controlnet_from_pretrained (ModelCheckpoint.path cn) with
          | Loaded model => load_controlnets db rest (loaded ++ [model])
          | Failed e => Failed e
          end
      | None => load_controlnets db rest loaded
      end
  end.

(** [if config.controlnet_models: ...]: the pipeline [self.pipeline] holds
    afterwards. *)
Definition add_controlnets (db : ModelManager.models_db) (cn_ids : list string)
    (p : pipeline) : outcome pipeline :=
  match cn_ids with
  | [] => Loaded p
  | _ =>
      match load_controlnets db cn_ids [] with
      | Failed e => Failed e
      | Loaded [] => Loaded p
      | Loaded models => with_controlnet p models
      end
  end.

(** [load_pipeline]: what it raises or returns, and the animator it leaves. *)
Definition load_pipeline (db : ModelManager.models_db) (config : settings) (self : animator)
    : outcome unit * animator :=
  let holding p := mk_animator (Some p) (current_config self) in
  if negb importable then (Failed ImportError, self)
  else
    match available db (model_checkpoint config) with
    | None => (Failed (ValueError_not_found (model_checkpoint config)), self)
    | Some checkpoint =>
        match from_pretrained
                (if use_animatediff config then AnimateDiffPipeline
                 else StableDiffusionImg2ImgPipeline)
                (ModelCheckpoint.path checkpoint) with
        | Failed e => (Failed e, self)
        | Loaded p =>
            match load_loras db (lora_models config) p with
            | (Failed e, p) => (Failed e, holding p)
            | (Loaded _, p) =>
                match add_controlnets db (controlnet_models config) p with
                | Failed e => (Failed e, holding p)
                | Loaded p =>
                    match _get_scheduler (sampler config) p with
                    | Failed e => (Failed e, holding p)
                    | Loaded chosen =>
                        match enable_attention_slicing (set_scheduler p chosen) with
                        | (Failed e, p) => (Failed e, holding p)
                        | (Loaded _, p) =>
                            (Loaded tt, mk_animator (Some (enable_xformers p)) (Some config))
                        end
                    end
                end
            end
        end
    end.
End Loading.

End Loading.

(** The ids of a list that name a downloaded model of the library. *)
Definition available_ids `{Loading.Diffusers} (db : ModelManager.models_db)
    (ids : list string) : list string :=
  List.filter (fun checkpoint_id => bool_decide (is_Some (Loading.available db checkpoint_id)))
              ids.

(** A library and a set of collaborators to run the loading on: every
    call into diffusers returns, a pipeline being the list of what was
    loaded into it. *)
Definition example_library : ModelManager.models_db :=
  [("base", ModelCheckpoint.make "base" "Base" "stable-diffusion" "models/checkpoints/base" true);
   ("style", ModelCheckpoint.make "style" "Style" "lora" "models/loras/style" true);
   ("later", ModelCheckpoint.make "later" "Later" "lora" "models/loras/later" false)].

Definition recording_diffusers : Loading.Diffusers :=
  {| Loading.pipeline := list string;
     Loading.controlnet := string;
     Loading.scheduler := string;
     Loading.importable := true;
     Loading.schedulers_importable := true;
     Loading.from_pretrained := fun _ path => Loading.Loaded [path];
     Loading.load_lora_weights := fun p path => (Loading.Loaded tt, p ++ [path]);
     Loading.controlnet_from_pretrained := fun path => Loading.Loaded path;
     Loading.with_controlnet := fun p models => Loading.Loaded (p ++ models);
     Loading.from_config := fun class_name _ => Loading.Loaded class_name;
     Loading.set_scheduler := fun p chosen => p ++ [chosen];
     Loading.enable_attention_slicing := fun p => (Loading.Loaded tt, p);
     Loading.enable_xformers := fun p => p |}.

(** * The model on examples *)

Example truediv_examples :
  truediv 5 10 = Ok 0.5%float /\
  truediv 1 3 = Ok (1 / 3)%float /\
  truediv 7 10 = Ok 0.7%float /\
  truediv (-7) 3 = Ok (-7 / 3)%float /\
  truediv 0 (-5) = Ok (-0.0)%float /\
  truediv 1 0 = Raise ZeroDivisionError /\
  truediv (2 ^ 1024) 1 = Raise OverflowError.
Proof. repeat split; vm_compute; reflexivity. Qed.

Example python_int_examples :
  python_int "12" = Some 12 /\
  python_int " -1_2 " = Some (-12) /\
  python_int "007" = Some 7 /\
  python_int "1__2" = None /\
  python_int "1.0" = None /\
  python_int "" = None.
Proof. repeat split; vm_compute; reflexivity. Qed.

Example python_float_examples :
  python_float "1.0" = Some 1.0%float /\
  python_float "0.1" = Some 0.1%float /\
  python_float "-.5" = Some (-0.5)%float /\
  python_float "1." = Some 1.0%float /\
  python_float "1e-5" = Some 1e-5%float /\
  python_float " 2.5E+3 " = Some 2500.0%float /\
  python_float "0.30000000000000004" = Some 0.30000000000000004%float /\
  python_float "9007199254740993" = Some 9007199254740992.0%float /\
  python_float "4.9e-324" = Some 4.9406564584124654e-324%float /\
  python_float "-Infinity" = Some neg_infinity /\
  python_float "nan" = Some nan /\
  python_float "." = None /\
  python_float "1._5" = None /\
  python_float "abc" = None.
Proof. repeat split; vm_compute; reflexivity. Qed.

(** The separator U+001C is whitespace for [str.strip] and not for the
    parser of an ASCII literal; a no-break space makes the string one that
    is not ASCII, of which every whitespace character is skipped. *)
Example literal_whitespace_examples :
  let fs := ascii_of_nat 28 in
  let nbsp := ascii_of_nat 160 in
  strip (String fs "1.0") = "1.0" /\
  python_float (String fs "1.0") = None /\
  python_int (String fs "7") = None /\
  python_float (String nbsp "1.0") = Some 1.0%float /\
  python_float (String fs (String nbsp "1.0")) = Some 1.0%float /\
  python_int (String nbsp "7") = Some 7.
Proof. repeat split; vm_compute; reflexivity. Qed.

Example strings_examples :
  split "," "a,b,,c" = ["a"; "b"; ""; "c"] /\
  split ":" "" = [""] /\
  strip "  a b  " = "a b" /\
  strip_chars "() " " (1.0) " = "1.0" /\
  contains ":" "0:(1)" = true.
Proof. repeat split; vm_compute; reflexivity. Qed.

Example parse_schedule_string_examples :
  parse_schedule_string " 0:(1.0) , 2:(2.0) " 4 = Ok [1.0; 1.5; 2.0; 2.0]%float /\
  parse_schedule_string "0:(1.0),1:2:3" 2 = Raise (ValueError too_many_values_to_unpack) /\
  parse_schedule_string "1:(abc)" 2
    = Raise (ValueError (could_not_convert_string_to_float "abc")) /\
  parse_schedule_string "garbage" 2 = Raise IndexError /\
  parse_schedule_string "garbage" 0 = Ok [].
Proof. repeat split; vm_compute; reflexivity. Qed.

(** Between the values 1 and 2 the midpoint 1.5 is stored as 1; a third of
    the way from 0 to 255 is stored as 85. *)
Example mix_value_examples :
  mix_value 0.5 1 2 = 1 /\
  mix_value 0.5 255 255 = 255 /\
  (forall alpha, truediv 1 3 = Ok alpha -> mix_value alpha 0 255 = 85).
Proof.
  repeat split; try (vm_compute; reflexivity).
  intros alpha [= <-]. vm_compute. reflexivity.
Qed.

Example sorted_examples :
  sorted fst [(3, "c"); (1, "a"); (3, "d"); (2, "b")]
    = [(1, "a"); (2, "b"); (3, "c"); (3, "d")].
Proof. reflexivity. Qed.

(** * Properties *)

(** ** Lists, loops and indexing *)

Lemma index_nonneg {A : Type} (xs : list A) (i : nat) (x : A) :
  xs !! i = Some x -> index xs (Z.of_nat i) = Ok x.
Proof.
  intros Hx. unfold index.
  pose proof (lookup_lt_Some _ _ _ Hx) as Hlt.
  destruct (Z.of_nat i <? 0) eqn:Hneg; [lia|].
  replace ((0 <=? Z.of_nat i) && (Z.of_nat i <? Z.of_nat (length xs))) with true
    by (symmetry; apply andb_true_iff; split; [apply Z.leb_le | apply Z.ltb_lt]; lia).
  rewrite Nat2Z.id, Hx. reflexivity.
Qed.

Lemma index_last {A : Type} (xs : list A) (x : A) :
  last xs = Some x -> index xs (-1) = Ok x.
Proof.
  intros Hx. unfold index.
  assert (Hlen : (0 < length xs)%nat).
  { destruct xs; [discriminate | simpl; lia]. }
  change (-1 <? 0) with true. cbv iota.
  replace ((0 <=? -1 + Z.of_nat (length xs))
           && (-1 + Z.of_nat (length xs) <? Z.of_nat (length xs)))
    with true
    by (symmetry; apply andb_true_iff; split; [apply Z.leb_le | apply Z.ltb_lt]; lia).
  replace (Z.to_nat (-1 + Z.of_nat (length xs))) with (pred (length xs)) by lia.
  rewrite last_lookup in Hx. rewrite Hx. reflexivity.
Qed.

Lemma range_lookup (n : Z) (i : nat) :
  Z.of_nat i < n -> range n !! i = Some (Z.of_nat i).
Proof.
  intros Hi. unfold range. rewrite list_lookup_fmap.
  rewrite lookup_seq_lt by lia. reflexivity.
Qed.

Lemma range_length (n : Z) : length (range n) = Z.to_nat n.
Proof. unfold range. rewrite length_map, length_seq. reflexivity. Qed.

Lemma range_elem (n j : Z) : j ∈ range n -> 0 <= j < n.
Proof.
  unfold range. rewrite list_elem_of_fmap. intros (k & -> & Hk).
  apply elem_of_seq in Hk. lia.
Qed.

Lemma range_positive (n : Z) : 0 < n -> exists rest, range n = 0 :: rest.
Proof.
  intros Hn. unfold range. destruct (Z.to_nat n) as [|m] eqn:Hm; [lia|].
  simpl. eexists. reflexivity.
Qed.

Lemma range_from_lookup (a b : Z) (i : nat) :
  a + Z.of_nat i < b -> range_from a b !! i = Some (a + Z.of_nat i).
Proof.
  intros Hi. unfold range_from. rewrite list_lookup_fmap, range_lookup by lia. reflexivity.
Qed.

Lemma range_from_length (a b : Z) : length (range_from a b) = Z.to_nat (b - a).
Proof. unfold range_from. rewrite length_map. apply range_length. Qed.

Lemma range_from_elem (a b j : Z) : j ∈ range_from a b -> a <= j < b.
Proof.
  unfold range_from. rewrite list_elem_of_fmap. intros (d & -> & Hd%range_elem). lia.
Qed.

Lemma for_each_lookup {A B : Type} (f : A -> result B) (xs : list A) (ys : list B)
    (i : nat) (x : A) :
  for_each f xs = Ok ys -> xs !! i = Some x ->
  exists y, ys !! i = Some y /\ f x = Ok y.
Proof.
  revert ys i. induction xs as [|x0 xs IH]; intros ys i Hrun Hx; [discriminate|].
  simpl in Hrun. destruct (f x0) as [y0|] eqn:Hy0; [|discriminate].
  destruct (for_each f xs) as [ys'|] eqn:Hrest; [|discriminate].
  injection Hrun as <-. destruct i as [|i].
  - injection Hx as <-. exists y0. split; [reflexivity | exact Hy0].
  - apply (IH ys' i eq_refl Hx).
Qed.

Lemma for_each_length {A B : Type} (f : A -> result B) (xs : list A) (ys : list B) :
  for_each f xs = Ok ys -> length ys = length xs.
Proof.
  revert ys. induction xs as [|x0 xs IH]; intros ys Hrun; simpl in Hrun.
  - injection Hrun as <-. reflexivity.
  - destruct (f x0); [|discriminate]. destruct (for_each f xs); [|discriminate].
    injection Hrun as <-. simpl. f_equal. apply IH. reflexivity.
Qed.

Lemma for_each_succeeds {A B : Type} (f : A -> result B) (xs : list A) :
  Forall (fun x => exists y, f x = Ok y) xs -> exists ys, for_each f xs = Ok ys.
Proof.
  induction 1 as [|x xs [y Hy] _ [ys Hys]]; simpl.
  - exists []. reflexivity.
  - rewrite Hy, Hys. exists (y :: ys). reflexivity.
Qed.

Lemma filter_none {A : Type} (P : A -> Prop) `{forall x, Decision (P x)} (l : list A) :
  (forall x, x ∈ l -> ~ P x) -> filter P l = [].
Proof.
  induction l as [|x l IH]; intros Hnone; [reflexivity|].
  rewrite filter_cons, decide_False by (apply Hnone; left).
  apply IH. intros y Hy. apply Hnone. right. exact Hy.
Qed.

Lemma filter_some {A : Type} (P : A -> Prop) `{forall x, Decision (P x)} (l : list A) (x : A) :
  x ∈ l -> P x -> filter P l <> [].
Proof.
  intros Hx HP Hnil.
  assert (Hmem : x ∈ filter P l) by (apply list_elem_of_filter; split; assumption).
  rewrite Hnil in Hmem. apply elem_of_nil in Hmem. exact Hmem.
Qed.

(** Chunks of one length, flattened. *)
Lemma concat_uniform_length {A : Type} (k : nat) (chunks : list (list A)) :
  Forall (fun c => length c = k) chunks -> length (concat chunks) = (length chunks * k)%nat.
Proof.
  induction 1 as [|c chunks Hc _ IH]; simpl; [reflexivity|].
  rewrite length_app, Hc, IH. reflexivity.
Qed.

Lemma concat_uniform_lookup {A : Type} (k : nat) (chunks : list (list A)) (i j : nat)
    (c : list A) (x : A) :
  Forall (fun c => length c = k) chunks ->
  chunks !! i = Some c -> c !! j = Some x ->
  concat chunks !! (i * k + j)%nat = Some x.
Proof.
  intros Hall. revert i. induction Hall as [|c0 chunks Hc0 _ IH]; intros i Hc Hx;
    [discriminate|].
  simpl. destruct i as [|i].
  - injection Hc as ->. simpl. rewrite lookup_app_l by (eapply lookup_lt_Some; exact Hx).
    exact Hx.
  - simpl in Hc. rewrite lookup_app_r by lia.
    replace (S i * k + j - length c0)%nat with (i * k + j)%nat by lia.
    apply IH; assumption.
Qed.

(** ** Division of integers *)

Lemma truediv_zero (b : Z) : 0 < b -> truediv 0 b = Ok 0%float.
Proof.
  intros Hb. unfold truediv. destruct b as [|q|q]; try lia.
  replace ((2 ^ 1024 - 2 ^ 970) * Z.abs (Z.pos q) <=? Z.abs 0) with false
    by (symmetry; apply Z.leb_gt; simpl Z.abs; lia).
  reflexivity.
Qed.

Lemma truediv_fraction (a b : Z) :
  0 <= a < b -> exists t, truediv a b = Ok t.
Proof.
  intros Hab. unfold truediv. destruct b as [|q|q]; try lia.
  replace ((2 ^ 1024 - 2 ^ 970) * Z.abs (Z.pos q) <=? Z.abs a) with false
    by (symmetry; apply Z.leb_gt; rewrite Z.abs_eq by lia; simpl Z.abs; lia).
  destruct (Z.abs a); eexists; reflexivity.
Qed.

(** ** The per-frame step *)

Section Step.
Context `{Collaborators}.

(** [_generate_frame] up to the test of the cadence: the keyframe is read
    and the frame is warped and, with optical flow enabled and a previous
    frame at hand, aligned to it. What the warp or the alignment raises
    ends the step there. *)
Lemma generate_frame_warps (prev_image : Image.t) (frame_idx : Z) (keyframe : loc)
    (config : Cfg.t) (s : animator) (kf : KF.t) :
  heap s !! keyframe = Some kf ->
  let previous := previous_frames s in
  let s1 := mk_animator (heap s) previous (calls s ++ warp_calls frame_idx config previous) in
  _generate_frame prev_image frame_idx keyframe config s =
  match warp prev_image kf config with
  | Raise e =>
      (Raise e, mk_animator (heap s) previous (calls s ++ [transforms_applied frame_idx]))
  | Ok _ =>
      match warped_frame prev_image kf config previous with
      | Raise e => (Raise e, s1)
      | Ok warped =>
          match pymod frame_idx (Cfg.diffusion_cadence config) with
          | Raise e => (Raise e, s1)
          | Ok remainder =>
              if remainder =? 0
              then diffusion frame_idx warped kf config previous s1
              else (Ok warped, s1)
          end
      end
  end.
Proof.
  intros Hkf previous s1. subst previous s1.
  unfold _generate_frame, warped_frame, warp_calls, warp.
  unfold mbind at 1. unfold M_bind at 1. unfold deref at 1. rewrite Hkf.
  unfold mbind at 1. unfold M_bind at 1. unfold record at 1. cbv iota beta.
  unfold mbind at 1. unfold M_bind at 1. unfold lift at 1.
  destruct (Transforms.as_result _) as [warped0|e]; [|reflexivity].
  cbv iota beta.
  unfold mbind at 1. unfold M_bind at 1. unfold get_previous_frames at 1. cbv iota beta.
  simpl previous_frames. simpl heap. simpl calls.
  change (Ok warped0 ≫= ?f) with (f warped0). cbv beta.
  destruct (last (previous_frames s)) as [latest|] eqn:Hlast.
  - assert (Hlen : (0 <? Z.of_nat (length (previous_frames s))) = true).
    { apply Z.ltb_lt. destruct (previous_frames s); [discriminate | simpl; lia]. }
    rewrite Hlen at 1. rewrite andb_true_r.
    destruct (Cfg.use_optical_flow config).
    + unfold mbind at 1. unfold M_bind at 1.
      unfold mbind at 1. unfold M_bind at 1. unfold lift at 1.
      rewrite (index_last _ _ Hlast).
      unfold mbind at 1. unfold M_bind at 1. unfold record at 1. cbv iota beta.
      unfold lift at 1. simpl heap. simpl previous_frames.
      simpl calls. rewrite <- app_assoc. simpl app.
      destruct (_apply_optical_flow warped0 latest) as [warped|e]; [|reflexivity].
      unfold mbind at 1. unfold M_bind at 1. unfold lift at 1.
      destruct (pymod frame_idx (Cfg.diffusion_cadence config)) as [remainder|e];
        [destruct (remainder =? 0)|]; unfold diffusion;
        rewrite ?(index_last _ _ Hlast); reflexivity.
    + unfold mbind at 1. unfold M_bind at 1. unfold mret at 1. unfold M_ret at 1.
      cbv iota beta.
      unfold mbind at 1. unfold M_bind at 1. unfold lift at 1.
      destruct (pymod frame_idx (Cfg.diffusion_cadence config)) as [remainder|e];
        [destruct (remainder =? 0)|]; unfold diffusion; simpl length;
      change (0 <? Z.of_nat 0) with false; rewrite ?andb_false_r; reflexivity.
  - apply last_None in Hlast. rewrite Hlast. simpl length. change (0 <? Z.of_nat 0) with false.
    rewrite !andb_false_r.
    unfold mbind at 1. unfold M_bind at 1. unfold mret at 1. unfold M_ret at 1.
    cbv iota beta.
    unfold mbind at 1. unfold M_bind at 1. unfold lift at 1.
    destruct (pymod frame_idx (Cfg.diffusion_cadence config)) as [remainder|e];
      [destruct (remainder =? 0)|]; unfold diffusion; simpl length;
      change (0 <? Z.of_nat 0) with false; rewrite ?andb_false_r; reflexivity.
Qed.

(** When the warp raises so does the warped frame. *)
Lemma warped_frame_raises (prev_image : Image.t) (kf : KF.t) (config : Cfg.t)
    (previous : list Image.t) (e : exn) :
  warp prev_image kf config = Raise e ->
  warped_frame prev_image kf config previous = Raise e.
Proof. intros Hwarp. unfold warped_frame. rewrite Hwarp. reflexivity. Qed.



End Step.


(** ** What the scan finds *)

Section Scan.
Context {A : Type} (key : A -> Z) (frame_idx : Z).

Lemma find_surrounding_before (l : list A) (before after : option A) :
  fst (find_surrounding key frame_idx l before after) =
  match last (filter (fun kf => key kf <= frame_idx) l) with
  | Some kf => Some kf
  | None => before
  end.
Proof.
  revert before after. induction l as [|kf l IH]; intros before after; [reflexivity|].
  simpl. rewrite IH, filter_cons.
  destruct (decide (key kf <= frame_idx)) as [Hle|Hle].
  - apply Z.leb_le in Hle as ->. rewrite last_cons.
    destruct (last (filter _ l)); reflexivity.
  - apply Z.nle_gt, Z.leb_gt in Hle as ->. reflexivity.
Qed.

Lemma find_surrounding_after (l : list A) (before after : option A) :
  snd (find_surrounding key frame_idx l before after) =
  match after with
  | Some kf => Some kf
  | None => head (filter (fun kf => frame_idx < key kf) l)
  end.
Proof.
  revert before after. induction l as [|kf l IH]; intros before after.
  - destruct after; reflexivity.
  - simpl. rewrite IH, filter_cons. destruct after as [a|]; [reflexivity|].
    destruct (decide (frame_idx < key kf)) as [Hlt|Hlt].
    + apply Z.ltb_lt in Hlt as ->. reflexivity.
    + apply Z.nlt_ge, Z.ltb_ge in Hlt as ->. reflexivity.
Qed.

Lemma find_surrounding_found (l : list A) :
  find_surrounding key frame_idx l None None =
  (last (filter (fun kf => key kf <= frame_idx) l),
   head (filter (fun kf => frame_idx < key kf) l)).
Proof.
  rewrite (surjective_pairing (find_surrounding _ _ _ _ _)).
  rewrite find_surrounding_before, find_surrounding_after.
  destruct (last _); reflexivity.
Qed.

(** No element at or before the index: there is no [before]. *)
Lemma find_surrounding_all_later (l : list A) :
  Forall (fun kf => frame_idx < key kf) l ->
  fst (find_surrounding key frame_idx l None None) = None.
Proof.
  intros Hall. rewrite find_surrounding_before, filter_none; [reflexivity|].
  intros kf Hkf. rewrite Forall_forall in Hall. specialize (Hall kf Hkf). lia.
Qed.


(** In an ascending list the last element at or before the index is a
    latest one, and the first element after it is an earliest one. *)
Lemma last_at_or_before (l : list A) (b : A) :
  StronglySorted (key_le key) l ->
  last (filter (fun kf => key kf <= frame_idx) l) = Some b ->
  b ∈ l /\ key b <= frame_idx /\
  forall kf, kf ∈ l -> key kf <= frame_idx -> key kf <= key b.
Proof.
  induction 1 as [|x l Hl IH Hx]; [discriminate|].
  rewrite filter_cons. destruct (decide (key x <= frame_idx)) as [Hle|Hle].
  - rewrite last_cons.
    destruct (last (filter (fun kf => key kf <= frame_idx) l)) as [b'|] eqn:Hlast.
    + intros [= ->]. destruct (IH eq_refl) as (Hin & Hb & Hmax).
      split; [right; exact Hin|]. split; [exact Hb|].
      intros kf [->|Hkf]%elem_of_cons Hkf'; [|apply Hmax; assumption].
      rewrite Forall_forall in Hx. apply (Hx b Hin).
    + intros [= ->]. split; [left|]. split; [exact Hle|].
      intros kf [->|Hkf]%elem_of_cons Hkf'; [unfold key_le; lia|].
      exfalso. apply last_None in Hlast. revert Hlast.
      apply (filter_some _ l kf); assumption.
  - intros Hlast. destruct (IH Hlast) as (Hin & Hb & Hmax).
    split; [right; exact Hin|]. split; [exact Hb|].
    intros kf [->|Hkf]%elem_of_cons Hkf'; [lia|apply Hmax; assumption].
Qed.

Lemma first_after (l : list A) (a : A) :
  StronglySorted (key_le key) l ->
  head (filter (fun kf => frame_idx < key kf) l) = Some a ->
  a ∈ l /\ frame_idx < key a /\
  forall kf, kf ∈ l -> frame_idx < key kf -> key a <= key kf.
Proof.
  induction 1 as [|x l Hl IH Hx]; [discriminate|].
  rewrite filter_cons. destruct (decide (frame_idx < key x)) as [Hlt|Hlt].
  - intros [= ->]. split; [left|]. split; [exact Hlt|].
    intros kf [->|Hkf]%elem_of_cons _; [lia|].
    rewrite Forall_forall in Hx. apply (Hx kf Hkf).
  - intros Hhead. destruct (IH Hhead) as (Hin & Ha & Hmin).
    split; [right; exact Hin|]. split; [exact Ha|].
    intros kf [->|Hkf]%elem_of_cons Hkf'; [lia|apply Hmin; assumption].
Qed.

(** The last element at or before the index is the last of its own key. *)
Lemma last_of_its_key (l : list A) (b : A) :
  last (filter (fun kf => key kf <= frame_idx) l) = Some b ->
  last (filter (fun kf => key kf = key b) l) = Some b.
Proof.
  induction l as [|x l IH]; [discriminate|].
  rewrite !filter_cons. destruct (decide (key x <= frame_idx)) as [Hle|Hle].
  - rewrite last_cons.
    destruct (last (filter (fun kf => key kf <= frame_idx) l)) as [b'|] eqn:Hlast.
    + intros [= ->]. specialize (IH eq_refl).
      destruct (decide (key x = key b)); [rewrite last_cons, IH|]; auto.
    + intros [= ->]. rewrite decide_True by reflexivity. rewrite last_cons.
      destruct (last (filter (fun kf => key kf = key b) l)) as [c|] eqn:Hc; [|reflexivity].
      exfalso. apply last_Some_elem_of, list_elem_of_filter in Hc as [Hc1 Hc2].
      apply last_None in Hlast. revert Hlast.
      apply (filter_some _ l c); [exact Hc2 | lia].
  - intros Hlast. specialize (IH Hlast).
    assert (Hb : key b <= frame_idx).
    { apply last_Some_elem_of, list_elem_of_filter in Hlast. tauto. }
    rewrite decide_False by lia. exact IH.
Qed.
End Scan.

(** ** The schedule parser *)




(** ** [sorted] sorts, keeps the elements, and is stable *)

Section Sorting.
Context {A : Type} (key : A -> Z).

Lemma insert_sorted_elem (x y : A) (l : list A) :
  y ∈ insert_sorted key x l <-> y = x \/ y ∈ l.
Proof.
  induction l as [|z l IH]; simpl.
  - rewrite list_elem_of_singleton, elem_of_nil. tauto.
  - destruct (key x <=? key z); [rewrite !elem_of_cons; tauto|].
    rewrite !elem_of_cons, IH. tauto.
Qed.

Lemma sorted_elem (y : A) (l : list A) : y ∈ sorted key l <-> y ∈ l.
Proof.
  induction l as [|x l IH]; simpl; [reflexivity|].
  rewrite insert_sorted_elem, elem_of_cons, IH. reflexivity.
Qed.

Lemma insert_sorted_ascending (x : A) (l : list A) :
  StronglySorted (key_le key) l -> StronglySorted (key_le key) (insert_sorted key x l).
Proof.
  induction 1 as [|z l Hl IH Hz]; simpl.
  - constructor; constructor.
  - destruct (key x <=? key z) eqn:Hle.
    + apply Z.leb_le in Hle. constructor; [constructor; assumption|].
      constructor; [exact Hle|].
      eapply Forall_impl; [exact Hz|]. unfold key_le. intros; lia.
    + apply Z.leb_gt in Hle. constructor; [exact IH|].
      apply Forall_forall. intros y Hy.
      apply insert_sorted_elem in Hy as [->|Hy].
      * unfold key_le. lia.
      * rewrite Forall_forall in Hz. apply Hz. exact Hy.
Qed.

Lemma sorted_ascending (l : list A) : StronglySorted (key_le key) (sorted key l).
Proof.
  induction l as [|x l IH]; simpl; [constructor|].
  apply insert_sorted_ascending. exact IH.
Qed.

(** Stability: the elements of one key keep the order they were listed in. *)
Lemma insert_sorted_stable (k : Z) (x : A) (l : list A) :
  filter (fun y => key y = k) (insert_sorted key x l) =
  filter (fun y => key y = k) (x :: l).
Proof.
  induction l as [|z l IH]; simpl; [reflexivity|].
  destruct (key x <=? key z) eqn:Hle; [reflexivity|].
  apply Z.leb_gt in Hle.
  rewrite (filter_cons _ z (insert_sorted key x l)), IH.
  rewrite !filter_cons.
  destruct (decide (key z = k)) as [Hzk|Hzk]; destruct (decide (key x = k)) as [Hxk|Hxk];
    try reflexivity.
  lia.
Qed.

Lemma sorted_stable (k : Z) (l : list A) :
  filter (fun y => key y = k) (sorted key l) = filter (fun y => key y = k) l.
Proof.
  induction l as [|x l IH]; simpl; [reflexivity|].
  rewrite insert_sorted_stable, !filter_cons, IH. reflexivity.
Qed.
End Sorting.

(** ** Interpolation at [t = 0] *)

Lemma lerp_at_zero (a b : float) :
  finite (b - a) = true -> negative_zero a = false -> _lerp a b 0 = a.
Proof.
  unfold finite, negative_zero, _lerp. intros Hfin Hzero.
  apply Prim2SF_inj. rewrite add_spec, mul_spec.
  change (Prim2SF 0) with (S754_zero false).
  destruct (Prim2SF (b - a)) as [sd| | |sd md ed]; try discriminate;
    destruct (Prim2SF a) as [[|]| | |sa ma ea]; try discriminate;
    destruct sd; reflexivity.
Qed.

(** ** Reading the keyframes *)

Lemma deref_all_nil (ls : list loc) (s s' : animator) (objects : list (loc * KF.t)) :
  deref_all ls s = (Ok objects, s') -> objects <> [] -> ls <> [].
Proof. intros Hrun Hne ->. simpl in Hrun. injection Hrun as <- _. apply Hne. reflexivity. Qed.

(** What [_get_keyframe_at_frame] does once the objects are read and a
    keyframe at or before the index is found. *)
Lemma get_keyframe_found (frame_idx : Z) (keyframes : list loc) (s : animator)
    (objects : list (loc * KF.t)) (before : loc * KF.t) :
  deref_all keyframes s = (Ok objects, s) ->
  last (filter (fun o => frame_of o <= frame_idx) (sorted frame_of objects)) = Some before ->
  _get_keyframe_at_frame frame_idx keyframes s =
  match head (filter (fun o => frame_idx < frame_of o) (sorted frame_of objects)) with
  | None => (Ok (fst before), s)
  | Some after =>
      match truediv (frame_idx - frame_of before) (frame_of after - frame_of before) with
      | Ok t =>
          (Ok (length (heap s)),
           mk_animator (heap s ++ [interpolated frame_idx (snd before) (snd after) t])
                       (previous_frames s) (calls s))
      | Raise e => (Raise e, s)
      end
  end.
Proof.
  intros Hread Hbefore.
  assert (Hne : keyframes <> []).
  { apply (deref_all_nil _ _ _ _ Hread). intros ->. discriminate. }
  destruct keyframes as [|first rest]; [contradiction|].
  unfold _get_keyframe_at_frame. unfold mbind at 1. unfold M_bind at 1.
  rewrite Hread, find_surrounding_found, Hbefore.
  destruct (head _) as [after|]; [|reflexivity].
  unfold mbind, M_bind, lift, alloc.
  destruct (truediv _ _); reflexivity.
Qed.

(** The keyframe listed last among those of the index's own frame is the
    one the scan keeps as [before]. *)
Lemma before_at_own_frame (frame_idx : Z) (objects : list (loc * KF.t)) (o : loc * KF.t) :
  last (filter (fun o => frame_of o = frame_idx) objects) = Some o ->
  last (filter (fun o => frame_of o <= frame_idx) (sorted frame_of objects)) = Some o.
Proof.
  intros Hlast.
  assert (Ho : o ∈ objects /\ frame_of o = frame_idx).
  { apply last_Some_elem_of, list_elem_of_filter in Hlast. tauto. }
  destruct Ho as [Hin Hframe].
  destruct (last (filter (fun o => frame_of o <= frame_idx) (sorted frame_of objects)))
    as [b|] eqn:Hb.
  - destruct (last_at_or_before frame_of frame_idx _ b (sorted_ascending frame_of objects) Hb)
      as (_ & Hle & Hmax).
    assert (Hkey : frame_of b = frame_idx).
    { specialize (Hmax o). rewrite sorted_elem in Hmax. specialize (Hmax Hin). lia. }
    apply last_of_its_key in Hb. rewrite Hkey, sorted_stable in Hb. congruence.
  - exfalso. apply last_None in Hb. revert Hb.
    apply (filter_some _ _ o); [apply sorted_elem; exact Hin | lia].
Qed.

(** C3, as amended. Let a keyframe of the list have the queried frame (the
    one listed last, if several have it). When no keyframe has a later
    frame, [_get_keyframe_at_frame] returns that very object and changes
    nothing. Otherwise it returns a new keyframe with the same frame,
    prompt, negative prompt and seed, in which every interpolated field
    (strength, zoom, angle, the translations, the 3D rotations) is
    [_lerp x next.x 0.0], which is [x] bit for bit whenever [next.x - x] is
    finite and [x] is not [-0.0]. *)
Theorem keyframe_at_own_frame (s : animator) (frame_idx : Z) (keyframes : list loc)
    (objects : list (loc * KF.t)) (l : loc) (kf : KF.t) :
  deref_all keyframes s = (Ok objects, s) ->
  last (filter (fun o => frame_of o = frame_idx) objects) = Some (l, kf) ->
  let out := _get_keyframe_at_frame frame_idx keyframes s in
  (Forall (fun o => frame_of o <= frame_idx) objects -> out = (Ok l, s)) /\
  (Exists (fun o => frame_idx < frame_of o) objects ->
   exists (after : loc * KF.t) (kf' : KF.t),
     after ∈ objects /\ frame_idx < frame_of after /\
     out = (Ok (length (heap s)),
            mk_animator (heap s ++ [kf']) (previous_frames s) (calls s)) /\
     KF.frame kf' = KF.frame kf /\
     KF.prompt kf' = KF.prompt kf /\
     KF.negative_prompt kf' = KF.negative_prompt kf /\
     KF.seed kf' = KF.seed kf /\
     Forall (fun field : KF.t -> float =>
               field kf' = _lerp (field kf) (field (snd after)) 0 /\
               (finite (field (snd after) - field kf) = true ->
                negative_zero (field kf) = false ->
                field kf' = field kf))
            interpolated_fields).
Proof.
  intros Hread Hlast out. subst out.
  assert (Hframe : frame_of (l, kf) = frame_idx).
  { apply last_Some_elem_of, list_elem_of_filter in Hlast. tauto. }
  rewrite (get_keyframe_found _ _ _ _ _ Hread (before_at_own_frame _ _ _ Hlast)).
  split.
  - intros Hall.
    rewrite filter_none; [reflexivity|].
    intros o Ho%sorted_elem. rewrite Forall_forall in Hall. specialize (Hall o Ho). lia.
  - intros Hsome.
    destruct (head (filter (fun o => frame_idx < frame_of o) (sorted frame_of objects)))
      as [after|] eqn:Hafter.
    + destruct (first_after frame_of frame_idx _ after (sorted_ascending frame_of objects) Hafter)
        as (Hin & Hlater & _).
      apply sorted_elem in Hin.
      rewrite Hframe, Z.sub_diag, truediv_zero by lia.
      exists after, (interpolated frame_idx kf (snd after) 0).
      split; [exact Hin|]. split; [exact Hlater|]. split; [reflexivity|].
      split; [symmetry; exact Hframe|].
      repeat split.
      unfold interpolated_fields.
      repeat (constructor; [split; [reflexivity | apply lerp_at_zero]|]).
      constructor.
    + exfalso. apply head_None in Hafter. revert Hafter.
      apply Exists_exists in Hsome as (o & Ho & Hlater).
      apply (filter_some _ _ o); [apply sorted_elem; exact Ho | exact Hlater].
Qed.

(** At frame 10 of two keyframes at frames 0 and 10 the second object is
    returned itself; at frame 0 a keyframe is built from the first. *)
Lemma keyframe_at_own_frame_witness :
  let s := mk_animator [tilted_keyframe; later_keyframe] [] [] in
  (Forall (fun o => frame_of o <= 10) [(0%nat, tilted_keyframe); (1%nat, later_keyframe)] ->
   _get_keyframe_at_frame 10 [0%nat; 1%nat] s = (Ok 1%nat, s)) /\
  (Exists (fun o => 10 < frame_of o) [(0%nat, tilted_keyframe); (1%nat, later_keyframe)] ->
   exists (after : loc * KF.t) (kf' : KF.t),
     after ∈ [(0%nat, tilted_keyframe); (1%nat, later_keyframe)] /\ 10 < frame_of after /\
     _get_keyframe_at_frame 10 [0%nat; 1%nat] s =
       (Ok (length (heap s)),
        mk_animator (heap s ++ [kf']) (previous_frames s) (calls s)) /\
     KF.frame kf' = KF.frame later_keyframe /\
     KF.prompt kf' = KF.prompt later_keyframe /\
     KF.negative_prompt kf' = KF.negative_prompt later_keyframe /\
     KF.seed kf' = KF.seed later_keyframe /\
     Forall (fun field : KF.t -> float =>
               field kf' = _lerp (field later_keyframe) (field (snd after)) 0 /\
               (finite (field (snd after) - field later_keyframe) = true ->
                negative_zero (field later_keyframe) = false ->
                field kf' = field later_keyframe))
            interpolated_fields).
Proof.
  apply (keyframe_at_own_frame (mk_animator [tilted_keyframe; later_keyframe] [] []) 10
           [0%nat; 1%nat] [(0%nat, tilted_keyframe); (1%nat, later_keyframe)]
           1%nat later_keyframe).
  - reflexivity.
  - reflexivity.
Defined.

(** C3, as stated, fails: at frame 0 of keyframes at frames 0 and 10 the
    keyframe returned is a new one, whose angle is [0.0] where the keyframe
    of frame 0 has [-0.0], and whose perspective flip is [0.0] where that
    keyframe has [10.0]. *)
Lemma keyframe_at_own_frame_is_rebuilt :
  let s := mk_animator [tilted_keyframe; later_keyframe] [] [] in
  let out := _get_keyframe_at_frame 0 [0%nat; 1%nat] s in
  KF.frame tilted_keyframe = 0 /\
  exists kf' : KF.t,
    fst out = Ok 2%nat /\
    heap (snd out) !! 2%nat = Some kf' /\
    KF.angle kf' <> KF.angle tilted_keyframe /\
    KF.perspective_flip_theta kf' <> KF.perspective_flip_theta tilted_keyframe.
Proof.
  split; [reflexivity|].
  eexists. split; [vm_compute; reflexivity|]. split; [vm_compute; reflexivity|].
  split; intros Heq; apply (f_equal Prim2SF) in Heq; vm_compute in Heq; discriminate.
Qed.

(** ** Audio reactivity *)

(** C4 fails on the code. [_get_keyframe_at_frame] hands back the
    configuration's own keyframe object when no keyframe lies after the
    index, and [_apply_audio_reactivity] assigns to its attributes: called
    one after the other for frame 0, with a bass series of 1.0, they leave
    the configuration's keyframe (zoom 1.0) with zoom 1.2. In a run of two
    frames in mode ["2D"], on an animator whose pipeline is loaded, each
    frame does so, and after the run the configuration's keyframe holds
    zoom [1.2 * 1.2]. *)
Lemma audio_reactivity_writes_into_the_configuration :
  let config :=
    {| Cfg.total_frames := 2; Cfg.steps := 30; Cfg.cfg_scale := 7.0;
       Cfg.animation_mode := "2D"; Cfg.border := "replicate";
       Cfg.color_coherence := "None"; Cfg.diffusion_cadence := 1;
       Cfg.temporal_strength := 0.0; Cfg.temporal_layers := 2;
       Cfg.use_animatediff := false; Cfg.use_optical_flow := false;
       Cfg.use_frame_interpolation := false; Cfg.interpolation_factor := 2;
       Cfg.keyframes := [0%nat] |} in
  let bass : gmap string (list float) := {[ "bass" := [1.0; 1.0]%float ]} in
  let s := mk_animator [KF.default 0 "p"] [] [] in
  let out := @generate_animation still (example_image 9) config (Some bass) None s in
  KF.zoom (KF.default 0 "p") = 1.0%float /\
  (_get_keyframe_at_frame 0 (Cfg.keyframes config)
     ≫= fun keyframe => _apply_audio_reactivity keyframe bass 0) s =
    (Ok 0%nat, mk_animator [KF.set_zoom 1.2 (KF.default 0 "p")] [] []) /\
  @ensure_pipeline still config = Ok tt /\
  @audio_params_of still (Some bass) config = Ok bass /\
  (exists frames, fst out = Ok frames /\ length frames = 2%nat) /\
  exists kf' : KF.t,
    heap (snd out) = [kf'] /\
    KF.zoom kf' = (1.2 * 1.2)%float /\
    KF.zoom kf' <> KF.zoom (KF.default 0 "p").
Proof.
  split; [reflexivity|].
  split; [vm_compute; reflexivity|].
  split; [reflexivity|].
  split; [vm_compute; reflexivity|].
  split; [eexists; split; vm_compute; reflexivity|].
  eexists. split; [vm_compute; reflexivity|]. split; [vm_compute; reflexivity|].
  intros Heq. apply (f_equal Prim2SF) in Heq. vm_compute in Heq. discriminate.
Qed.

Lemma update_ok (l : loc) (f : KF.t -> KF.t) (s : animator) (kf : KF.t) :
  heap s !! l = Some kf ->
  update l f s = (Ok tt, mk_animator (<[l := f kf]> (heap s)) (previous_frames s) (calls s)).
Proof. intros Hkf. unfold update. rewrite Hkf. reflexivity. Qed.

(** C5. [_apply_audio_reactivity] rewrites the keyframe object it is given
    and returns it. With [bass = 1.0] at the frame the zoom becomes
    [zoom * 1.2]; with [energy = 0.4] the strength becomes [0.7]; with
    [treble = v] the angle becomes [angle + v * 45]; a feature that is
    absent leaves its field as it was, and when none of bass, treble and
    energy is present, whatever other names are, the keyframe is unchanged.
    (The series of these three names are taken to hold a sample at the
    frame, as they do once resampled to the frame count.) *)
Theorem audio_modulation (s : animator) (keyframe : loc) (kf : KF.t)
    (audio_params : gmap string (list float)) (frame_idx : Z) :
  heap s !! keyframe = Some kf ->
  (forall (name : string) (series : list float),
     In name ["bass"; "treble"; "energy"] ->
     audio_params !! name = Some series -> exists v, index series frame_idx = Ok v) ->
  exists kf' : KF.t,
    _apply_audio_reactivity keyframe audio_params frame_idx s =
      (Ok keyframe,
       mk_animator (<[keyframe := kf']> (heap s)) (previous_frames s) (calls s)) /\
    (forall series, audio_params !! "bass" = Some series ->
       index series frame_idx = Ok 1.0%float ->
       KF.zoom kf' = (KF.zoom kf * 1.2)%float) /\
    (forall series, audio_params !! "energy" = Some series ->
       index series frame_idx = Ok 0.4%float ->
       KF.strength kf' = 0.7%float) /\
    (forall series v, audio_params !! "treble" = Some series ->
       index series frame_idx = Ok v ->
       KF.angle kf' = (KF.angle kf + v * 45)%float) /\
    (audio_params !! "bass" = None -> KF.zoom kf' = KF.zoom kf) /\
    (audio_params !! "treble" = None -> KF.angle kf' = KF.angle kf) /\
    (audio_params !! "energy" = None -> KF.strength kf' = KF.strength kf) /\
    (audio_params !! "bass" = None -> audio_params !! "treble" = None ->
     audio_params !! "energy" = None -> kf' = kf).
Proof.
  intros Hkf Hseries.
  assert (Hlen : (keyframe < length (heap s))%nat) by (eapply lookup_lt_Some; exact Hkf).
  unfold _apply_audio_reactivity.
  destruct (audio_params !! "bass") as [bass|] eqn:Hbass;
    [destruct (Hseries "bass" _ ltac:(simpl; tauto) Hbass) as [bass_value Hbv]|];
  (destruct (audio_params !! "treble") as [treble|] eqn:Htreble;
    [destruct (Hseries "treble" _ ltac:(simpl; tauto) Htreble) as [treble_value Htv]|]);
  (destruct (audio_params !! "energy") as [energy|] eqn:Henergy;
    [destruct (Hseries "energy" _ ltac:(simpl; tauto) Henergy) as [energy_value Hev]|]).
  all: unfold mbind, M_bind, lift, mret, M_ret; simpl.
  all: rewrite ?Hbv, ?Htv, ?Hev.
  all: repeat (first [ rewrite (update_ok _ _ _ kf Hkf)
                     | erewrite update_ok by (simpl; apply list_lookup_insert_eq;
                                               rewrite ?length_insert; exact Hlen) ];
               simpl; rewrite ?Htv, ?Hev).
  all: rewrite ?list_insert_insert_eq.
  all: try (eexists; split; [reflexivity|]).
  8: { exists kf. split; [rewrite list_insert_id by exact Hkf; destruct s; reflexivity|].
       repeat split; intros; congruence. }
  all: repeat split; intros; simpl; try congruence.
  all: try match goal with
           | H1 : index ?l ?i = Ok ?a, H2 : index ?l ?i = Ok ?b |- _ =>
               rewrite H1 in H2; injection H2 as ->
           end; try reflexivity.
  all: try match goal with
           | H1 : Some ?l = Some ?l', H2 : index ?l ?i = Ok ?a, H3 : index ?l' ?i = Ok ?b |- _ =>
               injection H1 as <-; rewrite H2 in H3; injection H3 as ->
           end; try reflexivity.
Qed.

(** Bass 1.0 and energy 0.4 at frame 1, and a feature of another name. *)
Lemma audio_modulation_witness :
  let audio_params : gmap string (list float) :=
    {[ "bass" := [0.5; 1.0]%float; "energy" := [0.1; 0.4]%float;
       "flux" := [9.0; 9.0]%float ]} in
  let s := mk_animator [later_keyframe] [] [] in
  exists kf' : KF.t,
    _apply_audio_reactivity 0%nat audio_params 1 s =
      (Ok 0%nat, mk_animator (<[0%nat := kf']> (heap s)) (previous_frames s) (calls s)) /\
    KF.zoom kf' = (KF.zoom later_keyframe * 1.2)%float /\
    KF.strength kf' = 0.7%float /\
    KF.angle kf' = KF.angle later_keyframe.
Proof.
  destruct (audio_modulation (mk_animator [later_keyframe] [] []) 0%nat later_keyframe
              ({[ "bass" := [0.5; 1.0]%float; "energy" := [0.1; 0.4]%float;
                  "flux" := [9.0; 9.0]%float ]}) 1)
    as (kf' & Hrun & Hbass & Henergy & _ & _ & Htreble & _).
  - reflexivity.
  - intros name series [<-|[<-|[<-|[]]]] Hlook; vm_compute in Hlook;
      [injection Hlook as <- | discriminate | injection Hlook as <-];
      eexists; reflexivity.
  - exists kf'. split; [exact Hrun|].
    split; [apply (Hbass [0.5; 1.0]%float); [vm_compute; reflexivity | reflexivity]|].
    split; [apply (Henergy [0.1; 0.4]%float); [vm_compute; reflexivity | reflexivity]|].
    apply Htreble. vm_compute. reflexivity.
Defined.

(** ** Malformed schedule tokens *)

(** The first loop stops at the first refused token, with its error. *)
Lemma parse_parts_refused (parts : list string) (points : list (Z * float)) :
  existsb is_refused parts = true ->
  exists (accepted : list string) (part : string) (rest : list string) (why : value_error),
    parts = accepted ++ part :: rest /\
    forallb (fun p => negb (is_refused p)) accepted = true /\
    read_token part = refused why /\
    parse_parts parts points = Raise (ValueError why).
Proof.
  revert points. induction parts as [|p parts IH]; intros points Hbad; [discriminate|].
  simpl in Hbad. unfold is_refused at 1 in Hbad.
  destruct (read_token p) as [|frame value|why] eqn:Hp.
  - destruct (IH points Hbad) as (accepted & part & rest & why & -> & Hok & Hpart & Hrun).
    exists (p :: accepted), part, rest, why. simpl. unfold is_refused at 1. rewrite Hp.
    auto.
  - destruct (IH (points ++ [(frame, value)]) Hbad)
      as (accepted & part & rest & why & -> & Hok & Hpart & Hrun).
    exists (p :: accepted), part, rest, why. simpl. unfold is_refused at 1. rewrite Hp.
    auto.
  - exists [], p, parts, why. simpl. rewrite Hp. auto.
Qed.

(** A token without a colon leaves the parse as it would be without it. *)
Lemma parse_parts_skips (before after : list string) (part : string)
    (points : list (Z * float)) :
  read_token part = no_colon ->
  parse_parts (before ++ part :: after) points = parse_parts (before ++ after) points.
Proof.
  intros Hpart. revert points. induction before as [|p before IH]; intros points; simpl.
  - rewrite Hpart. reflexivity.
  - destruct (read_token p); [apply IH | apply IH | reflexivity].
Qed.

(** C6, as amended. Let a token of the schedule hold a colon and be
    malformed: its frame is no integer literal, its value is no float
    literal, or it holds more than one colon. Then parsing raises Python's
    [ValueError] in the first loop, before any frame is evaluated, and for
    every frame count. The error is that of the first such token: for a bad
    frame or a bad value it carries the offending text, for a token with
    several colons it is the error of the unpacking. A token that holds no
    colon is skipped: the control points are those of the schedule without
    it. *)
Theorem malformed_token_raises_ValueError (schedule : string) (total_frames : Z)
    (part : string) :
  In part (split "," schedule) ->
  (contains ":" (strip part) = true ->
   match split ":" (strip part) with
   | [frame_str; value_str] =>
       python_int (strip frame_str) = None \/
       python_float (strip_chars "() " value_str) = None
   | _ => True
   end ->
   exists (accepted : list string) (first : string) (rest : list string) (why : value_error),
     split "," schedule = accepted ++ first :: rest /\
     forallb (fun p => negb (is_refused p)) accepted = true /\
     read_token first = refused why /\
     schedule_points schedule = Raise (ValueError why) /\
     parse_schedule_string schedule total_frames = Raise (ValueError why) /\
     match split ":" (strip first) with
     | [frame_str; value_str] =>
         match python_int (strip frame_str) with
         | None => why = invalid_literal_for_int (strip frame_str)
         | Some _ => why = could_not_convert_string_to_float (strip_chars "() " value_str)
         end
     | _ => why = too_many_values_to_unpack
     end) /\
  (contains ":" (strip part) = false ->
   forall before after : list string,
     split "," schedule = before ++ part :: after ->
     schedule_points schedule = parse_parts (before ++ after) []).
Proof.
  intros Hin. split.
  - intros Hcolon Hbad.
    assert (Hrefused : existsb is_refused (split "," schedule) = true).
    { apply existsb_exists. exists part. split; [exact Hin|].
      unfold is_refused, read_token. cbv zeta. rewrite Hcolon.
      destruct (split ":" (strip part)) as [|frame_str [|value_str [|extra pieces]]];
        try reflexivity.
      destruct (python_int (strip frame_str)); [|reflexivity].
      destruct (python_float (strip_chars "() " value_str)); [|reflexivity].
      destruct Hbad; discriminate. }
    destruct (parse_parts_refused _ [] Hrefused)
      as (accepted & first & rest & why & Hsplit & Hok & Hfirst & Hrun).
    exists accepted, first, rest, why.
    split; [exact Hsplit|]. split; [exact Hok|]. split; [exact Hfirst|].
    split; [exact Hrun|].
    split; [unfold parse_schedule_string, schedule_points; rewrite Hrun; reflexivity|].
    unfold read_token in Hfirst. cbv zeta in Hfirst.
    destruct (contains ":" (strip first)); [|discriminate].
    destruct (split ":" (strip first)) as [|frame_str [|value_str [|extra pieces]]];
      try (injection Hfirst as <-; reflexivity).
    destruct (python_int (strip frame_str)); [|injection Hfirst as <-; reflexivity].
    destruct (python_float (strip_chars "() " value_str)); [discriminate|].
    injection Hfirst as <-; reflexivity.
  - intros Hcolon before after Hsplit. unfold schedule_points. rewrite Hsplit.
    apply parse_parts_skips. unfold read_token. cbv zeta. rewrite Hcolon. reflexivity.
Qed.

(** The second token of ["0:(1.0), ten:(2.0)"] has a frame that is no integer. *)
Lemma malformed_token_raises_ValueError_witness :
  exists (accepted : list string) (first : string) (rest : list string) (why : value_error),
    split "," "0:(1.0), ten:(2.0)" = accepted ++ first :: rest /\
    forallb (fun p => negb (is_refused p)) accepted = true /\
    read_token first = refused why /\
    schedule_points "0:(1.0), ten:(2.0)" = Raise (ValueError why) /\
    parse_schedule_string "0:(1.0), ten:(2.0)" 11 = Raise (ValueError why) /\
    match split ":" (strip first) with
    | [frame_str; value_str] =>
        match python_int (strip frame_str) with
        | None => why = invalid_literal_for_int (strip frame_str)
        | Some _ => why = could_not_convert_string_to_float (strip_chars "() " value_str)
        end
    | _ => why = too_many_values_to_unpack
    end.
Proof.
  apply (proj1 (malformed_token_raises_ValueError "0:(1.0), ten:(2.0)" 11 " ten:(2.0)"
                  ltac:(right; left; reflexivity))).
  - reflexivity.
  - left. reflexivity.
Defined.

(** C6, as stated, fails: the token ["garbage"] is malformed and parsing
    succeeds, because a token without a colon is skipped; and where parsing
    does fail, as on the frame ["x"], the exception is a [ValueError]. *)
Lemma tokens_without_colon_are_skipped :
  In "garbage" (split "," "0:(1.0),garbage") /\
  read_token "garbage" = no_colon /\
  parse_schedule_string "0:(1.0),garbage" 2 = Ok [1.0%float; 1.0%float] /\
  parse_schedule_string "x:(1.0)" 2 = Raise (ValueError (invalid_literal_for_int "x")).
Proof.
  split; [right; left; reflexivity|].
  repeat split; vm_compute; reflexivity.
Qed.

(** ** Colour coherence *)

Section Channels.
Context {T : Type}.



Context `{Arithmetic T}.



End Channels.






Lemma all_uint8_elem (v : Z) : 0 <= v < 256 -> In v all_uint8.
Proof.
  intros Hv. unfold all_uint8, range. apply in_map_iff. exists (Z.to_nat v).
  split; [lia|]. apply in_seq. lia.
Qed.





(** ** Frame-rate upsampling *)

Lemma mix_same_shape (a b : Image.t) (alpha : float) :
  same_shape a b -> mix a b alpha = Ok (mixed a b alpha).
Proof.
  intros [Hh Hw]. unfold mix, mixed, plus, times_scalar, astype_float32. simpl.
  rewrite Hh, Hw, !Nat.eqb_refl. simpl. unfold fromarray_uint8. simpl. f_equal.
  rewrite <- Hh, <- Hw. f_equal.
  generalize (Image.data b). induction (Image.data a) as [|x xs IH]; intros [|y ys];
    simpl; try reflexivity.
  f_equal. apply IH.
Qed.

(** The chunk of one pair of neighbours: the first of them, then the
    [factor - 1] frames mixed at [alpha = j / factor]. *)
Lemma interpolate_between_spec (frames : list Image.t) (factor : Z) (i : nat)
    (a b : Image.t) :
  1 < factor -> frames !! i = Some a -> frames !! S i = Some b -> same_shape a b ->
  exists between : list Image.t,
    interpolate_between frames factor (Z.of_nat i) = Ok (a :: between) /\
    length between = (Z.to_nat factor - 1)%nat /\
    forall j : nat, (1 <= j < Z.to_nat factor)%nat ->
      exists alpha, truediv (Z.of_nat j) factor = Ok alpha /\
                    between !! (j - 1)%nat = Some (mixed a b alpha).
Proof.
  intros Hfactor Ha Hb Hshape. unfold interpolate_between.
  rewrite (index_nonneg _ _ _ Ha).
  replace (Z.of_nat i + 1) with (Z.of_nat (S i)) by lia.
  rewrite (index_nonneg _ _ _ Hb). simpl.
  set (body := fun j : Z => alpha ← truediv j factor; mix a b alpha).
  destruct (for_each_succeeds body (range_from 1 factor)) as [between Hbetween].
  { apply Forall_forall. intros j Hj%range_from_elem.
    destruct (truediv_fraction j factor) as [alpha Halpha]; [lia|].
    exists (mixed a b alpha). unfold body. rewrite Halpha. simpl.
    apply mix_same_shape. exact Hshape. }
  exists between. rewrite Hbetween. simpl. split; [reflexivity|].
  split.
  - rewrite (for_each_length _ _ _ Hbetween), range_from_length. lia.
  - intros j Hj.
    assert (Hlook : range_from 1 factor !! (j - 1)%nat = Some (Z.of_nat j)).
    { rewrite range_from_lookup by lia. f_equal. lia. }
    destruct (for_each_lookup _ _ _ _ _ Hbetween Hlook) as (image & Himage & Hbody).
    unfold body in Hbody.
    destruct (truediv (Z.of_nat j) factor) as [alpha|] eqn:Halpha; [|discriminate].
    simpl in Hbody. rewrite mix_same_shape in Hbody by exact Hshape.
    injection Hbody as <-. exists alpha. split; [reflexivity | exact Himage].
Qed.

(** C8, as amended. For [n >= 2] frames of one height and one width and a
    factor [k > 1], [_interpolate_frames] returns [(n - 1) * k + 1] frames:
    frame [i] of the input stands at position [i * k], so the frames keep
    their order and the last one ends the sequence, and between two
    neighbours [a] and [b] stand exactly [k - 1] frames, the [j]-th of them
    [a * (1 - alpha) + b * alpha] with [alpha = j / k], computed per value
    in [float32] and stored as [uint8]. *)
Theorem upsampling_between_frames (frames : list Image.t) (factor : Z) (h w : nat) :
  (2 <= length frames)%nat ->
  1 < factor ->
  Forall (fun frame => Image.height frame = h /\ Image.width frame = w) frames ->
  let k := Z.to_nat factor in
  let out := _interpolate_frames frames factor in
  length out = ((length frames - 1) * k + 1)%nat /\
  (forall (i : nat) (frame : Image.t),
     frames !! i = Some frame -> out !! (i * k)%nat = Some frame) /\
  (forall (i j : nat) (a b : Image.t),
     frames !! i = Some a -> frames !! S i = Some b -> (1 <= j < k)%nat ->
     exists alpha, truediv (Z.of_nat j) factor = Ok alpha /\
                   out !! (i * k + j)%nat = Some (mixed a b alpha)) /\
  last out = last frames.
Proof.
  intros Hn Hfactor Hsize k out.
  assert (Hshape : forall a b, a ∈ frames -> b ∈ frames -> same_shape a b).
  { intros a b Ha Hb. rewrite Forall_forall in Hsize.
    destruct (Hsize a Ha) as [Ha1 Ha2]. destruct (Hsize b Hb) as [Hb1 Hb2].
    split; congruence. }
  set (n := length frames) in *.
  assert (Hk : (2 <= k)%nat) by (unfold k; lia).
  assert (Hchunk : forall i : nat, (i < n - 1)%nat ->
            exists a b between,
              frames !! i = Some a /\ frames !! S i = Some b /\
              interpolate_between frames factor (Z.of_nat i) = Ok (a :: between) /\
              length between = (k - 1)%nat /\
              forall j : nat, (1 <= j < k)%nat ->
                exists alpha, truediv (Z.of_nat j) factor = Ok alpha /\
                              between !! (j - 1)%nat = Some (mixed a b alpha)).
  { intros i Hi.
    destruct (lookup_lt_is_Some_2 frames i) as [a Ha]; [unfold n in Hi; lia|].
    destruct (lookup_lt_is_Some_2 frames (S i)) as [b Hb]; [unfold n in Hi; lia|].
    assert (Hab : same_shape a b).
    { apply Hshape; eapply list_elem_of_lookup_2; eassumption. }
    destruct (interpolate_between_spec frames factor i a b Hfactor Ha Hb Hab)
      as (between & Hrun & Hlen & Hmid).
    exists a, b, between. auto. }
  destruct (for_each_succeeds (interpolate_between frames factor) (range (Z.of_nat n - 1)))
    as [chunks Hchunks].
  { apply Forall_forall. intros i Hi%range_elem.
    destruct (Hchunk (Z.to_nat i)) as (a & b & between & _ & _ & Hrun & _); [lia|].
    rewrite Z2Nat.id in Hrun by lia. eexists. exact Hrun. }
  assert (Hcount : length chunks = (n - 1)%nat).
  { rewrite (for_each_length _ _ _ Hchunks), range_length. lia. }
  assert (Hat : forall i a between,
            (i < n - 1)%nat -> frames !! i = Some a ->
            interpolate_between frames factor (Z.of_nat i) = Ok (a :: between) ->
            chunks !! i = Some (a :: between)).
  { intros i a between Hi Ha Hrun.
    assert (Hlook : range (Z.of_nat n - 1) !! i = Some (Z.of_nat i))
      by (apply range_lookup; lia).
    destruct (for_each_lookup _ _ _ _ _ Hchunks Hlook) as (c & Hc & Hrun').
    rewrite Hrun in Hrun'. injection Hrun' as <-. exact Hc. }
  assert (Huniform : Forall (fun c => length c = k) chunks).
  { apply Forall_lookup. intros i c Hc.
    assert (Hi : (i < n - 1)%nat) by (rewrite <- Hcount; eapply lookup_lt_Some; exact Hc).
    destruct (Hchunk i Hi) as (a & b & between & Ha & _ & Hrun & Hlen & _).
    rewrite (Hat i a between Hi Ha Hrun) in Hc. injection Hc as <-.
    simpl. rewrite Hlen. lia. }
  destruct (last frames) as [final|] eqn:Hfinal.
  2:{ apply last_None in Hfinal. unfold n in Hn. rewrite Hfinal in Hn. simpl in Hn. lia. }
  assert (Hout : out = concat chunks ++ [final]).
  { unfold out, _interpolate_frames, interpolate_try. fold n.
    rewrite Hchunks. simpl. rewrite (index_last _ _ Hfinal). reflexivity. }
  assert (Hflat : length (concat chunks) = ((n - 1) * k)%nat).
  { rewrite (concat_uniform_length k) by exact Huniform. rewrite Hcount. reflexivity. }
  rewrite Hout. split; [|split; [|split]].
  - rewrite length_app, Hflat. simpl. lia.
  - intros i frame Hframe.
    assert (Hi : (i < n)%nat) by (eapply lookup_lt_Some; exact Hframe).
    destruct (decide (i < n - 1)%nat) as [Hinner|Hlast].
    + destruct (Hchunk i Hinner) as (a & b & between & Ha & _ & Hrun & _).
      rewrite Hframe in Ha. injection Ha as <-.
      rewrite lookup_app_l
        by (rewrite Hflat; apply Nat.mul_lt_mono_pos_r; lia).
      replace (i * k)%nat with (i * k + 0)%nat by lia.
      eapply concat_uniform_lookup; [exact Huniform | eapply Hat; eassumption | reflexivity].
    + assert (i = (n - 1)%nat) as -> by lia.
      rewrite lookup_app_r by (rewrite Hflat; lia).
      rewrite Hflat, Nat.sub_diag. simpl.
      rewrite last_lookup in Hfinal. fold n in Hfinal.
      replace (pred n) with (n - 1)%nat in Hfinal by lia. congruence.
  - intros i j a b Ha Hb Hj.
    assert (Hi : (i < n - 1)%nat).
    { apply lookup_lt_Some in Hb. fold n in Hb. lia. }
    destruct (Hchunk i Hi) as (a' & b' & between & Ha' & Hb' & Hrun & Hlen & Hmid).
    rewrite Ha in Ha'. injection Ha' as <-. rewrite Hb in Hb'. injection Hb' as <-.
    destruct (Hmid j Hj) as (alpha & Halpha & Hbetween).
    exists alpha. split; [exact Halpha|].
    assert (Hroom : (S i * k <= (n - 1) * k)%nat) by (apply Nat.mul_le_mono_r; lia).
    rewrite lookup_app_l by (rewrite Hflat; lia).
    eapply concat_uniform_lookup; [exact Huniform | eapply Hat; eassumption |].
    destruct j as [|j]; [lia|]. simpl. simpl in Hbetween.
    rewrite Nat.sub_0_r in Hbetween. exact Hbetween.
  - rewrite last_snoc. reflexivity.
Qed.

(** Three frames of one pixel, upsampled by 3: seven frames. *)
Lemma upsampling_between_frames_witness :
  let frames := [example_image 1; example_image 2; example_image 255] in
  length (_interpolate_frames frames 3) = ((length frames - 1) * Z.to_nat 3 + 1)%nat /\
  (forall (i : nat) (frame : Image.t),
     frames !! i = Some frame ->
     _interpolate_frames frames 3 !! (i * Z.to_nat 3)%nat = Some frame) /\
  (forall (i j : nat) (a b : Image.t),
     frames !! i = Some a -> frames !! S i = Some b -> (1 <= j < Z.to_nat 3)%nat ->
     exists alpha, truediv (Z.of_nat j) 3 = Ok alpha /\
                   _interpolate_frames frames 3 !! (i * Z.to_nat 3 + j)%nat
                     = Some (mixed a b alpha)) /\
  last (_interpolate_frames frames 3) = last frames.
Proof.
  apply (upsampling_between_frames
           [example_image 1; example_image 2; example_image 255] 3 1%nat 1%nat).
  - simpl. lia.
  - lia.
  - repeat constructor.
Defined.

(** C8, as stated, fails: two frames of different heights cannot be mixed,
    the error is caught, and the two frames come back as they were, not
    three frames. *)
Lemma frames_of_two_sizes_come_back_unchanged :
  let a := Image.make 2 1 [10; 10; 10; 20; 20; 20] in
  let b := Image.make 3 1 [10; 10; 10; 20; 20; 20; 30; 30; 30] in
  _interpolate_frames [a; b] 2 = [a; b] /\
  length (_interpolate_frames [a; b] 2) <> ((length [a; b] - 1) * Z.to_nat 2 + 1)%nat.
Proof. split; [vm_compute; reflexivity | vm_compute; discriminate]. Qed.

(** ** The progress callback *)

Section Quiet.
Context `{Collaborators}.

Lemma quiet_still {A : Type} (m : M A) :
  (forall s, calls (snd (m s)) = calls s) -> quiet m.
Proof. intros Hm s. exists []. rewrite Hm, app_nil_r. auto. Qed.

Lemma quiet_ret {A : Type} (a : A) : quiet (mret a).
Proof. apply quiet_still. reflexivity. Qed.

Lemma quiet_lift {A : Type} (r : result A) : quiet (lift r).
Proof. apply quiet_still. reflexivity. Qed.

Lemma quiet_bind {A B : Type} (m : M A) (f : A -> M B) :
  quiet m -> (forall a, quiet (f a)) -> quiet (m ≫= f).
Proof.
  intros Hm Hf s. unfold mbind, M_bind.
  destruct (Hm s) as (made & Hcalls & Hnone).
  destruct (m s) as [[a|e] s1]; simpl in *.
  - destruct (Hf a s1) as (made' & Hcalls' & Hnone').
    exists (made ++ made'). rewrite Hcalls', Hcalls, app_assoc. split; [reflexivity|].
    unfold progress_reports in *. rewrite filter_app, Hnone, Hnone'. reflexivity.
  - exists made. auto.
Qed.

Lemma quiet_record (e : event) : is_progress e = false -> quiet (record e).
Proof.
  intros He s. exists [e]. split; [reflexivity|].
  unfold progress_reports. rewrite filter_cons, decide_False by congruence. reflexivity.
Qed.

Lemma quiet_deref (l : loc) : quiet (deref l).
Proof. apply quiet_still. reflexivity. Qed.

Lemma quiet_update (l : loc) (f : KF.t -> KF.t) : quiet (update l f).
Proof. apply quiet_still. intros s. unfold update. destruct (heap s !! l); reflexivity. Qed.

Lemma quiet_alloc (kf : KF.t) : quiet (alloc kf).
Proof. apply quiet_still. reflexivity. Qed.

Lemma quiet_get_previous_frames : quiet get_previous_frames.
Proof. apply quiet_still. reflexivity. Qed.

Lemma quiet_set_previous_frames (frames : list Image.t) : quiet (set_previous_frames frames).
Proof. apply quiet_still. reflexivity. Qed.

Lemma quiet_deref_all (ls : list loc) : quiet (deref_all ls).
Proof.
  induction ls as [|l ls IH]; simpl; [apply quiet_ret|].
  apply quiet_bind; [apply quiet_deref|]. intros kf.
  apply quiet_bind; [exact IH|]. intros rest. apply quiet_ret.
Qed.

Ltac quiet_step :=
  first
    [ apply quiet_ret | apply quiet_lift | apply quiet_deref | apply quiet_update
    | apply quiet_alloc | apply quiet_get_previous_frames | apply quiet_set_previous_frames
    | apply quiet_deref_all | apply quiet_record; reflexivity
    | apply quiet_bind; [|intros ?]
    | match goal with
      | |- quiet (if ?c then _ else _) => destruct c
      | |- quiet (match ?x with _ => _ end) => destruct x
      end ].

Lemma quiet_get_keyframe_at_frame (frame_idx : Z) (keyframes : list loc) :
  quiet (_get_keyframe_at_frame frame_idx keyframes).
Proof. unfold _get_keyframe_at_frame. repeat quiet_step. Qed.

Lemma quiet_apply_audio_reactivity (keyframe : loc) (audio_params : gmap string (list float))
    (frame_idx : Z) :
  quiet (_apply_audio_reactivity keyframe audio_params frame_idx).
Proof. unfold _apply_audio_reactivity. repeat quiet_step. Qed.

Lemma quiet_generate_frame (prev_image : Image.t) (frame_idx : Z) (keyframe : loc)
    (config : Cfg.t) :
  quiet (_generate_frame prev_image frame_idx keyframe config).
Proof. unfold _generate_frame. repeat quiet_step. Qed.

Lemma bind_quiet_reports {A B : Type} (m : M A) (f : A -> M B) (s s1 : animator) (a : A) :
  m s = (Ok a, s1) -> quiet (f a) ->
  progress_reports (calls (snd ((m ≫= f) s))) = progress_reports (calls s1).
Proof.
  intros Hm Hf. unfold mbind, M_bind. rewrite Hm.
  destruct (Hf s1) as (made & -> & Hnone).
  unfold progress_reports in *. rewrite filter_app, Hnone, app_nil_r. reflexivity.
Qed.

Section Progress.
Context (init_image : Image.t) (config : Cfg.t) (audio_params : gmap string (list float))
        (callback : Z -> Z -> result unit).

Let report (frame_idx : Z) : event := progress_reported frame_idx (Cfg.total_frames config).

(** One iteration reports its frame once, before anything else; what the
    callback raises ends the iteration there. *)
Lemma generate_step_reports (frames : list Image.t) (frame_idx : Z) (s : animator) :
  let out := generate_step init_image config audio_params (Some callback) frames frame_idx s in
  progress_reports (calls (snd out)) = progress_reports (calls s) ++ [report frame_idx] /\
  (forall e, callback frame_idx (Cfg.total_frames config) = Raise e ->
     out = (Raise e, mk_animator (heap s) (previous_frames s) (calls s ++ [report frame_idx]))) /\
  (forall frames', fst out = Ok frames' ->
     callback frame_idx (Cfg.total_frames config) = Ok tt).
Proof.
  intros out. subst out. unfold generate_step.
  set (s1 := mk_animator (heap s) (previous_frames s) (calls s ++ [report frame_idx])).
  assert (Hs1 : progress_reports (calls s1) = progress_reports (calls s) ++ [report frame_idx]).
  { unfold s1, progress_reports. simpl. rewrite filter_app. reflexivity. }
  destruct (callback frame_idx (Cfg.total_frames config)) as [[]|e] eqn:Hcb.
  - split; [|split; [discriminate | reflexivity]].
    rewrite <- Hs1. eapply bind_quiet_reports.
    + unfold mbind, M_bind, record, lift. simpl. reflexivity.
    + repeat quiet_step;
        first [ apply quiet_get_keyframe_at_frame | apply quiet_apply_audio_reactivity
              | apply quiet_generate_frame ].
  - assert (Hout : forall k : unit -> M (list Image.t),
              ((record (report frame_idx);; lift (Raise e)) ≫= k) s = (Raise e, s1)).
    { intros k. reflexivity. }
    unfold report in Hout. rewrite Hout. simpl.
    split; [exact Hs1|]. split; [intros e' [= <-]; reflexivity | discriminate].
Qed.

Lemma generate_loop_cons (progress_callback : option (Z -> Z -> result unit))
    (frame_idx : Z) (rest : list Z) (frames : list Image.t) (s : animator) :
  generate_loop init_image config audio_params progress_callback (frame_idx :: rest) frames s =
  match generate_step init_image config audio_params progress_callback frames frame_idx s with
  | (Ok frames', s1) =>
      generate_loop init_image config audio_params progress_callback rest frames' s1
  | (Raise e, s1) => (Raise e, s1)
  end.
Proof. reflexivity. Qed.

(** The loop reports the frames it reaches, in order; it returns only when
    it has reached them all and every call of the callback has returned. *)
Lemma generate_loop_reports (indices : list Z) (frames : list Image.t) (s : animator) :
  let out := generate_loop init_image config audio_params (Some callback) indices frames s in
  exists reached : list Z,
    reached `prefix_of` indices /\
    progress_reports (calls (snd out)) = progress_reports (calls s) ++ map report reached /\
    (forall i e, In i reached -> callback i (Cfg.total_frames config) = Raise e ->
       fst out = Raise e) /\
    (forall frames', fst out = Ok frames' ->
       reached = indices /\
       Forall (fun i => callback i (Cfg.total_frames config) = Ok tt) indices).
Proof.
  revert frames s. induction indices as [|i rest IH]; intros frames s out; subst out.
  - exists []. simpl. rewrite app_nil_r. split; [reflexivity|]. split; [reflexivity|].
    split; [intros i e []|]. auto.
  - rewrite generate_loop_cons.
    destruct (generate_step_reports frames i s) as (Hreports & Hraise & Hok).
    destruct (generate_step init_image config audio_params (Some callback) frames i s)
      as [[frames'|e] s1] eqn:Hstep; simpl in *.
    + destruct (IH frames' s1) as (reached & Hprefix & Hreached & Hraised & Hdone).
      exists (i :: reached). split; [apply prefix_cons; exact Hprefix|].
      split; [rewrite Hreached, Hreports, <- app_assoc; reflexivity|].
      split.
      * intros j e [<-|Hj] Hcb.
        -- rewrite (Hok frames' eq_refl) in Hcb. discriminate.
        -- apply (Hraised j e Hj Hcb).
      * intros frames'' Hrun. destruct (Hdone frames'' Hrun) as [-> Hall].
        split; [reflexivity|]. constructor; [apply (Hok frames'); reflexivity | exact Hall].
    + exists [i]. split; [apply prefix_cons, prefix_nil|].
      split; [exact Hreports|]. split; [|discriminate].
      intros j e' [<-|[]] Hcb. specialize (Hraise e' Hcb). congruence.
Qed.
End Progress.

(** [generate_animation] is the check of the pipeline, the resampling of
    the audio data, its loop, run from a state with no previous frames, and
    the optional upsampling of what the loop returns. *)
Lemma generate_animation_run (init_image : Image.t) (config : Cfg.t)
    (audio_data : option (gmap string (list float)))
    (progress_callback : option (Z -> Z -> result unit)) (s : animator) :
  generate_animation init_image config audio_data progress_callback s =
  match ensure_pipeline config with
  | Raise e => (Raise e, s)
  | Ok _ =>
      match audio_params_of audio_data config with
      | Raise e => (Raise e, mk_animator (heap s) [] (calls s))
      | Ok audio_params =>
          match generate_loop init_image config audio_params progress_callback
                  (range (Cfg.total_frames config)) []
                  (mk_animator (heap s) [] (calls s)) with
          | (Ok frames, s1) =>
              (Ok (if Cfg.use_frame_interpolation config
                      && (1 <? Cfg.interpolation_factor config)
                   then _interpolate_frames frames (Cfg.interpolation_factor config)
                   else frames), s1)
          | (Raise e, s1) => (Raise e, s1)
          end
      end
  end.
Proof.
  unfold generate_animation.
  unfold mbind at 1. unfold M_bind at 1. unfold lift at 1.
  destruct (ensure_pipeline config) as [[]|e]; [|reflexivity]. cbv iota beta.
  unfold mbind at 1. unfold M_bind at 1. unfold set_previous_frames at 1. cbv iota beta.
  unfold mbind at 1. unfold M_bind at 1. unfold lift at 1.
  destruct (audio_params_of audio_data config) as [audio_params|e]; [|reflexivity].
  cbv iota beta.
  unfold mbind at 1. unfold M_bind at 1.
  destruct (generate_loop _ _ _ _ _ _ _) as [[frames|e] s1]; [|reflexivity].
  destruct (Cfg.use_frame_interpolation config && (1 <? Cfg.interpolation_factor config));
    reflexivity.
Qed.

(** C9, as amended. With a progress callback supplied, [generate_animation]
    calls it at the start of each frame's iteration with
    [(frame_idx, total_frames)]: the calls made are those of the frames
    reached, in order, once each, and a run that returns has made exactly
    one call per frame, every one of which returned. An exception raised by
    the callback is not caught: the run ends with the exception of a call
    that raises, and raised at frame 0 it ends the run before any frame is
    generated. The loop is entered once the pipeline is at hand and the
    audio data are resampled: when one of the two raises, the run ends
    with that exception and the callback is never called. *)
Theorem progress_callback_once_per_frame (init_image : Image.t) (config : Cfg.t)
    (audio_data : option (gmap string (list float)))
    (callback : Z -> Z -> result unit) (s : animator) :
  let n := Cfg.total_frames config in
  let out := generate_animation init_image config audio_data (Some callback) s in
  (exists reached : list Z,
     reached `prefix_of` range n /\
     progress_reports (calls (snd out)) =
       progress_reports (calls s) ++ map (fun i => progress_reported i n) reached /\
     (forall (i : Z) (e : exn), In i reached -> callback i n = Raise e -> fst out = Raise e)) /\
  (forall frames : list Image.t,
     fst out = Ok frames ->
     progress_reports (calls (snd out)) =
       progress_reports (calls s) ++ map (fun i => progress_reported i n) (range n) /\
     Forall (fun i => callback i n = Ok tt) (range n)) /\
  (forall (e : exn) (audio_params : gmap string (list float)),
     ensure_pipeline config = Ok tt ->
     audio_params_of audio_data config = Ok audio_params ->
     0 < n -> callback 0 n = Raise e ->
     out = (Raise e, mk_animator (heap s) [] (calls s ++ [progress_reported 0 n]))) /\
  (forall e : exn,
     ensure_pipeline config = Raise e \/
     (ensure_pipeline config = Ok tt /\ audio_params_of audio_data config = Raise e) ->
     fst out = Raise e /\ calls (snd out) = calls s).
Proof.
  intros n out. subst out.
  rewrite generate_animation_run.
  set (s0 := mk_animator (heap s) [] (calls s)).
  destruct (ensure_pipeline config) as [[]|e0].
  2:{ split; [|split; [|split]].
      - exists []. simpl. rewrite app_nil_r.
        split; [apply prefix_nil|]. split; [reflexivity|]. intros i e [].
      - discriminate.
      - discriminate.
      - intros e [[= <-] | [[=] _]]. auto. }
  destruct (audio_params_of audio_data config) as [audio_params|e0].
  2:{ split; [|split; [|split]].
      - exists []. simpl. rewrite app_nil_r.
        split; [apply prefix_nil|]. split; [reflexivity|]. intros i e [].
      - discriminate.
      - discriminate.
      - intros e [[=] | [_ [= <-]]]. auto. }
  destruct (generate_loop_reports init_image config audio_params callback (range n) [] s0)
    as (reached & Hprefix & Hreports & Hraised & Hdone).
  fold n. split; [|split; [|split]].
  - exists reached. split; [exact Hprefix|].
    destruct (generate_loop _ _ _ _ _ _ _) as [[frames|e] s1];
      (split; [exact Hreports|]).
    + intros i e Hi Hcb. specialize (Hraised i e Hi Hcb). discriminate.
    + exact Hraised.
  - intros frames Hrun.
    destruct (generate_loop _ _ _ _ _ _ _) as [[frames'|e] s1]; [|discriminate].
    destruct (Hdone frames' eq_refl) as [-> Hall]. split; [exact Hreports | exact Hall].
  - intros e audio_params' _ [= <-] Hn Hcb. destruct (range_positive n Hn) as [rest ->].
    rewrite generate_loop_cons.
    destruct (generate_step_reports init_image config audio_params callback [] 0 s0)
      as (_ & Hraise & _).
    rewrite (Hraise e Hcb). reflexivity.
  - intros e [[=] | [_ [=]]].
Qed.
End Quiet.

(** A run of three frames whose callback returns every time: three reports. *)
Lemma progress_callback_once_per_frame_witness :
  let config := example_config 3 1 [] in
  let callback := fun _ _ : Z => Ok tt in
  let out := @generate_animation still (example_image 9) config None (Some callback)
               (mk_animator [] [] []) in
  (exists frames, fst out = Ok frames) /\
  progress_reports (calls (snd out)) =
    [progress_reported 0 3; progress_reported 1 3; progress_reported 2 3].
Proof.
  split.
  - eexists. vm_compute. reflexivity.
  - apply (proj1 (proj2 (@progress_callback_once_per_frame still (example_image 9)
                           (example_config 3 1 []) None (fun _ _ : Z => Ok tt)
                           (mk_animator [] [] [])))
             [example_image 9; example_image 9; example_image 9; example_image 9;
              example_image 9]).
    vm_compute. reflexivity.
Defined.

(** C9, as stated, fails: on an animator whose pipeline is loaded, a
    callback that raises at frame 1 ends a run of three frames in mode
    ["2D"] with its exception, after one frame. *)
Lemma raising_callback_aborts_the_run :
  let config := example_config 3 1 [] in
  let callback := fun frame_idx _ : Z =>
                    if frame_idx =? 1 then Raise (CallbackError 7) else Ok tt in
  let out := @generate_animation still (example_image 9) config None (Some callback)
               (mk_animator [] [] []) in
  Cfg.animation_mode config = "2D" /\
  @ensure_pipeline still config = Ok tt /\
  fst out = Raise (CallbackError 7) /\
  progress_reports (calls (snd out)) = [progress_reported 0 3; progress_reported 1 3] /\
  length (previous_frames (snd out)) = 1%nat.
Proof. vm_compute. auto. Qed.

(** ** Between two keyframes *)

(** C10. When some keyframe lies at or before the index and some keyframe
    after it, [_get_keyframe_at_frame] builds a new keyframe from the two
    that surround the index: [before], a latest keyframe at or before the
    index (the one listed last of its frame), and [after], an earliest one
    after it. Its negative prompt and its seed are those of [before],
    whatever [t] is, also when [t >= 0.5] and its prompt is that of
    [after]. *)
Theorem negative_prompt_and_seed_from_before (s : animator) (frame_idx : Z)
    (keyframes : list loc) (objects : list (loc * KF.t)) :
  deref_all keyframes s = (Ok objects, s) ->
  Exists (fun o => frame_of o <= frame_idx) objects ->
  Exists (fun o => frame_idx < frame_of o) objects ->
  exists (before after : loc * KF.t) (t : float) (kf' : KF.t),
    (before ∈ objects /\ frame_of before <= frame_idx /\
     (forall o, o ∈ objects -> frame_of o <= frame_idx -> frame_of o <= frame_of before) /\
     last (filter (fun o => frame_of o = frame_of before) objects) = Some before) /\
    (after ∈ objects /\ frame_idx < frame_of after /\
     (forall o, o ∈ objects -> frame_idx < frame_of o -> frame_of after <= frame_of o)) /\
    truediv (frame_idx - frame_of before) (frame_of after - frame_of before) = Ok t /\
    _get_keyframe_at_frame frame_idx keyframes s =
      (Ok (length (heap s)), mk_animator (heap s ++ [kf']) (previous_frames s) (calls s)) /\
    KF.negative_prompt kf' = KF.negative_prompt (snd before) /\
    KF.seed kf' = KF.seed (snd before) /\
    KF.prompt kf' =
      (if (t <? 0.5)%float then KF.prompt (snd before) else KF.prompt (snd after)).
Proof.
  intros Hread Hearlier Hlater.
  destruct (last (filter (fun o => frame_of o <= frame_idx) (sorted frame_of objects)))
    as [before|] eqn:Hb.
  2:{ exfalso. apply last_None in Hb. revert Hb.
      apply Exists_exists in Hearlier as (o & Ho & Hle).
      apply (filter_some _ _ o); [apply sorted_elem; exact Ho | exact Hle]. }
  destruct (head (filter (fun o => frame_idx < frame_of o) (sorted frame_of objects)))
    as [after|] eqn:Ha.
  2:{ exfalso. apply head_None in Ha. revert Ha.
      apply Exists_exists in Hlater as (o & Ho & Hlt).
      apply (filter_some _ _ o); [apply sorted_elem; exact Ho | exact Hlt]. }
  pose proof (get_keyframe_found _ _ _ _ _ Hread Hb) as Hrun. rewrite Ha in Hrun.
  destruct (last_at_or_before frame_of frame_idx _ before (sorted_ascending frame_of objects) Hb)
    as (Hbin & Hble & Hbmax).
  destruct (first_after frame_of frame_idx _ after (sorted_ascending frame_of objects) Ha)
    as (Hain & Halt & Hamin).
  apply last_of_its_key in Hb. rewrite sorted_stable in Hb.
  destruct (truediv_fraction (frame_idx - frame_of before) (frame_of after - frame_of before))
    as [t Ht]; [lia|].
  rewrite Ht in Hrun.
  exists before, after, t, (interpolated frame_idx (snd before) (snd after) t).
  split.
  { split; [apply sorted_elem in Hbin; exact Hbin|]. split; [exact Hble|].
    split; [|exact Hb]. intros o Ho. apply Hbmax, sorted_elem. exact Ho. }
  split.
  { split; [apply sorted_elem in Hain; exact Hain|]. split; [exact Halt|].
    intros o Ho. apply Hamin, sorted_elem. exact Ho. }
  split; [exact Ht|]. split; [exact Hrun|]. repeat split.
Qed.

(** Frame 7 between keyframes at frames 0 and 10, listed out of order:
    [t = 0.7], the prompt is the later keyframe's, the negative prompt and
    the seed are the earlier keyframe's. *)
Lemma negative_prompt_and_seed_from_before_witness :
  let s := mk_animator [later_keyframe; tilted_keyframe] [] [] in
  let objects := [(0%nat, later_keyframe); (1%nat, tilted_keyframe)] in
  exists (before after : loc * KF.t) (t : float) (kf' : KF.t),
    (before ∈ objects /\ frame_of before <= 7 /\
     (forall o, o ∈ objects -> frame_of o <= 7 -> frame_of o <= frame_of before) /\
     last (filter (fun o => frame_of o = frame_of before) objects) = Some before) /\
    (after ∈ objects /\ 7 < frame_of after /\
     (forall o, o ∈ objects -> 7 < frame_of o -> frame_of after <= frame_of o)) /\
    truediv (7 - frame_of before) (frame_of after - frame_of before) = Ok t /\
    _get_keyframe_at_frame 7 [0%nat; 1%nat] s =
      (Ok (length (heap s)), mk_animator (heap s ++ [kf']) (previous_frames s) (calls s)) /\
    KF.negative_prompt kf' = KF.negative_prompt (snd before) /\
    KF.seed kf' = KF.seed (snd before) /\
    KF.prompt kf' =
      (if (t <? 0.5)%float then KF.prompt (snd before) else KF.prompt (snd after)).
Proof.
  apply (negative_prompt_and_seed_from_before
           (mk_animator [later_keyframe; tilted_keyframe] [] []) 7 [0%nat; 1%nat]
           [(0%nat, later_keyframe); (1%nat, tilted_keyframe)]).
  - reflexivity.
  - apply Exists_cons_tl, Exists_cons_hd. unfold frame_of, tilted_keyframe. simpl. lia.
  - apply Exists_cons_hd. unfold frame_of, later_keyframe. simpl. lia.
Defined.

(** At frame 7 of those keyframes the new keyframe has the prompt of the
    keyframe at frame 10 and the negative prompt and seed of the keyframe
    at frame 0. *)
Example between_keyframes_at_frame_7 :
  let out := _get_keyframe_at_frame 7 [0%nat; 1%nat]
               (mk_animator [later_keyframe; tilted_keyframe] [] []) in
  fst out = Ok 2%nat /\
  (KF.prompt <$> heap (snd out) !! 2%nat) = Some "dusk" /\
  (KF.negative_prompt <$> heap (snd out) !! 2%nat) = Some "blur" /\
  (KF.seed <$> heap (snd out) !! 2%nat) = Some 42.
Proof. repeat split; vm_compute; reflexivity. Qed.
(** ** The schedule parser: totality and edge cases *)

(** With a control point to start from, every frame has a value: the
    division of the interpolation is by a positive difference of frames and
    its quotient is below one. *)
Lemma schedule_value_succeeds (points : list (Z * float)) (frame : Z) :
  points <> [] -> exists v, schedule_value points frame = Ok v.
Proof.
  intros Hne. unfold schedule_value. rewrite find_surrounding_found.
  destruct (last (filter (fun p => fst p <= frame) points)) as [before|] eqn:Hbefore.
  - destruct (head (filter (fun p => frame < fst p) points)) as [after|] eqn:Hafter.
    + apply last_Some_elem_of, list_elem_of_filter in Hbefore as [Hb _].
      apply head_Some_elem_of, list_elem_of_filter in Hafter as [Ha _].
      destruct (truediv_fraction (frame - fst before) (fst after - fst before)) as [t Ht];
        [lia|].
      rewrite Ht. eexists. reflexivity.
    + eexists. reflexivity.
  - destruct points as [|p points]; [contradiction|]. eexists. reflexivity.
Qed.

Lemma parse_schedule_string_values (schedule : string) (total_frames : Z)
    (points : list (Z * float)) :
  schedule_points schedule = Ok points -> points <> [] ->
  exists values,
    parse_schedule_string schedule total_frames = Ok values /\
    length values = Z.to_nat total_frames /\
    forall frame, 0 <= frame < total_frames ->
      exists v, schedule_value points frame = Ok v /\ index values frame = Ok v.
Proof.
  intros Hpoints Hne. unfold parse_schedule_string. rewrite Hpoints. simpl.
  destruct (for_each_succeeds (schedule_value points) (range total_frames)) as [values Hrun].
  { apply Forall_forall. intros frame _. apply schedule_value_succeeds, Hne. }
  exists values. split; [exact Hrun|].
  split; [rewrite (for_each_length _ _ _ Hrun); apply range_length|].
  intros frame Hframe.
  assert (Hlook : range total_frames !! Z.to_nat frame = Some frame).
  { rewrite range_lookup by lia. f_equal. lia. }
  destruct (for_each_lookup _ _ _ _ _ Hrun Hlook) as (v & Hv & Hvalue).
  exists v. split; [exact Hvalue|].
  apply index_nonneg in Hv. rewrite Z2Nat.id in Hv by lia. exact Hv.
Qed.

(** X1. A schedule whose tokens are all accepted and that holds a
    control point is parsed to one value per frame: the result has
    [total_frames] values (none when [total_frames] is not positive) and
    the value of frame [i] stands at index [i]. No division by zero and no
    overflow can occur, also when control points repeat a frame or are
    listed out of order. *)
Theorem parse_schedule_string_total (schedule : string) (total_frames : Z)
    (points : list (Z * float)) :
  schedule_points schedule = Ok points -> points <> [] ->
  exists values,
    parse_schedule_string schedule total_frames = Ok values /\
    length values = Z.to_nat total_frames /\
    forall frame, 0 <= frame < total_frames ->
      exists v, schedule_value points frame = Ok v /\ index values frame = Ok v.
Proof. apply parse_schedule_string_values. Qed.

Lemma parse_schedule_string_total_witness :
  exists values,
    parse_schedule_string "10:(2.0), 0:(1.0), 10:(4.0)" 12 = Ok values /\
    length values = Z.to_nat 12 /\
    forall frame, 0 <= frame < 12 ->
      exists v, schedule_value [(10, 2.0%float); (0, 1.0%float); (10, 4.0%float)] frame = Ok v /\
                index values frame = Ok v.
Proof.
  apply (parse_schedule_string_total "10:(2.0), 0:(1.0), 10:(4.0)" 12
           [(10, 2.0%float); (0, 1.0%float); (10, 4.0%float)]).
  - vm_compute. reflexivity.
  - discriminate.
Defined.

Lemma parse_parts_without_colon (parts : list string) (points : list (Z * float)) :
  forallb (fun part => negb (contains ":" (strip part))) parts = true ->
  parse_parts parts points = Ok points.
Proof.
  induction parts as [|part parts IH]; intros Hall; [reflexivity|].
  simpl in Hall. apply andb_true_iff in Hall as [Hpart Hrest].
  simpl. unfold read_token. cbv zeta.
  apply negb_true_iff in Hpart. rewrite Hpart. apply IH. exact Hrest.
Qed.

(** X2. A schedule none of whose tokens holds a colon (the empty string
    among them) has no control point: for a positive frame count the second
    loop fails on [points[0]] with [IndexError], and for a frame count that
    is not positive the result is the empty list. *)
Theorem schedule_without_control_points (schedule : string) (total_frames : Z) :
  forallb (fun part => negb (contains ":" (strip part))) (split "," schedule) = true ->
  parse_schedule_string schedule total_frames =
  if 0 <? total_frames then Raise IndexError else Ok [].
Proof.
  intros Hall. unfold parse_schedule_string, schedule_points.
  rewrite (parse_parts_without_colon _ [] Hall). simpl.
  destruct (0 <? total_frames) eqn:Hn.
  - apply Z.ltb_lt in Hn. destruct (range_positive total_frames Hn) as [rest ->].
    reflexivity.
  - apply Z.ltb_ge in Hn. unfold range. replace (Z.to_nat total_frames) with 0%nat by lia.
    reflexivity.
Qed.

Lemma schedule_without_control_points_witness :
  parse_schedule_string "1.0, 2.0" 3 = if 0 <? 3 then Raise IndexError else Ok [].
Proof. apply (schedule_without_control_points "1.0, 2.0" 3). reflexivity. Defined.

Lemma ascending_split (l1 l2 : list (Z * float)) (p q : Z * float) :
  ascending (l1 ++ p :: q :: l2) ->
  Forall (fun x => fst x < fst p) l1 /\ fst p < fst q /\ Forall (fun x => fst q < fst x) l2.
Proof.
  unfold ascending. induction l1 as [|x l1 IH]; simpl; intros Hsorted.
  - inversion Hsorted as [|? ? Hrest Hp]; subst.
    inversion Hrest as [|? ? _ Hq]; subst.
    inversion Hp; subst. auto.
  - inversion Hsorted as [|? ? Hrest Hx]; subst.
    destruct (IH Hrest) as (H1 & H2 & H3).
    split; [|auto]. constructor; [|exact H1].
    rewrite Forall_app in Hx. destruct Hx as [_ Hx]. inversion Hx; subst. assumption.
Qed.

Lemma filter_all {A : Type} (P : A -> Prop) `{forall x, Decision (P x)} (l : list A) :
  Forall P l -> filter P l = l.
Proof.
  induction 1 as [|x l Hx _ IH]; [reflexivity|].
  rewrite filter_cons, decide_True by exact Hx. f_equal. exact IH.
Qed.

(** X3. Between two neighbouring control points of a schedule listed by
    ascending frame, the value of a frame is the linear interpolation of
    their values: [v0 + (v1 - v0) * t] with [t] the quotient
    [(frame - f0) / (f1 - f0)] of Python's division of integers. *)
Theorem schedule_interpolates_between_neighbours (schedule : string) (total_frames : Z)
    (earlier later : list (Z * float)) (p q : Z * float) (frame : Z) :
  schedule_points schedule = Ok (earlier ++ p :: q :: later) ->
  ascending (earlier ++ p :: q :: later) ->
  fst p <= frame < fst q ->
  0 <= frame < total_frames ->
  exists (values : list float) (t : float),
    parse_schedule_string schedule total_frames = Ok values /\
    truediv (frame - fst p) (fst q - fst p) = Ok t /\
    index values frame = Ok (snd p + (snd q - snd p) * t)%float.
Proof.
  intros Hpoints Hsorted Hbetween Hframe.
  destruct (parse_schedule_string_values schedule total_frames _ Hpoints)
    as (values & Hparse & _ & Hvalues); [destruct earlier; discriminate|].
  destruct (Hvalues frame Hframe) as (v & Hv & Hindex).
  destruct (truediv_fraction (frame - fst p) (fst q - fst p)) as [t Ht]; [lia|].
  exists values, t. split; [exact Hparse|]. split; [exact Ht|].
  rewrite Hindex. f_equal.
  destruct (ascending_split _ _ _ _ Hsorted) as (Hearlier & Hpq & Hlater).
  unfold schedule_value in Hv. rewrite find_surrounding_found in Hv.
  rewrite !filter_app, !filter_cons in Hv.
  rewrite (filter_all (fun x => fst x <= frame) earlier) in Hv
    by (eapply Forall_impl; [exact Hearlier|]; simpl; intros; lia).
  rewrite (filter_none (fun x => frame < fst x) earlier) in Hv
    by (intros x Hx; rewrite Forall_forall in Hearlier; specialize (Hearlier x Hx); lia).
  rewrite (filter_none (fun x => fst x <= frame) later) in Hv
    by (intros x Hx; rewrite Forall_forall in Hlater; specialize (Hlater x Hx); lia).
  rewrite (decide_True (P := fst p <= frame)) in Hv by lia.
  rewrite (decide_False (P := fst q <= frame)) in Hv by lia.
  rewrite (decide_False (P := frame < fst p)) in Hv by lia.
  rewrite (decide_True (P := frame < fst q)) in Hv by lia.
  rewrite last_snoc in Hv. simpl in Hv. rewrite Ht in Hv. simpl in Hv. congruence.
Qed.

Lemma schedule_interpolates_between_neighbours_witness :
  exists (values : list float) (t : float),
    parse_schedule_string "0:(1.0), 30:(1.05), 60:(1.0)" 61 = Ok values /\
    truediv (40 - 30) (60 - 30) = Ok t /\
    index values 40 = Ok (1.05 + (1.0 - 1.05) * t)%float.
Proof.
  apply (schedule_interpolates_between_neighbours "0:(1.0), 30:(1.05), 60:(1.0)" 61
           [(0, 1.0%float)] [] (30, 1.05%float) (60, 1.0%float) 40).
  - vm_compute. reflexivity.
  - repeat constructor; simpl; lia.
  - simpl. lia.
  - lia.
Defined.
(** ** Deforum-style schedules *)

Lemma for_each_all_fail {A B : Type} (f : A -> result B) (xs : list A) (e : exn) :
  (forall x, x ∈ xs -> f x = Raise e \/ exists y, f x = Ok y) ->
  (exists x, x ∈ xs /\ f x = Raise e) ->
  for_each f xs = Raise e.
Proof.
  induction xs as [|x xs IH]; intros Hall (x0 & Hx0 & Hfail).
  - apply elem_of_nil in Hx0. contradiction.
  - simpl. destruct (Hall x) as [->|[y Hy]]; [left | reflexivity |].
    rewrite Hy. apply elem_of_cons in Hx0 as [->|Hx0]; [congruence|].
    rewrite IH; [reflexivity | | exists x0; auto].
    intros z Hz. apply Hall. right. exact Hz.
Qed.

Lemma for_each_elem {A B : Type} (f : A -> result B) (xs : list A) (ys : list B) (y : B) :
  for_each f xs = Ok ys -> y ∈ ys -> exists x, x ∈ xs /\ f x = Ok y.
Proof.
  revert ys. induction xs as [|x0 xs IH]; intros ys Hrun Hy; simpl in Hrun.
  - injection Hrun as <-. apply elem_of_nil in Hy. contradiction.
  - destruct (f x0) as [y0|] eqn:Hy0; [|discriminate].
    destruct (for_each f xs) as [ys'|] eqn:Hrest; [|discriminate].
    injection Hrun as <-. apply elem_of_cons in Hy as [->|Hy].
    + exists x0. split; [left | exact Hy0].
    + destruct (IH ys' eq_refl Hy) as (x & Hx & Hfx). exists x. split; [right|]; assumption.
Qed.

Lemma for_each_map {A B C : Type} (f : A -> result B) (g : B -> C) (h : A -> C)
    (xs : list A) (ys : list B) :
  (forall x y, f x = Ok y -> g y = h x) ->
  for_each f xs = Ok ys -> map g ys = map h xs.
Proof.
  intros Hgh. revert ys. induction xs as [|x0 xs IH]; intros ys Hrun; simpl in Hrun.
  - injection Hrun as <-. reflexivity.
  - destruct (f x0) as [y0|] eqn:Hy0; [|discriminate].
    destruct (for_each f xs) as [ys'|] eqn:Hrest; [|discriminate].
    injection Hrun as <-. simpl. f_equal; [apply Hgh; exact Hy0 | apply IH; reflexivity].
Qed.

Section SortingUnique.
Context {A : Type} (key : A -> Z).

Lemma insert_sorted_permutation (x : A) (l : list A) : insert_sorted key x l ≡ₚ x :: l.
Proof.
  induction l as [|y l IH]; simpl; [reflexivity|].
  destruct (key x <=? key y); [reflexivity|].
  rewrite IH. apply Permutation_swap.
Qed.

Lemma sorted_permutation (l : list A) : sorted key l ≡ₚ l.
Proof.
  induction l as [|x l IH]; simpl; [reflexivity|].
  rewrite insert_sorted_permutation, IH. reflexivity.
Qed.

(** Sorted keys without repetition ascend strictly. *)
Lemma ascending_keys (l : list A) :
  StronglySorted (key_le key) l -> NoDup (map key l) -> StronglySorted Z.lt (map key l).
Proof.
  induction 1 as [|x l Hl IH Hx]; simpl; intros Hnodup; [constructor|].
  apply NoDup_cons in Hnodup as [Hnew Hrest].
  constructor; [apply IH; exact Hrest|].
  apply Forall_forall. intros k Hk.
  apply list_elem_of_fmap in Hk as (y & -> & Hy).
  rewrite Forall_forall in Hx. specialize (Hx y Hy). unfold key_le in Hx.
  assert (key x <> key y); [|lia].
  intros Heq. apply Hnew. rewrite Heq. apply list_elem_of_fmap. exists y. auto.
Qed.
End SortingUnique.

(** The parsed schedules: what the first loop leaves under a name. *)
Lemma parse_schedules_lookup (camera_movements : list (string * string)) (total_frames : Z)
    (parsed0 parsed : gmap string (list float)) (param : string) :
  parse_schedules camera_movements total_frames parsed0 = Ok parsed ->
  (param ∉ map fst camera_movements -> parsed !! param = parsed0 !! param) /\
  (forall schedule_str,
     NoDup (map fst camera_movements) -> (param, schedule_str) ∈ camera_movements ->
     exists values, parse_schedule_string schedule_str total_frames = Ok values /\
                    parsed !! param = Some values).
Proof.
  revert parsed0. induction camera_movements as [|[name text] rest IH]; intros parsed0 Hrun.
  - simpl in Hrun. injection Hrun as <-. split; [reflexivity|].
    intros schedule_str _ Hin. apply elem_of_nil in Hin. contradiction.
  - simpl in Hrun.
    destruct (parse_schedule_string text total_frames) as [values|] eqn:Hparse; [|discriminate].
    simpl in Hrun. destruct (IH _ Hrun) as [Hout Hin]. split.
    + simpl. intros Hnot. rewrite not_elem_of_cons in Hnot. destruct Hnot as [Hne Hnot].
      rewrite (Hout Hnot). apply lookup_insert_ne. congruence.
    + simpl. intros schedule_str Hnodup Hmem.
      apply NoDup_cons in Hnodup as [Hnew Hnodup].
      apply elem_of_cons in Hmem as [[= -> ->]|Hmem].
      * exists values. split; [exact Hparse|].
        rewrite (Hout Hnew). apply lookup_insert_eq.
      * apply (Hin schedule_str Hnodup Hmem).
Qed.

Lemma parse_schedules_lengths (camera_movements : list (string * string)) (total_frames : Z)
    (parsed0 parsed : gmap string (list float)) :
  parse_schedules camera_movements total_frames parsed0 = Ok parsed ->
  (forall param values, parsed0 !! param = Some values ->
     length values = Z.to_nat total_frames) ->
  forall param values, parsed !! param = Some values -> length values = Z.to_nat total_frames.
Proof.
  revert parsed0. induction camera_movements as [|[name text] rest IH]; intros parsed0 Hrun H0.
  - simpl in Hrun. injection Hrun as <-. exact H0.
  - simpl in Hrun.
    destruct (parse_schedule_string text total_frames) as [values|] eqn:Hparse; [|discriminate].
    simpl in Hrun. apply (IH _ Hrun).
    intros param vs Hlook. destruct (decide (name = param)) as [->|Hne].
    + rewrite lookup_insert_eq in Hlook. injection Hlook as <-.
      unfold parse_schedule_string in Hparse.
      destruct (schedule_points text); [|discriminate]. simpl in Hparse.
      rewrite (for_each_length _ _ _ Hparse). apply range_length.
    + rewrite lookup_insert_ne in Hlook by exact Hne. apply (H0 _ _ Hlook).
Qed.

Lemma index_in_bounds {A : Type} (xs : list A) (i : Z) :
  - Z.of_nat (length xs) <= i < Z.of_nat (length xs) ->
  exists x, index xs i = Ok x /\ xs !! Z.to_nat (position (Z.of_nat (length xs)) i) = Some x.
Proof.
  intros Hi. unfold index, position.
  set (i' := if i <? 0 then i + Z.of_nat (length xs) else i).
  assert (Hi' : 0 <= i' < Z.of_nat (length xs)).
  { unfold i'. destruct (i <? 0) eqn:Hneg; [apply Z.ltb_lt in Hneg | apply Z.ltb_ge in Hneg]; lia. }
  replace ((0 <=? i') && (i' <? Z.of_nat (length xs))) with true
    by (symmetry; apply andb_true_iff; split; [apply Z.leb_le | apply Z.ltb_lt]; lia).
  destruct (lookup_lt_is_Some_2 xs (Z.to_nat i')) as [x Hx]; [lia|].
  rewrite Hx. exists x. auto.
Qed.

Lemma index_out_of_bounds {A : Type} (xs : list A) (i : Z) :
  ~ (- Z.of_nat (length xs) <= i < Z.of_nat (length xs)) -> index xs i = Raise IndexError.
Proof.
  intros Hi. unfold index.
  set (i' := if i <? 0 then i + Z.of_nat (length xs) else i).
  assert (Hi' : ~ (0 <= i' < Z.of_nat (length xs))).
  { unfold i'. destruct (i <? 0) eqn:Hneg; [apply Z.ltb_lt in Hneg | apply Z.ltb_ge in Hneg]; lia. }
  destruct ((0 <=? i') && (i' <? Z.of_nat (length xs))) eqn:Hin; [|reflexivity].
  apply andb_true_iff in Hin as [H1%Z.leb_le H2%Z.ltb_lt]. lia.
Qed.

Lemma index_succeeds {A : Type} (xs : list A) (i : Z) (x : A) :
  index xs i = Ok x ->
  - Z.of_nat (length xs) <= i < Z.of_nat (length xs) /\
  xs !! Z.to_nat (position (Z.of_nat (length xs)) i) = Some x.
Proof.
  intros Hx.
  destruct (decide (- Z.of_nat (length xs) <= i < Z.of_nat (length xs))) as [Hi|Hi].
  - split; [exact Hi|]. destruct (index_in_bounds xs i Hi) as (y & Hy & Hlook). congruence.
  - rewrite (index_out_of_bounds xs i Hi) in Hx. discriminate.
Qed.

Section Deforum.
Context (total_frames : Z) (parsed : gmap string (list float)).
Hypothesis parsed_lengths :
  forall param values, parsed !! param = Some values -> length values = Z.to_nat total_frames.

Lemma scheduled_length (param : string) (fallback : float) :
  length (match parsed !! param with
          | Some values => values
          | None => replicate (Z.to_nat total_frames) fallback
          end) = Z.to_nat total_frames.
Proof.
  destruct (parsed !! param) as [values|] eqn:Hlook.
  - apply (parsed_lengths _ _ Hlook).
  - apply length_replicate.
Qed.

Lemma scheduled_in_bounds (param : string) (fallback : float) (frame : Z) :
  - Z.max 0 total_frames <= frame < Z.max 0 total_frames ->
  exists v, scheduled parsed param fallback total_frames frame = Ok v.
Proof.
  intros Hframe. unfold scheduled.
  destruct (index_in_bounds (match parsed !! param with
                             | Some values => values
                             | None => replicate (Z.to_nat total_frames) fallback
                             end) frame) as (v & Hv & _).
  - rewrite scheduled_length. lia.
  - exists v. exact Hv.
Qed.

Lemma scheduled_out_of_bounds (param : string) (fallback : float) (frame : Z) :
  ~ (- Z.max 0 total_frames <= frame < Z.max 0 total_frames) ->
  scheduled parsed param fallback total_frames frame = Raise IndexError.
Proof.
  intros Hframe. unfold scheduled. apply index_out_of_bounds.
  rewrite scheduled_length. lia.
Qed.

Lemma scheduled_keyframe_in_bounds (change : Z * string) :
  - Z.max 0 total_frames <= fst change < Z.max 0 total_frames ->
  exists kf, scheduled_keyframe parsed total_frames change = Ok kf.
Proof.
  intros Hframe. unfold scheduled_keyframe. cbv zeta.
  destruct (scheduled_in_bounds "zoom" 1.0 _ Hframe) as [v1 ->].
  destruct (scheduled_in_bounds "angle" 0.0 _ Hframe) as [v2 ->].
  destruct (scheduled_in_bounds "translation_x" 0.0 _ Hframe) as [v3 ->].
  destruct (scheduled_in_bounds "translation_y" 0.0 _ Hframe) as [v4 ->].
  destruct (scheduled_in_bounds "translation_z" 0.0 _ Hframe) as [v5 ->].
  destruct (scheduled_in_bounds "rotation_3d_x" 0.0 _ Hframe) as [v6 ->].
  destruct (scheduled_in_bounds "rotation_3d_y" 0.0 _ Hframe) as [v7 ->].
  destruct (scheduled_in_bounds "rotation_3d_z" 0.0 _ Hframe) as [v8 ->].
  eexists. reflexivity.
Qed.

Lemma scheduled_keyframe_out_of_bounds (change : Z * string) :
  ~ (- Z.max 0 total_frames <= fst change < Z.max 0 total_frames) ->
  scheduled_keyframe parsed total_frames change = Raise IndexError.
Proof.
  intros Hframe. unfold scheduled_keyframe. cbv zeta.
  rewrite (scheduled_out_of_bounds "zoom" 1.0 _ Hframe). reflexivity.
Qed.

(** What a keyframe that was built holds. *)
Lemma scheduled_keyframe_fields (change : Z * string) (kf : KF.t) :
  scheduled_keyframe parsed total_frames change = Ok kf ->
  KF.frame kf = fst change /\ KF.prompt kf = snd change /\
  Forall (fun '(param, field, fallback) =>
            scheduled parsed param fallback total_frames (fst change) = Ok (field kf))
         scheduled_fields /\
  KF.negative_prompt kf = "" /\ KF.strength kf = 0.75%float /\ KF.seed kf = -1.
Proof.
  unfold scheduled_keyframe. cbv zeta. intros Hrun.
  destruct (scheduled parsed "zoom" _ _ _) as [v1|] eqn:H1; [|discriminate].
  destruct (scheduled parsed "angle" _ _ _) as [v2|] eqn:H2; [|discriminate].
  destruct (scheduled parsed "translation_x" _ _ _) as [v3|] eqn:H3; [|discriminate].
  destruct (scheduled parsed "translation_y" _ _ _) as [v4|] eqn:H4; [|discriminate].
  destruct (scheduled parsed "translation_z" _ _ _) as [v5|] eqn:H5; [|discriminate].
  destruct (scheduled parsed "rotation_3d_x" _ _ _) as [v6|] eqn:H6; [|discriminate].
  destruct (scheduled parsed "rotation_3d_y" _ _ _) as [v7|] eqn:H7; [|discriminate].
  destruct (scheduled parsed "rotation_3d_z" _ _ _) as [v8|] eqn:H8; [|discriminate].
  simpl in Hrun. injection Hrun as <-. simpl.
  split; [reflexivity|]. split; [reflexivity|].
  split; [|auto].
  repeat (constructor; [assumption|]). constructor.
Qed.
End Deforum.

Lemma parse_schedules_empty_lengths (camera_movements : list (string * string))
    (total_frames : Z) (parsed : gmap string (list float)) :
  parse_schedules camera_movements total_frames ∅ = Ok parsed ->
  forall param values, parsed !! param = Some values -> length values = Z.to_nat total_frames.
Proof.
  intros Hrun. apply (parse_schedules_lengths _ _ _ _ Hrun).
  intros param values Hlook. rewrite lookup_empty in Hlook. discriminate.
Qed.

Lemma sorted_changes_ascending (prompt_changes : gmap Z string) :
  StronglySorted Z.lt (map fst (sorted fst (map_to_list prompt_changes))).
Proof.
  apply ascending_keys; [apply sorted_ascending|].
  rewrite (sorted_permutation fst (map_to_list prompt_changes)).
  apply NoDup_fst_map_to_list.
Qed.

Lemma for_each_elem_forward {A B : Type} (f : A -> result B) (xs : list A) (ys : list B)
    (x : A) :
  for_each f xs = Ok ys -> x ∈ xs -> exists y, y ∈ ys /\ f x = Ok y.
Proof.
  intros Hrun Hx. apply list_elem_of_lookup in Hx as [i Hi].
  destruct (for_each_lookup _ _ _ _ _ Hrun Hi) as (y & Hy & Hfx).
  exists y. split; [apply (list_elem_of_lookup_2 _ _ _ Hy) | exact Hfx].
Qed.

Lemma parse_schedules_succeeds (camera_movements : list (string * string))
    (total_frames : Z) (parsed0 : gmap string (list float)) :
  Forall (fun item => exists values, parse_schedule_string (snd item) total_frames = Ok values)
         camera_movements ->
  exists parsed, parse_schedules camera_movements total_frames parsed0 = Ok parsed.
Proof.
  intros Hall. revert parsed0.
  induction Hall as [|[param text] rest [values Hvalues] _ IH]; intros parsed0; simpl.
  - exists parsed0. reflexivity.
  - simpl in Hvalues. rewrite Hvalues. simpl. apply IH.
Qed.

Lemma parse_schedules_fails (before after : list (string * string)) (param text : string)
    (total_frames : Z) (parsed0 : gmap string (list float)) (e : exn) :
  Forall (fun item => exists values, parse_schedule_string (snd item) total_frames = Ok values)
         before ->
  parse_schedule_string text total_frames = Raise e ->
  parse_schedules (before ++ (param, text) :: after) total_frames parsed0 = Raise e.
Proof.
  intros Hall Hfail. revert parsed0.
  induction Hall as [|[name text'] rest [values Hvalues] _ IH]; intros parsed0; simpl.
  - rewrite Hfail. reflexivity.
  - simpl in Hvalues. rewrite Hvalues. simpl. apply IH.
Qed.

(** X4. The keyframes that come back are listed by strictly ascending
    frame, one for each prompt change: the keyframe of frame [f] has the
    prompt given for [f], and every prompt change has its keyframe. *)
Theorem deforum_keyframes_follow_prompt_changes (total_frames : Z)
    (prompt_changes : gmap Z string) (camera_movements : list (string * string))
    (keyframes : list KF.t) :
  create_deforum_animation_schedule total_frames prompt_changes camera_movements
    = Ok keyframes ->
  length keyframes = size prompt_changes /\
  StronglySorted Z.lt (map KF.frame keyframes) /\
  (forall kf, kf ∈ keyframes -> prompt_changes !! KF.frame kf = Some (KF.prompt kf)) /\
  (forall frame prompt, prompt_changes !! frame = Some prompt ->
     exists kf, kf ∈ keyframes /\ KF.frame kf = frame /\ KF.prompt kf = prompt).
Proof.
  unfold create_deforum_animation_schedule. intros Hrun.
  destruct (parse_schedules camera_movements total_frames ∅) as [parsed|]; [|discriminate].
  simpl in Hrun.
  assert (Hframes : map KF.frame keyframes = map fst (sorted fst (map_to_list prompt_changes))).
  { apply (for_each_map _ _ _ _ _
             (fun x y Hxy => proj1 (scheduled_keyframe_fields _ _ x y Hxy)) Hrun). }
  split.
  { rewrite (for_each_length _ _ _ Hrun), (sorted_permutation fst (map_to_list prompt_changes)).
    apply length_map_to_list. }
  split; [rewrite Hframes; apply sorted_changes_ascending|].
  split.
  - intros kf Hkf. destruct (for_each_elem _ _ _ _ Hrun Hkf) as ([frame prompt] & Hin & Hbuilt).
    destruct (scheduled_keyframe_fields _ _ _ _ Hbuilt) as (-> & -> & _).
    apply sorted_elem, elem_of_map_to_list in Hin. exact Hin.
  - intros frame prompt Hlook.
    assert (Hin : (frame, prompt) ∈ sorted fst (map_to_list prompt_changes))
      by (apply sorted_elem, elem_of_map_to_list; exact Hlook).
    destruct (for_each_elem_forward _ _ _ _ Hrun Hin) as (kf & Hkf & Hbuilt).
    destruct (scheduled_keyframe_fields _ _ _ _ Hbuilt) as (Hf & Hp & _).
    exists kf. auto.
Qed.

Lemma deforum_keyframes_follow_prompt_changes_witness :
  let keyframes :=
    [KF.set_zoom 1.0 (KF.default 0 "day"); KF.set_zoom 1.5 (KF.default 5 "night")] in
  let prompt_changes : gmap Z string := {[ 5 := "night"; 0 := "day" ]} in
  length keyframes = size prompt_changes /\
  StronglySorted Z.lt (map KF.frame keyframes) /\
  (forall kf, kf ∈ keyframes -> prompt_changes !! KF.frame kf = Some (KF.prompt kf)) /\
  (forall frame prompt, prompt_changes !! frame = Some prompt ->
     exists kf, kf ∈ keyframes /\ KF.frame kf = frame /\ KF.prompt kf = prompt).
Proof.
  apply (deforum_keyframes_follow_prompt_changes 11 {[ 5 := "night"; 0 := "day" ]}
           [("zoom", "0:(1.0), 10:(2.0)")]).
  vm_compute. reflexivity.
Defined.

(** X5. A keyframe reads each of its eight scheduled fields from the
    schedule given under the field's name, at the keyframe's own frame (for a
    negative frame, at the position Python's indexing gives it); a field
    with no schedule takes 1.0 for [zoom] and 0.0 otherwise. Negative
    prompt, strength and seed are the defaults of the dataclass. *)
Theorem deforum_keyframes_read_the_schedules (total_frames : Z)
    (prompt_changes : gmap Z string) (camera_movements : list (string * string))
    (keyframes : list KF.t) (kf : KF.t) :
  create_deforum_animation_schedule total_frames prompt_changes camera_movements
    = Ok keyframes ->
  NoDup (map fst camera_movements) ->
  kf ∈ keyframes ->
  Forall (fun '(param, field, fallback) =>
            (forall schedule_str points,
               (param, schedule_str) ∈ camera_movements ->
               schedule_points schedule_str = Ok points ->
               schedule_value points (position total_frames (KF.frame kf)) = Ok (field kf)) /\
            (param ∉ map fst camera_movements -> field kf = fallback))
         scheduled_fields /\
  KF.negative_prompt kf = "" /\ KF.strength kf = 0.75%float /\ KF.seed kf = -1.
Proof.
  unfold create_deforum_animation_schedule. intros Hrun Hnodup Hkf.
  destruct (parse_schedules camera_movements total_frames ∅) as [parsed|] eqn:Hparsed;
    [|discriminate].
  simpl in Hrun.
  destruct (for_each_elem _ _ _ _ Hrun Hkf) as (change & _ & Hbuilt).
  destruct (scheduled_keyframe_fields _ _ _ _ Hbuilt) as (Hframe & _ & Hfields & Hrest).
  split; [|exact Hrest].
  eapply Forall_impl; [exact Hfields|].
  intros [[param field] fallback] Hread. rewrite <- Hframe in Hread.
  unfold scheduled in Hread. split.
  - intros schedule_str points Hin Hpoints.
    destruct (proj2 (parse_schedules_lookup _ _ _ _ param Hparsed) schedule_str Hnodup Hin)
      as (values & Hvalues & Hlook).
    rewrite Hlook in Hread. apply index_succeeds in Hread as [Hbounds Hat].
    assert (Hlen : length values = Z.to_nat total_frames)
      by apply (parse_schedules_empty_lengths _ _ _ Hparsed _ _ Hlook).
    assert (Hn : Z.of_nat (length values) = total_frames) by lia.
    rewrite Hn in Hat, Hbounds.
    unfold parse_schedule_string in Hvalues. rewrite Hpoints in Hvalues. simpl in Hvalues.
    assert (Hpos : 0 <= position total_frames (KF.frame kf) < total_frames).
    { unfold position. destruct (KF.frame kf <? 0) eqn:Hneg;
        [apply Z.ltb_lt in Hneg | apply Z.ltb_ge in Hneg]; lia. }
    assert (Hrange : range total_frames !! Z.to_nat (position total_frames (KF.frame kf))
                     = Some (position total_frames (KF.frame kf))).
    { rewrite range_lookup by lia. f_equal. lia. }
    destruct (for_each_lookup _ _ _ _ _ Hvalues Hrange) as (v & Hv & Hvalue).
    congruence.
  - intros Hnot.
    rewrite (proj1 (parse_schedules_lookup _ _ _ _ param Hparsed) Hnot), lookup_empty in Hread.
    apply index_succeeds in Hread as [_ Hat].
    apply lookup_replicate in Hat as [Hat _]. congruence.
Qed.

Lemma deforum_keyframes_read_the_schedules_witness :
  let kf := KF.set_zoom 1.5 (KF.default 5 "night") in
  Forall (fun '(param, field, fallback) =>
            (forall schedule_str points,
               (param, schedule_str) ∈ [("zoom", "0:(1.0), 10:(2.0)")] ->
               schedule_points schedule_str = Ok points ->
               schedule_value points (position 11 (KF.frame kf)) = Ok (field kf)) /\
            (param ∉ map fst [("zoom", "0:(1.0), 10:(2.0)")] -> field kf = fallback))
         scheduled_fields /\
  KF.negative_prompt kf = "" /\ KF.strength kf = 0.75%float /\ KF.seed kf = -1.
Proof.
  apply (deforum_keyframes_read_the_schedules 11 {[ 5 := "night"; 0 := "day" ]}
           [("zoom", "0:(1.0), 10:(2.0)")]
           [KF.set_zoom 1.0 (KF.default 0 "day"); KF.set_zoom 1.5 (KF.default 5 "night")]).
  - vm_compute. reflexivity.
  - repeat constructor. rewrite elem_of_nil. tauto.
  - right. left.
Defined.

(** X6. When every schedule parses, the prompt changes decide the
    outcome: keyframes are built exactly when every frame of a prompt change
    is a valid index of a list of [total_frames] values, negative indices
    included ([-n <= frame < n] with [n] the frame count, 0 if negative);
    one frame outside this range fails the call with [IndexError]. *)
Theorem deforum_prompt_frames_are_indices (total_frames : Z)
    (prompt_changes : gmap Z string) (camera_movements : list (string * string)) :
  Forall (fun item => exists values, parse_schedule_string (snd item) total_frames = Ok values)
         camera_movements ->
  let n := Z.max 0 total_frames in
  ((forall frame prompt, prompt_changes !! frame = Some prompt -> - n <= frame < n) ->
   exists keyframes,
     create_deforum_animation_schedule total_frames prompt_changes camera_movements
       = Ok keyframes) /\
  (forall frame prompt,
     prompt_changes !! frame = Some prompt -> ~ (- n <= frame < n) ->
     create_deforum_animation_schedule total_frames prompt_changes camera_movements
       = Raise IndexError).
Proof.
  intros Hall n. unfold create_deforum_animation_schedule.
  destruct (parse_schedules_succeeds _ _ ∅ Hall) as [parsed Hparsed]. rewrite Hparsed. simpl.
  pose proof (parse_schedules_empty_lengths _ _ _ Hparsed) as Hlengths.
  split.
  - intros Hframes. apply for_each_succeeds, Forall_forall.
    intros [frame prompt] Hin. apply scheduled_keyframe_in_bounds; [exact Hlengths|].
    apply sorted_elem, elem_of_map_to_list in Hin. apply (Hframes _ _ Hin).
  - intros frame prompt Hlook Hout. apply for_each_all_fail.
    + intros change _.
      destruct (decide (- n <= fst change < n)) as [Hin|Hnot].
      * right. apply scheduled_keyframe_in_bounds; assumption.
      * left. apply scheduled_keyframe_out_of_bounds; assumption.
    + exists (frame, prompt). split.
      * apply sorted_elem, elem_of_map_to_list. exact Hlook.
      * apply scheduled_keyframe_out_of_bounds; assumption.
Qed.

Lemma deforum_prompt_frames_are_indices_witness :
  ((forall frame prompt,
      ({[ 120 := "night" ]} : gmap Z string) !! frame = Some prompt ->
      - Z.max 0 120 <= frame < Z.max 0 120) ->
   exists keyframes,
     create_deforum_animation_schedule 120 {[ 120 := "night" ]}
       [("zoom", "0:(1.00), 120:(1.10)")] = Ok keyframes) /\
  (forall frame prompt,
     ({[ 120 := "night" ]} : gmap Z string) !! frame = Some prompt ->
     ~ (- Z.max 0 120 <= frame < Z.max 0 120) ->
     create_deforum_animation_schedule 120 {[ 120 := "night" ]}
       [("zoom", "0:(1.00), 120:(1.10)")] = Raise IndexError).
Proof.
  apply (deforum_prompt_frames_are_indices 120 {[ 120 := "night" ]}
           [("zoom", "0:(1.00), 120:(1.10)")]).
  repeat constructor. simpl.
  destruct (parse_schedule_string_values "0:(1.00), 120:(1.10)" 120
              [(0, 1.0%float); (120, 1.1%float)]) as (values & Hvalues & _).
  - vm_compute. reflexivity.
  - discriminate.
  - exists values. exact Hvalues.
Defined.

(** X7. The schedules are parsed before any keyframe is built, every
    one of them, whatever its name: the first schedule that fails to parse
    fails the call with its own error, also when there is no prompt change
    and when no keyframe field goes by the schedule's name. *)
Theorem deforum_schedule_errors_come_first (total_frames : Z)
    (prompt_changes : gmap Z string) (before after : list (string * string))
    (param schedule_str : string) (e : exn) :
  Forall (fun item => exists values, parse_schedule_string (snd item) total_frames = Ok values)
         before ->
  parse_schedule_string schedule_str total_frames = Raise e ->
  create_deforum_animation_schedule total_frames prompt_changes
    (before ++ (param, schedule_str) :: after) = Raise e.
Proof.
  intros Hall Hfail. unfold create_deforum_animation_schedule.
  rewrite (parse_schedules_fails before after param schedule_str total_frames ∅ e Hall Hfail).
  reflexivity.
Qed.

Lemma deforum_schedule_errors_come_first_witness :
  create_deforum_animation_schedule 10 ∅ ([] ++ [("wobble", "0:(fast)")])
  = Raise (ValueError (could_not_convert_string_to_float "fast")).
Proof.
  apply (deforum_schedule_errors_come_first 10 ∅ [] [] "wobble" "0:(fast)").
  - constructor.
  - vm_compute. reflexivity.
Defined.
(** ** Picking or building a keyframe *)

Lemma deref_all_valid (keyframes : list loc) (s : animator) :
  Forall (fun l => is_Some (heap s !! l)) keyframes ->
  exists objects, deref_all keyframes s = (Ok objects, s) /\ map fst objects = keyframes.
Proof.
  induction 1 as [|l ls [kf Hkf] _ (objects & Hrun & Hlocs)].
  - exists []. split; reflexivity.
  - exists ((l, kf) :: objects). simpl. unfold mbind, M_bind, deref at 1. rewrite Hkf, Hrun.
    split; [reflexivity|]. simpl. f_equal. exact Hlocs.
Qed.

(** X8. Over keyframes that exist, [_get_keyframe_at_frame] always
    returns, and it assigns to no object: it hands back either one of the
    objects of the list, leaving everything as it is, or a keyframe it
    constructs for the index. In particular keyframes that share a frame
    cause no division by zero. *)
Theorem get_keyframe_picks_or_builds (s : animator) (frame_idx : Z) (keyframes : list loc) :
  Forall (fun l => is_Some (heap s !! l)) keyframes ->
  exists (l : loc) (s' : animator),
    _get_keyframe_at_frame frame_idx keyframes s = (Ok l, s') /\
    ((l ∈ keyframes /\ s' = s) \/
     (exists kf, KF.frame kf = frame_idx /\ l = length (heap s) /\
                 s' = mk_animator (heap s ++ [kf]) (previous_frames s) (calls s))).
Proof.
  intros Hvalid. destruct keyframes as [|first rest].
  - eexists _, _. split; [reflexivity|]. right. eexists. split; [|split; reflexivity].
    reflexivity.
  - destruct (deref_all_valid _ _ Hvalid) as (objects & Hread & Hlocs).
    destruct (last (filter (fun o => frame_of o <= frame_idx) (sorted frame_of objects)))
      as [before|] eqn:Hb.
    + rewrite (get_keyframe_found _ _ _ _ _ Hread Hb).
      assert (Hbin : fst before ∈ first :: rest).
      { rewrite <- Hlocs. apply list_elem_of_fmap. exists before. split; [reflexivity|].
        apply last_Some_elem_of, list_elem_of_filter in Hb as [_ Hb].
        apply sorted_elem in Hb. exact Hb. }
      destruct (head (filter (fun o => frame_idx < frame_of o) (sorted frame_of objects)))
        as [after|] eqn:Ha.
      * apply last_Some_elem_of, list_elem_of_filter in Hb as [Hble _].
        apply head_Some_elem_of, list_elem_of_filter in Ha as [Halt _].
        destruct (truediv_fraction (frame_idx - frame_of before)
                    (frame_of after - frame_of before)) as [t Ht]; [lia|].
        rewrite Ht. eexists _, _. split; [reflexivity|]. right.
        eexists. split; [|split; reflexivity]. reflexivity.
      * eexists _, _. split; [reflexivity|]. left. split; [exact Hbin | reflexivity].
    + exists first, s. split; [|left; split; [left | reflexivity]].
      unfold _get_keyframe_at_frame. unfold mbind at 1. unfold M_bind at 1.
      rewrite Hread, find_surrounding_found, Hb. reflexivity.
Qed.

Lemma get_keyframe_picks_or_builds_witness :
  let s := mk_animator [KF.default 4 "a"; KF.default 4 "b"; KF.default 9 "c"] [] [] in
  exists (l : loc) (s' : animator),
    _get_keyframe_at_frame 6 [0; 1; 2]%nat s = (Ok l, s') /\
    ((l ∈ [0; 1; 2]%nat /\ s' = s) \/
     (exists kf, KF.frame kf = 6 /\ l = length (heap s) /\
                 s' = mk_animator (heap s ++ [kf]) (previous_frames s) (calls s))).
Proof.
  apply (get_keyframe_picks_or_builds
           (mk_animator [KF.default 4 "a"; KF.default 4 "b"; KF.default 9 "c"] [] [])
           6 [0; 1; 2]%nat).
  repeat constructor; eexists; reflexivity.
Defined.

(** X9. At an index that lies before every keyframe the result is
    [keyframes[0]], the object listed first, whatever its frame: when the
    list is not in the order of the frames this is not the earliest
    keyframe. Nothing is constructed and nothing changes. *)
Theorem first_listed_keyframe_before_all (s : animator) (frame_idx : Z)
    (first : loc) (rest : list loc) (objects : list (loc * KF.t)) :
  deref_all (first :: rest) s = (Ok objects, s) ->
  Forall (fun o => frame_idx < frame_of o) objects ->
  _get_keyframe_at_frame frame_idx (first :: rest) s = (Ok first, s).
Proof.
  intros Hread Hlater.
  unfold _get_keyframe_at_frame. unfold mbind at 1. unfold M_bind at 1. rewrite Hread.
  assert (Hnone : fst (find_surrounding frame_of frame_idx (sorted frame_of objects) None None)
                  = None).
  { apply find_surrounding_all_later. apply Forall_forall. intros o Ho.
    apply sorted_elem in Ho. rewrite Forall_forall in Hlater. apply (Hlater o Ho). }
  destruct (find_surrounding _ _ _ _ _) as [before after]. simpl in Hnone. subst before.
  reflexivity.
Qed.

(** Keyframes listed at frames 10 and 5: at index 0 the one of frame 10 is
    returned. *)
Lemma first_listed_keyframe_before_all_witness :
  _get_keyframe_at_frame 0 [0; 1]%nat
    (mk_animator [KF.default 10 "late"; KF.default 5 "early"] [] [])
  = (Ok 0%nat, mk_animator [KF.default 10 "late"; KF.default 5 "early"] [] []).
Proof.
  apply (first_listed_keyframe_before_all
           (mk_animator [KF.default 10 "late"; KF.default 5 "early"] [] []) 0 0%nat [1%nat]
           [(0%nat, KF.default 10 "late"); (1%nat, KF.default 5 "early")]).
  - reflexivity.
  - repeat constructor; unfold frame_of; simpl; lia.
Defined.

(** X10. A keyframe built between two keyframes carries none of their
    perspective-flip angles and none of their noise schedule, colour
    coherence, diffusion cadence and optical-flow cadence: the constructor
    call passes none of these fields, so they take the defaults of the
    dataclass whatever the surrounding keyframes hold. *)
Theorem built_keyframe_has_default_settings (s : animator) (frame_idx : Z)
    (keyframes : list loc) (objects : list (loc * KF.t)) :
  deref_all keyframes s = (Ok objects, s) ->
  Exists (fun o => frame_of o <= frame_idx) objects ->
  Exists (fun o => frame_idx < frame_of o) objects ->
  exists kf' : KF.t,
    _get_keyframe_at_frame frame_idx keyframes s =
      (Ok (length (heap s)), mk_animator (heap s ++ [kf']) (previous_frames s) (calls s)) /\
    KF.frame kf' = frame_idx /\
    has_default_settings kf'.
Proof.
  intros Hread Hearlier Hlater.
  destruct (last (filter (fun o => frame_of o <= frame_idx) (sorted frame_of objects)))
    as [before|] eqn:Hb.
  2:{ exfalso. apply last_None in Hb. revert Hb.
      apply Exists_exists in Hearlier as (o & Ho & Hle).
      apply (filter_some _ _ o); [apply sorted_elem; exact Ho | exact Hle]. }
  destruct (head (filter (fun o => frame_idx < frame_of o) (sorted frame_of objects)))
    as [after|] eqn:Ha.
  2:{ exfalso. apply head_None in Ha. revert Ha.
      apply Exists_exists in Hlater as (o & Ho & Hlt).
      apply (filter_some _ _ o); [apply sorted_elem; exact Ho | exact Hlt]. }
  pose proof (get_keyframe_found _ _ _ _ _ Hread Hb) as Hrun. rewrite Ha in Hrun.
  apply last_Some_elem_of, list_elem_of_filter in Hb as [Hble _].
  apply head_Some_elem_of, list_elem_of_filter in Ha as [Halt _].
  destruct (truediv_fraction (frame_idx - frame_of before) (frame_of after - frame_of before))
    as [t Ht]; [lia|].
  rewrite Ht in Hrun.
  exists (interpolated frame_idx (snd before) (snd after) t).
  split; [exact Hrun|]. split; [reflexivity|]. repeat split.
Qed.

Lemma built_keyframe_has_default_settings_witness :
  let flipped :=
    {| KF.frame := 0; KF.prompt := "a"; KF.negative_prompt := "";
       KF.strength := 0.75; KF.seed := -1; KF.zoom := 1.0; KF.angle := 0.0;
       KF.translation_x := 0.0; KF.translation_y := 0.0; KF.translation_z := 0.0;
       KF.rotation_3d_x := 0.0; KF.rotation_3d_y := 0.0; KF.rotation_3d_z := 0.0;
       KF.perspective_flip_theta := 30.0; KF.perspective_flip_phi := 20.0;
       KF.perspective_flip_gamma := 10.0;
       KF.noise_schedule := "0:(0.5)"; KF.color_coherence := "None";
       KF.diffusion_cadence := 4; KF.optical_flow_cadence := "RAFT" |} in
  let s := mk_animator [flipped; KF.default 10 "b"] [] [] in
  exists kf' : KF.t,
    _get_keyframe_at_frame 5 [0; 1]%nat s =
      (Ok (length (heap s)), mk_animator (heap s ++ [kf']) (previous_frames s) (calls s)) /\
    KF.frame kf' = 5 /\
    has_default_settings kf'.
Proof.
  intros flipped s.
  apply (built_keyframe_has_default_settings s 5 [0; 1]%nat
           [(0%nat, flipped); (1%nat, KF.default 10 "b")]).
  - reflexivity.
  - apply Exists_cons_hd. unfold frame_of. simpl. lia.
  - apply Exists_cons_tl, Exists_cons_hd. unfold frame_of. simpl. lia.
Defined.
(** ** What the methods leave as it was *)

Lemma bind_returns {A B : Type} (m : M A) (f : A -> M B) (s s' : animator) (b : B) :
  (m ≫= f) s = (Ok b, s') -> exists a s1, m s = (Ok a, s1) /\ f a s1 = (Ok b, s').
Proof.
  unfold mbind, M_bind. destruct (m s) as [[a|e] s1]; [|discriminate].
  intros Hf. exists a, s1. auto.
Qed.

Section Preserves.
Context (R : animator -> animator -> Prop) `{!PreOrder R}.

Lemma preserves_unchanged {A : Type} (m : M A) :
  (forall s, snd (m s) = s) -> preserves R m.
Proof. intros Hm s. rewrite Hm. reflexivity. Qed.

Lemma preserves_ret {A : Type} (a : A) : preserves R (mret a).
Proof. apply preserves_unchanged. reflexivity. Qed.

Lemma preserves_lift {A : Type} (r : result A) : preserves R (lift r).
Proof. apply preserves_unchanged. reflexivity. Qed.

Lemma preserves_deref (l : loc) : preserves R (deref l).
Proof. apply preserves_unchanged. reflexivity. Qed.

Lemma preserves_get_previous_frames : preserves R get_previous_frames.
Proof. apply preserves_unchanged. reflexivity. Qed.

Lemma preserves_bind {A B : Type} (m : M A) (f : A -> M B) :
  preserves R m -> (forall a, preserves R (f a)) -> preserves R (m ≫= f).
Proof.
  intros Hm Hf s. unfold mbind, M_bind. specialize (Hm s).
  destruct (m s) as [[a|e] s1]; simpl in *; [|exact Hm].
  transitivity s1; [exact Hm | apply Hf].
Qed.

Lemma preserves_deref_all (ls : list loc) : preserves R (deref_all ls).
Proof.
  induction ls as [|l ls IH]; simpl; [apply preserves_ret|].
  apply preserves_bind; [apply preserves_deref|]. intros kf.
  apply preserves_bind; [exact IH|]. intros rest. apply preserves_ret.
Qed.
End Preserves.

#[local] Instance objects_kept_preorder : PreOrder objects_kept.
Proof.
  split.
  - intros s. unfold objects_kept. reflexivity.
  - intros s1 s2 s3. unfold objects_kept. intros H1 H2. etransitivity; eassumption.
Qed.

#[local] Instance previous_frames_kept_preorder : PreOrder previous_frames_kept.
Proof.
  split.
  - intros s. reflexivity.
  - intros s1 s2 s3. unfold previous_frames_kept. congruence.
Qed.

#[local] Instance only_calls_made_preorder : PreOrder only_calls_made.
Proof.
  split.
  - intros s. split; reflexivity.
  - intros s1 s2 s3 [H1 H2] [H3 H4]. split; congruence.
Qed.

Lemma only_calls_made_objects_kept {A : Type} (m : M A) :
  preserves only_calls_made m -> preserves objects_kept m.
Proof. intros Hm s. destruct (Hm s) as [Hheap _]. unfold objects_kept. rewrite Hheap. reflexivity. Qed.

Lemma only_calls_made_previous_frames_kept {A : Type} (m : M A) :
  preserves only_calls_made m -> preserves previous_frames_kept m.
Proof. intros Hm s. destruct (Hm s) as [_ Hprevious]. exact Hprevious. Qed.

Lemma only_calls_made_record (e : event) : preserves only_calls_made (record e).
Proof. intros s. split; reflexivity. Qed.

Lemma objects_kept_alloc (kf : KF.t) : preserves objects_kept (alloc kf).
Proof. intros s. unfold objects_kept. simpl. apply prefix_app_r. reflexivity. Qed.

Lemma previous_frames_kept_alloc (kf : KF.t) : preserves previous_frames_kept (alloc kf).
Proof. intros s. reflexivity. Qed.

Lemma previous_frames_kept_update (l : loc) (f : KF.t -> KF.t) :
  preserves previous_frames_kept (update l f).
Proof. intros s. unfold update. destruct (heap s !! l); reflexivity. Qed.

Lemma objects_kept_set_previous_frames (frames : list Image.t) :
  preserves objects_kept (set_previous_frames frames).
Proof. intros s. unfold objects_kept. reflexivity. Qed.

Section Methods.
Context `{Collaborators}.

Ltac preserves_step :=
  first
    [ apply preserves_ret; typeclasses eauto
    | apply preserves_lift; typeclasses eauto
    | apply preserves_deref; typeclasses eauto
    | apply preserves_get_previous_frames; typeclasses eauto
    | apply preserves_deref_all; typeclasses eauto
    | apply only_calls_made_record
    | apply objects_kept_alloc
    | apply previous_frames_kept_alloc
    | apply previous_frames_kept_update
    | apply objects_kept_set_previous_frames
    | apply preserves_bind; [typeclasses eauto | | intros ?]
    | match goal with
      | |- preserves _ (if ?c then _ else _) => destruct c
      | |- preserves _ (match ?x with _ => _ end) => destruct x
      end ].

(** [_generate_frame] reads the keyframe and [previous_frames]; it assigns
    to neither, whether it returns or raises. *)
Lemma generate_frame_only_calls (prev_image : Image.t) (frame_idx : Z) (keyframe : loc)
    (config : Cfg.t) :
  preserves only_calls_made (_generate_frame prev_image frame_idx keyframe config).
Proof. unfold _generate_frame. repeat preserves_step. Qed.

Lemma get_keyframe_objects_kept (frame_idx : Z) (keyframes : list loc) :
  preserves objects_kept (_get_keyframe_at_frame frame_idx keyframes).
Proof. unfold _get_keyframe_at_frame. repeat preserves_step. Qed.

Lemma get_keyframe_previous_frames_kept (frame_idx : Z) (keyframes : list loc) :
  preserves previous_frames_kept (_get_keyframe_at_frame frame_idx keyframes).
Proof. unfold _get_keyframe_at_frame. repeat preserves_step. Qed.

Lemma audio_reactivity_previous_frames_kept (keyframe : loc)
    (audio_params : gmap string (list float)) (frame_idx : Z) :
  preserves previous_frames_kept (_apply_audio_reactivity keyframe audio_params frame_idx).
Proof. unfold _apply_audio_reactivity. repeat preserves_step. Qed.

(** Without a series named [bass], [treble] or [energy] the modulation
    returns the keyframe it was given and touches nothing. *)
Lemma audio_reactivity_without_features (keyframe : loc)
    (audio_params : gmap string (list float)) (frame_idx : Z) (s : animator) :
  audio_params !! "bass" = None -> audio_params !! "treble" = None ->
  audio_params !! "energy" = None ->
  _apply_audio_reactivity keyframe audio_params frame_idx s = (Ok keyframe, s).
Proof. intros Hb Ht He. unfold _apply_audio_reactivity. rewrite Hb, Ht, He. reflexivity. Qed.

Section Loop.
Context (init_image : Image.t) (config : Cfg.t) (audio_params : gmap string (list float))
        (progress_callback : option (Z -> Z -> result unit)).

Lemma generate_step_objects_kept (frames : list Image.t) (frame_idx : Z) :
  audio_params !! "bass" = None -> audio_params !! "treble" = None ->
  audio_params !! "energy" = None ->
  preserves objects_kept
    (generate_step init_image config audio_params progress_callback frames frame_idx).
Proof.
  intros Hb Ht He. unfold generate_step.
  apply preserves_bind; [typeclasses eauto | |intros _].
  { destruct progress_callback; [|apply preserves_ret; typeclasses eauto].
    apply preserves_bind; [typeclasses eauto | |intros _].
    - apply only_calls_made_objects_kept, only_calls_made_record.
    - apply preserves_lift. typeclasses eauto. }
  apply preserves_bind; [typeclasses eauto | apply get_keyframe_objects_kept |intros keyframe].
  apply preserves_bind; [typeclasses eauto | |intros keyframe'].
  { destruct (bool_decide (audio_params = ∅)); [apply preserves_ret; typeclasses eauto|].
    apply preserves_unchanged; [typeclasses eauto|]. intros s.
    rewrite audio_reactivity_without_features by assumption. reflexivity. }
  apply preserves_bind; [typeclasses eauto | |intros prev_image].
  { destruct (frame_idx =? 0); [apply preserves_ret | apply preserves_lift]; typeclasses eauto. }
  apply preserves_bind; [typeclasses eauto | |intros frame].
  { apply only_calls_made_objects_kept, generate_frame_only_calls. }
  repeat preserves_step.
Qed.

Lemma generate_loop_objects_kept (indices : list Z) (frames : list Image.t) :
  audio_params !! "bass" = None -> audio_params !! "treble" = None ->
  audio_params !! "energy" = None ->
  preserves objects_kept
    (generate_loop init_image config audio_params progress_callback indices frames).
Proof.
  intros Hb Ht He. revert frames. induction indices as [|i rest IH]; intros frames; simpl.
  - apply preserves_ret. typeclasses eauto.
  - apply preserves_bind; [typeclasses eauto | |intros frames'; apply IH].
    apply generate_step_objects_kept; assumption.
Qed.

(** One iteration appends the frame it generated to [frames], and to
    [previous_frames], from which it drops the oldest frame when they are
    more than [temporal_layers]. *)
Lemma generate_step_appends (frames frames' : list Image.t) (frame_idx : Z)
    (s s' : animator) :
  generate_step init_image config audio_params progress_callback frames frame_idx s
    = (Ok frames', s') ->
  exists frame,
    frames' = frames ++ [frame] /\
    previous_frames s' =
      (if Cfg.temporal_layers config <? Z.of_nat (length (previous_frames s ++ [frame]))
       then tail (previous_frames s ++ [frame])
       else previous_frames s ++ [frame]).
Proof.
  unfold generate_step. intros Hrun.
  apply bind_returns in Hrun as ([] & s1 & Hcallback & Hrun).
  assert (H1 : previous_frames s1 = previous_frames s).
  { destruct progress_callback as [callback|]; [|injection Hcallback as <-; reflexivity].
    apply bind_returns in Hcallback as ([] & s0 & Hrecord & Hlift).
    injection Hrecord as <-. injection Hlift as _ <-. reflexivity. }
  apply bind_returns in Hrun as (keyframe & s2 & Hkeyframe & Hrun).
  assert (H2 : previous_frames s2 = previous_frames s1).
  { pose proof (get_keyframe_previous_frames_kept frame_idx (Cfg.keyframes config) s1) as Hk.
    rewrite Hkeyframe in Hk. exact Hk. }
  apply bind_returns in Hrun as (keyframe' & s3 & Hmodulated & Hrun).
  assert (H3 : previous_frames s3 = previous_frames s2).
  { destruct (bool_decide (audio_params = ∅)); [injection Hmodulated as _ <-; reflexivity|].
    pose proof (audio_reactivity_previous_frames_kept keyframe audio_params frame_idx s2) as Hk.
    rewrite Hmodulated in Hk. exact Hk. }
  apply bind_returns in Hrun as (prev_image & s4 & Hprev & Hrun).
  assert (H4 : s4 = s3).
  { destruct (frame_idx =? 0); [injection Hprev as _ <-; reflexivity|].
    unfold lift in Hprev. injection Hprev as _ <-. reflexivity. }
  subst s4.
  apply bind_returns in Hrun as (frame & s5 & Hframe & Hrun).
  assert (H5 : previous_frames s5 = previous_frames s3).
  { pose proof (generate_frame_only_calls prev_image frame_idx keyframe' config s3) as Hk.
    rewrite Hframe in Hk. apply Hk. }
  exists frame. unfold mbind, M_bind, get_previous_frames, set_previous_frames in Hrun.
  simpl in Hrun. injection Hrun as <- <-. split; [reflexivity|].
  simpl. rewrite H5, H3, H2, H1. reflexivity.
Qed.

Lemma window_step (frames : list Image.t) (frame : Image.t) :
  let L := Cfg.temporal_layers config in
  (if L <? Z.of_nat (length (window L frames ++ [frame]))
   then tail (window L frames ++ [frame])
   else window L frames ++ [frame]) = window L (frames ++ [frame]).
Proof.
  intros L. clearbody L. unfold window. rewrite !length_app, length_drop. simpl.
  destruct (L <? _) eqn:Hfull.
  - apply Z.ltb_lt in Hfull.
    assert (Hle : (Z.to_nat L <= length frames)%nat) by lia.
    destruct (Z.to_nat L) as [|k] eqn:Hk.
    + rewrite !Nat.sub_0_r, drop_all.
      replace (length frames + 1)%nat with (length (frames ++ [frame]))
        by (rewrite length_app; reflexivity).
      rewrite drop_all. reflexivity.
    + replace (length frames + 1 - S k)%nat with (length frames - S k + 1)%nat by lia.
      rewrite <- drop_drop, drop_app_le by lia.
      destruct (drop (length frames - S k) frames ++ [frame]); reflexivity.
  - apply Z.ltb_ge in Hfull.
    replace (length frames - Z.to_nat L)%nat with 0%nat by lia.
    replace (length frames + 1 - Z.to_nat L)%nat with 0%nat by lia.
    reflexivity.
Qed.

(** The loop keeps [previous_frames] the window of the frames generated. *)
Lemma generate_loop_window (indices : list Z) (frames frames' : list Image.t)
    (s s' : animator) :
  generate_loop init_image config audio_params progress_callback indices frames s
    = (Ok frames', s') ->
  previous_frames s = window (Cfg.temporal_layers config) frames ->
  length frames' = (length frames + length indices)%nat /\
  previous_frames s' = window (Cfg.temporal_layers config) frames'.
Proof.
  revert frames s. induction indices as [|i rest IH]; intros frames s Hrun Hwindow.
  - injection Hrun as <- <-. rewrite Nat.add_0_r. auto.
  - rewrite generate_loop_cons in Hrun.
    destruct (generate_step _ _ _ _ _ _ _) as [[frames1|e] s1] eqn:Hstep; [|discriminate].
    destruct (generate_step_appends _ _ _ _ _ Hstep) as (frame & -> & Hprevious).
    rewrite Hwindow, window_step in Hprevious.
    destruct (IH _ _ Hrun Hprevious) as [Hlength Hfinal].
    split; [|exact Hfinal]. rewrite Hlength, length_app. simpl. lia.
Qed.
End Loop.

(** *** Resampling the audio data *)

Lemma resampled_outcome (values : list float) (total_frames : Z) :
  resampled values total_frames =
  if total_frames <? 0
  then Raise (ValueError (number_of_samples_must_be_non_negative total_frames))
  else if bool_decide (values = [])
       then Raise (ValueError array_of_sample_points_is_empty)
       else Ok (resample values total_frames).
Proof. unfold resampled. destruct (total_frames <? 0), values; reflexivity. Qed.

(** What [_parse_audio_data] returns holds, under every name, the series
    of that name resampled. *)
Lemma parse_audio_data_returns (audio_data params : gmap string (list float))
    (total_frames : Z) :
  _parse_audio_data audio_data total_frames = Ok params ->
  params = (fun values => resample values total_frames) <$> audio_data.
Proof.
  unfold _parse_audio_data. intros Hrun.
  destruct (for_each _ (map_to_list audio_data)) as [items|e] eqn:Hitems; [|discriminate].
  simpl in Hrun. injection Hrun as <-.
  set (g := fun values : list float => resample values total_frames).
  assert (Hmap : items = map (prod_map (@Datatypes.id string) g) (map_to_list audio_data)).
  { rewrite <- (map_id items). revert Hitems. apply for_each_map.
    intros [name values] [name' values']. rewrite resampled_outcome. simpl.
    destruct (total_frames <? 0); [discriminate|].
    destruct (bool_decide (values = [])); [discriminate|]. intros [= <- <-]. reflexivity. }
  rewrite Hmap.
  transitivity (list_to_map (prod_map (@Datatypes.id string) g <$> map_to_list audio_data)
                : gmap string (list float)); [reflexivity|].
  rewrite list_to_map_fmap, list_to_map_to_list. reflexivity.
Qed.

(** With a negative frame count every series is refused. *)
Lemma parse_audio_data_negative (audio_data : gmap string (list float)) (total_frames : Z) :
  audio_data <> ∅ -> total_frames < 0 ->
  _parse_audio_data audio_data total_frames =
    Raise (ValueError (number_of_samples_must_be_non_negative total_frames)).
Proof.
  intros Hne Hn. unfold _parse_audio_data.
  rewrite (for_each_all_fail _ _
             (ValueError (number_of_samples_must_be_non_negative total_frames)));
    [reflexivity | |].
  - intros item _. left. rewrite resampled_outcome.
    destruct (Z.ltb_spec total_frames 0); [reflexivity | lia].
  - destruct (map_to_list audio_data) as [|item items] eqn:Hitems.
    + apply map_to_list_empty_iff in Hitems. contradiction.
    + exists item. split; [left|]. rewrite resampled_outcome.
      destruct (Z.ltb_spec total_frames 0); [reflexivity | lia].
Qed.

(** With a frame count that is not negative, an empty series is refused. *)
Lemma parse_audio_data_empty_series (audio_data : gmap string (list float))
    (total_frames : Z) (name : string) :
  0 <= total_frames -> audio_data !! name = Some [] ->
  _parse_audio_data audio_data total_frames =
    Raise (ValueError array_of_sample_points_is_empty).
Proof.
  intros Hn Hname. unfold _parse_audio_data.
  rewrite (for_each_all_fail _ _ (ValueError array_of_sample_points_is_empty));
    [reflexivity | |].
  - intros [name' values] _. rewrite resampled_outcome. simpl.
    destruct (Z.ltb_spec total_frames 0); [lia|].
    destruct (bool_decide (values = [])); [left | right; eexists]; reflexivity.
  - exists (name, []). split; [apply elem_of_map_to_list; exact Hname|].
    rewrite resampled_outcome. simpl.
    destruct (Z.ltb_spec total_frames 0); [lia | reflexivity].
Qed.

(** The other series are resampled. *)
Lemma parse_audio_data_succeeds (audio_data : gmap string (list float))
    (total_frames : Z) :
  0 <= total_frames ->
  (forall name values, audio_data !! name = Some values -> values <> []) ->
  _parse_audio_data audio_data total_frames =
    Ok ((fun values => resample values total_frames) <$> audio_data).
Proof.
  intros Hn Hfull.
  destruct (_parse_audio_data audio_data total_frames) as [params|e] eqn:Hrun.
  - rewrite (parse_audio_data_returns _ _ _ Hrun). reflexivity.
  - exfalso. unfold _parse_audio_data in Hrun.
    destruct (for_each_succeeds
                (fun item : string * list float =>
                   values ← resampled (snd item) total_frames; Ok (fst item, values))
                (map_to_list audio_data)) as [items Hitems].
    + apply Forall_forall. intros [name values] Hitem.
      apply elem_of_map_to_list in Hitem. rewrite resampled_outcome. simpl.
      destruct (Z.ltb_spec total_frames 0); [lia|].
      rewrite bool_decide_eq_false_2 by (apply (Hfull name), Hitem). eexists. reflexivity.
    + rewrite Hitems in Hrun. discriminate.
Qed.


(** X12. When the warp (and the alignment) return, the first frame of
    a run, for which there is no previous frame, and every diffused frame
    of a configuration with colour coherence ["None"] and a temporal
    strength that is not positive, is the output of the pipeline as it is:
    the calls made are the warp (with its alignment) and the pipeline, and
    what the pipeline raises is raised. *)
Theorem unprocessed_pipeline_output (prev_image : Image.t) (frame_idx : Z) (keyframe : loc)
    (config : Cfg.t) (s : animator) (kf : KF.t) (warped : Image.t) :
  heap s !! keyframe = Some kf ->
  Cfg.diffusion_cadence config <> 0 ->
  frame_idx mod Cfg.diffusion_cadence config = 0 ->
  previous_frames s = [] \/
    (Cfg.color_coherence config = "None" /\
     (0 <? Cfg.temporal_strength config)%float = false) ->
  warped_frame prev_image kf config (previous_frames s) = Ok warped ->
  let call := pipeline_arguments warped kf config in
  _generate_frame prev_image frame_idx keyframe config s =
  (pipeline call,
   mk_animator (heap s) (previous_frames s)
     (calls s ++ warp_calls frame_idx config (previous_frames s)
              ++ [pipeline_called frame_idx call])).
Proof.
  intros Hkf Hcadence Hmod Hcase Hwarped call.
  rewrite (generate_frame_warps _ _ _ _ _ _ Hkf). cbv zeta.
  destruct (warp prev_image kf config) as [warped0|e0] eqn:Hwarp;
    [|rewrite (warped_frame_raises _ _ _ _ _ Hwarp) in Hwarped; discriminate].
  rewrite Hwarped.
  unfold pymod. apply Z.eqb_neq in Hcadence. rewrite Hcadence, Hmod. simpl Z.eqb. cbv iota.
  unfold diffusion. fold call.
  assert (Hoff : negb (String.eqb (Cfg.color_coherence config) "None")
                   && (0 <? Z.of_nat (length (previous_frames s))) = false /\
                 (0 <? Cfg.temporal_strength config)%float
                   && (0 <? Z.of_nat (length (previous_frames s))) = false).
  { destruct Hcase as [Hnone | [Hcolor Hstrength]];
      [rewrite Hnone; simpl; rewrite !andb_false_r | rewrite Hcolor, Hstrength];
      split; reflexivity. }
  destruct Hoff as [-> ->].
  unfold mbind, M_bind, record, lift, mret, M_ret. simpl.
  rewrite <- app_assoc. destruct (pipeline call); reflexivity.
Qed.

(** X13. A run without audio data, or with audio data that has no
    series named [bass], [treble] or [energy], assigns to no keyframe: every
    object holds at the end what it held at the start, whether the run
    returns or raises. (Keyframes are constructed, none is modified.) *)
Theorem unmodulated_run_keeps_the_keyframes (init_image : Image.t) (config : Cfg.t)
    (audio_data : option (gmap string (list float)))
    (progress_callback : option (Z -> Z -> result unit)) (s : animator) :
  (forall features, audio_data = Some features ->
     features !! "bass" = None /\ features !! "treble" = None /\
     features !! "energy" = None) ->
  forall (l : loc) (kf : KF.t),
    heap s !! l = Some kf ->
    heap (snd (generate_animation init_image config audio_data progress_callback s)) !! l
      = Some kf.
Proof.
  intros Hfeatures l kf Hkf. rewrite generate_animation_run.
  destruct (ensure_pipeline config) as [[]|e]; [|exact Hkf].
  destruct (audio_params_of audio_data config) as [audio_params|e] eqn:Hparams; [|exact Hkf].
  assert (Hnone : forall name, name = "bass" \/ name = "treble" \/ name = "energy" ->
            audio_params !! name = None).
  { intros name Hname. unfold audio_params_of in Hparams.
    destruct audio_data as [features|];
      [|injection Hparams as <-; apply lookup_empty].
    destruct (bool_decide (features = ∅));
      [injection Hparams as <-; apply lookup_empty|].
    rewrite (parse_audio_data_returns _ _ _ Hparams), lookup_fmap.
    destruct (Hfeatures features eq_refl) as (Hb & Ht & He).
    destruct Hname as [-> | [-> | ->]]; [rewrite Hb | rewrite Ht | rewrite He]; reflexivity. }
  pose proof (generate_loop_objects_kept init_image config audio_params
                progress_callback (range (Cfg.total_frames config)) []
                (Hnone "bass" (or_introl eq_refl))
                (Hnone "treble" (or_intror (or_introl eq_refl)))
                (Hnone "energy" (or_intror (or_intror eq_refl)))
                (mk_animator (heap s) [] (calls s))) as Hkept.
  unfold objects_kept in Hkept. simpl in Hkept.
  destruct (generate_loop _ _ _ _ _ _ _) as [[frames|e] s1]; simpl in *;
    apply (prefix_lookup_Some _ _ _ _ Hkf Hkept).
Qed.

(** X14. A run that returns has generated [total_frames] frames
    (before the optional upsampling), and [previous_frames] is left holding
    the latest [temporal_layers] of them, in order: all of them when there
    are fewer, none when [temporal_layers] is not positive. *)
Theorem previous_frames_hold_the_latest_frames (init_image : Image.t) (config : Cfg.t)
    (audio_data : option (gmap string (list float)))
    (progress_callback : option (Z -> Z -> result unit)) (s : animator)
    (frames : list Image.t) :
  let out := generate_animation init_image config audio_data progress_callback s in
  fst out = Ok frames ->
  exists generated : list Image.t,
    length generated = Z.to_nat (Cfg.total_frames config) /\
    frames =
      (if Cfg.use_frame_interpolation config && (1 <? Cfg.interpolation_factor config)
       then _interpolate_frames generated (Cfg.interpolation_factor config)
       else generated) /\
    previous_frames (snd out) = window (Cfg.temporal_layers config) generated.
Proof.
  intros out. subst out. rewrite generate_animation_run.
  destruct (ensure_pipeline config) as [[]|e]; [|discriminate].
  destruct (audio_params_of audio_data config) as [audio_params|e]; [|discriminate].
  destruct (generate_loop _ _ _ _ _ _ _) as [[generated|e] s1] eqn:Hloop; [|discriminate].
  simpl. intros [= <-]. exists generated.
  destruct (generate_loop_window _ _ _ _ _ _ _ _ _ Hloop) as [Hlength Hwindow];
    [reflexivity|].
  rewrite range_length in Hlength. auto.
Qed.

(** X15. With a frame count that is not positive no frame is
    generated. On an animator whose pipeline is at hand, the run resets
    [previous_frames] and resamples the audio data, if there are any; it
    then returns the empty list, also when upsampling is enabled, without
    a call of the callback or of the warp, the pipeline and the other
    collaborators of a frame. Without audio data (none, or an empty dict)
    it returns; with audio data and a negative frame count it raises the
    [ValueError] of [np.linspace], and with a frame count of 0 and an
    empty series the [ValueError] of [np.interp]. *)
Theorem run_of_no_frames (init_image : Image.t) (config : Cfg.t)
    (audio_data : option (gmap string (list float)))
    (progress_callback : option (Z -> Z -> result unit)) (s : animator) :
  Cfg.total_frames config <= 0 ->
  ensure_pipeline config = Ok tt ->
  generate_animation init_image config audio_data progress_callback s =
    (match audio_params_of audio_data config with
     | Ok _ => Ok []
     | Raise e => Raise e
     end, mk_animator (heap s) [] (calls s)) /\
  (audio_data = None \/ audio_data = Some ∅ ->
   audio_params_of audio_data config = Ok ∅) /\
  (forall features, audio_data = Some features -> features <> ∅ ->
     Cfg.total_frames config < 0 ->
     audio_params_of audio_data config =
       Raise (ValueError (number_of_samples_must_be_non_negative (Cfg.total_frames config)))) /\
  (forall features name, audio_data = Some features -> features !! name = Some [] ->
     Cfg.total_frames config = 0 ->
     audio_params_of audio_data config = Raise (ValueError array_of_sample_points_is_empty)).
Proof.
  intros Hn Hloaded. split; [|split; [|split]].
  - rewrite generate_animation_run, Hloaded.
    destruct (audio_params_of audio_data config) as [audio_params|e]; [|reflexivity].
    unfold range. replace (Z.to_nat (Cfg.total_frames config)) with 0%nat by lia. simpl.
    destruct (Cfg.use_frame_interpolation config && (1 <? Cfg.interpolation_factor config));
      reflexivity.
  - intros [-> | ->]; reflexivity.
  - intros features -> Hne Hneg. unfold audio_params_of.
    rewrite bool_decide_eq_false_2 by exact Hne.
    apply parse_audio_data_negative; assumption.
  - intros features name -> Hname Hzero. unfold audio_params_of.
    rewrite bool_decide_eq_false_2
      by (intros ->; rewrite lookup_empty in Hname; discriminate).
    apply (parse_audio_data_empty_series _ _ name); [lia | exact Hname].
Qed.
End Methods.


Lemma unprocessed_pipeline_output_witness :
  let config := example_config 3 1 [0%nat] in
  let call := pipeline_arguments (example_image 9) (KF.default 0 "p") config in
  @_generate_frame still (example_image 9) 0 0%nat config
    (mk_animator [KF.default 0 "p"] [] [])
  = (@pipeline still call,
     mk_animator [KF.default 0 "p"] []
       ([] ++ warp_calls 0 config [] ++ [pipeline_called 0 call])).
Proof.
  apply (@unprocessed_pipeline_output still (example_image 9) 0 0%nat
           (example_config 3 1 [0%nat]) (mk_animator [KF.default 0 "p"] [] [])
           (KF.default 0 "p") (example_image 9)).
  - reflexivity.
  - discriminate.
  - reflexivity.
  - left. reflexivity.
  - vm_compute. reflexivity.
Defined.

(** Audio data with a series of another name: the keyframe keeps its zoom. *)
Lemma unmodulated_run_keeps_the_keyframes_witness :
  heap (snd (@generate_animation still (example_image 9) (example_config 2 1 [0%nat])
               (Some {[ "mid" := [1.0; 1.0]%float ]}) None
               (mk_animator [KF.default 0 "p"] [] []))) !! 0%nat
  = Some (KF.default 0 "p").
Proof.
  apply (@unmodulated_run_keeps_the_keyframes still (example_image 9)
           (example_config 2 1 [0%nat]) (Some {[ "mid" := [1.0; 1.0]%float ]}) None
           (mk_animator [KF.default 0 "p"] [] [])).
  - intros features [= <-]. repeat split; reflexivity.
  - reflexivity.
Defined.

(** Four frames with two temporal layers: the last two are kept. *)
Lemma previous_frames_hold_the_latest_frames_witness :
  let config :=
    {| Cfg.total_frames := 4; Cfg.steps := 30; Cfg.cfg_scale := 7.0;
       Cfg.animation_mode := "2D"; Cfg.border := "replicate";
       Cfg.color_coherence := "None"; Cfg.diffusion_cadence := 1;
       Cfg.temporal_strength := 0.0; Cfg.temporal_layers := 2;
       Cfg.use_animatediff := false; Cfg.use_optical_flow := true;
       Cfg.use_frame_interpolation := false; Cfg.interpolation_factor := 2;
       Cfg.keyframes := [] |} in
  let out := @generate_animation still (example_image 9) config None None
               (mk_animator [] [] []) in
  exists generated : list Image.t,
    length generated = Z.to_nat 4 /\
    [example_image 9; example_image 9; example_image 9; example_image 9] = generated /\
    previous_frames (snd out) = window 2 generated.
Proof.
  intros config out.
  apply (@previous_frames_hold_the_latest_frames still (example_image 9) config None None
           (mk_animator [] [] [])
           [example_image 9; example_image 9; example_image 9; example_image 9]).
  vm_compute. reflexivity.
Defined.

(** A frame count of -2: without audio data the run returns the empty
    list and the callback is not called; with a bass series it raises. *)
Lemma run_of_no_frames_witness :
  let config := example_config (-2) 1 [] in
  let callback := Some (fun _ _ : Z => Raise (CallbackError 1)) in
  let s := mk_animator [] [example_image 1] [] in
  let silence : option (gmap string (list float)) := None in
  (@generate_animation still (example_image 9) config silence callback s =
     (match @audio_params_of still silence config with
      | Ok _ => Ok []
      | Raise e => Raise e
      end, mk_animator [] [] []) /\
   (silence = None \/ silence = Some ∅ -> @audio_params_of still silence config = Ok ∅) /\
   (forall features, silence = Some features -> features <> ∅ ->
      Cfg.total_frames config < 0 ->
      @audio_params_of still silence config =
        Raise (ValueError (number_of_samples_must_be_non_negative
                             (Cfg.total_frames config)))) /\
   (forall features name, silence = Some features -> features !! name = Some [] ->
      Cfg.total_frames config = 0 ->
      @audio_params_of still silence config =
        Raise (ValueError array_of_sample_points_is_empty))) /\
  @generate_animation still (example_image 9) config silence callback s
    = (Ok [], mk_animator [] [] []) /\
  @generate_animation still (example_image 9) config
      (Some {[ "bass" := [1.0]%float ]}) callback s
    = (Raise (ValueError (number_of_samples_must_be_non_negative (-2))),
       mk_animator [] [] []).
Proof.
  split; [|split].
  - apply (@run_of_no_frames still (example_image 9) (example_config (-2) 1 []) None
             (Some (fun _ _ : Z => Raise (CallbackError 1)))
             (mk_animator [] [example_image 1] [])).
    + simpl. lia.
    + reflexivity.
  - vm_compute. reflexivity.
  - vm_compute. reflexivity.
Defined.
(** ** Upsampling: what never changes *)

(** Each chunk of the upsampling starts with the frame of its position, and
    with a factor of 1 or less nothing follows it. *)
Lemma interpolate_between_head (frames : list Image.t) (factor i : Z)
    (chunk : list Image.t) :
  interpolate_between frames factor i = Ok chunk ->
  exists frame between,
    index frames i = Ok frame /\ chunk = frame :: between /\ (factor <= 1 -> between = []).
Proof.
  unfold interpolate_between. intros Hrun.
  destruct (index frames i) as [frame|]; [|discriminate]. simpl in Hrun.
  destruct (index frames (i + 1)) as [next_frame|]; [|discriminate]. simpl in Hrun.
  destruct (for_each _ _) as [between|] eqn:Hbetween; [|discriminate]. simpl in Hrun.
  injection Hrun as <-. exists frame, between. split; [reflexivity|]. split; [reflexivity|].
  intros Hfactor. apply for_each_length in Hbetween.
  rewrite range_from_length in Hbetween.
  destruct between; [reflexivity | simpl in Hbetween; lia].
Qed.

Lemma interpolate_try_chunks (frames : list Image.t) (factor : Z)
    (chunks : list (list Image.t)) :
  for_each (interpolate_between frames factor) (range (Z.of_nat (length frames) - 1))
    = Ok chunks ->
  Forall2 (fun x chunk => exists rest, chunk = x :: rest /\ (factor <= 1 -> rest = []))
          (take (length frames - 1) frames) chunks.
Proof.
  intros Hrun. apply Forall2_same_length_lookup_2.
  - rewrite length_take, (for_each_length _ _ _ Hrun), range_length. lia.
  - intros i x chunk Hx Hchunk.
    apply lookup_take_Some in Hx as [Hx Hi].
    assert (Hrange : range (Z.of_nat (length frames) - 1) !! i = Some (Z.of_nat i))
      by (apply range_lookup; lia).
    destruct (for_each_lookup _ _ _ _ _ Hrun Hrange) as (chunk' & Hchunk' & Hbetween).
    apply interpolate_between_head in Hbetween as (frame & between & Hframe & -> & Hnone).
    rewrite (index_nonneg _ _ _ Hx) in Hframe. injection Hframe as <-.
    exists between. split; [congruence | exact Hnone].
Qed.

Lemma take_but_last {A : Type} (xs : list A) (x : A) :
  last xs = Some x -> take (length xs - 1) xs ++ [x] = xs.
Proof.
  intros Hlast. destruct (last_Some xs x) as [(front & ->) _]; [exact Hlast|].
  rewrite length_app. simpl. replace (length front + 1 - 1)%nat with (length front) by lia.
  rewrite take_app_length. reflexivity.
Qed.

Lemma index_last_inv {A : Type} (xs : list A) (x : A) :
  index xs (-1) = Ok x -> last xs = Some x.
Proof.
  intros Hx. destruct (last xs) as [y|] eqn:Hlast.
  - rewrite (index_last _ _ Hlast) in Hx. congruence.
  - apply last_None in Hlast. subst xs. discriminate.
Qed.

(** What [_interpolate_frames] returns when its body returns. *)
Lemma interpolate_frames_chunks (frames : list Image.t) (factor : Z) :
  _interpolate_frames frames factor = frames \/
  exists chunks final,
    Forall2 (fun x chunk => exists rest, chunk = x :: rest /\ (factor <= 1 -> rest = []))
            (take (length frames - 1) frames) chunks /\
    frames = take (length frames - 1) frames ++ [final] /\
    _interpolate_frames frames factor = concat chunks ++ [final].
Proof.
  unfold _interpolate_frames, interpolate_try.
  destruct (for_each _ _) as [chunks|] eqn:Hchunks; [|left; reflexivity]. simpl.
  destruct (index frames (-1)) as [final|] eqn:Hfinal; [|left; reflexivity]. simpl.
  right. exists chunks, final. split; [apply interpolate_try_chunks; exact Hchunks|].
  split; [|reflexivity].
  apply index_last_inv in Hfinal. symmetry. apply take_but_last. exact Hfinal.
Qed.

(** X16. With a factor of 1 or less (0 and negative factors included)
    there is nothing to insert: the frames come back as they were given,
    however many there are; a factor of 0 divides nothing. *)
Theorem upsampling_without_insertion (frames : list Image.t) (factor : Z) :
  factor <= 1 -> _interpolate_frames frames factor = frames.
Proof.
  intros Hfactor.
  destruct (interpolate_frames_chunks frames factor)
    as [Hsame | (chunks & final & Hchunks & Hframes & ->)]; [exact Hsame|].
  rewrite Hframes at 1. f_equal. clear Hframes.
  induction Hchunks as [|x chunk xs chunks (rest & -> & Hrest) _ IH]; [reflexivity|].
  rewrite (Hrest Hfactor). simpl. f_equal. exact IH.
Qed.

Lemma upsampling_without_insertion_witness :
  _interpolate_frames [example_image 1; example_image 2; example_image 3] 0
  = [example_image 1; example_image 2; example_image 3].
Proof.
  apply (upsampling_without_insertion
           [example_image 1; example_image 2; example_image 3] 0).
  lia.
Defined.

(** X17. Upsampling drops and reorders no frame: whatever the frames
    and the factor, and whether the interpolation succeeded or failed, the
    frames given are a sub-sequence of the frames returned, and a single
    frame or no frame at all comes back as it was given. *)
Theorem upsampling_keeps_the_frames (frames : list Image.t) (factor : Z) :
  frames `sublist_of` _interpolate_frames frames factor /\
  ((length frames <= 1)%nat -> _interpolate_frames frames factor = frames).
Proof.
  destruct (interpolate_frames_chunks frames factor)
    as [Hsame | (chunks & final & Hchunks & Hframes & Hout)].
  - rewrite Hsame. split; [reflexivity | auto].
  - rewrite Hout. split.
    + rewrite Hframes at 1. apply sublist_app; [|reflexivity].
      clear Hframes Hout.
      induction Hchunks as [|x chunk xs chunks (rest & -> & _) _ IH]; simpl; [constructor|].
      apply sublist_skip, sublist_inserts_l, IH.
    + intros Hshort. rewrite Hframes at 1. f_equal.
      replace (length frames - 1)%nat with 0%nat in * by lia.
      simpl in Hchunks. inversion Hchunks. reflexivity.
Qed.
(** ** Blending at the default and at full strength *)

Lemma mix_value_half (a b : Z) :
  0 <= a < 256 -> 0 <= b < 256 -> mix_value 0.5 a b = (a + b) / 2.
Proof.
  assert (Htable : forallb (fun a => forallb (fun b => mix_value 0.5 a b =? (a + b) / 2)
                                             all_uint8) all_uint8 = true)
    by (vm_compute; reflexivity).
  intros Ha Hb. rewrite forallb_forall in Htable.
  specialize (Htable a (all_uint8_elem a Ha)). rewrite forallb_forall in Htable.
  apply Z.eqb_eq, Htable, all_uint8_elem, Hb.
Qed.

Lemma mix_value_full (a b : Z) :
  0 <= a < 256 -> 0 <= b < 256 -> mix_value 1.0 a b = b.
Proof.
  assert (Hcurrent : forallb (fun a => match f32_mul (f32_of_uint8 a) (f32_of_float (1 - 1.0)) with
                                       | S754_zero false => true
                                       | _ => false
                                       end) all_uint8 = true)
    by (vm_compute; reflexivity).
  assert (Hprevious : forallb (fun b => uint8_of_f32
                                          (f32_add (S754_zero false)
                                             (f32_mul (f32_of_uint8 b) (f32_of_float 1.0)))
                                        =? b) all_uint8 = true)
    by (vm_compute; reflexivity).
  intros Ha Hb. rewrite forallb_forall in Hcurrent, Hprevious.
  specialize (Hcurrent a (all_uint8_elem a Ha)).
  specialize (Hprevious b (all_uint8_elem b Hb)).
  unfold mix_value.
  destruct (f32_mul (f32_of_uint8 a) (f32_of_float (1 - 1.0))) as [[|]| | |]; try discriminate.
  apply Z.eqb_eq. exact Hprevious.
Qed.

Lemma zip_with_values (f g : Z -> Z -> Z) (xs ys : list Z) :
  Forall (fun v => 0 <= v < 256) xs -> Forall (fun v => 0 <= v < 256) ys ->
  (forall a b, 0 <= a < 256 -> 0 <= b < 256 -> f a b = g a b) ->
  zip_with f xs ys = zip_with g xs ys.
Proof.
  intros Hxs. revert ys. induction Hxs as [|x xs Hx _ IH]; intros ys Hys Hfg; [reflexivity|].
  destruct Hys as [|y ys Hy Hys]; [reflexivity|].
  simpl. f_equal; [apply Hfg; assumption | apply IH; assumption].
Qed.

Lemma zip_with_second {A : Type} (xs ys : list A) :
  length xs = length ys -> zip_with (fun _ b => b) xs ys = ys.
Proof.
  revert ys. induction xs as [|x xs IH]; intros [|y ys] Hlen; try discriminate; [reflexivity|].
  simpl. f_equal. apply IH. simpl in Hlen. lia.
Qed.

(** X18. For two frames of one size, blending with the default
    temporal strength 0.5 gives, value by value, the mean of the current and
    the previous frame rounded down, and blending with strength 1.0 gives
    the previous frame itself: the pipeline's output is discarded. *)
Theorem blend_at_half_and_full_strength (current previous : Image.t) :
  same_shape current previous ->
  well_formed current -> well_formed previous ->
  _blend_frames current previous 0.5 =
    Ok (Image.make (Image.height current) (Image.width current)
          (zip_with (fun a b => (a + b) / 2) (Image.data current) (Image.data previous))) /\
  _blend_frames current previous 1.0 = Ok previous.
Proof.
  intros Hshape [Hlen Hvalues] [Hlen' Hvalues']. unfold _blend_frames.
  rewrite !(mix_same_shape _ _ _ Hshape). unfold mixed. split; f_equal.
  - f_equal. apply zip_with_values; [assumption | assumption | apply mix_value_half].
  - destruct Hshape as [Hh Hw]. rewrite Hh, Hw.
    rewrite (zip_with_values (mix_value 1.0) (fun _ b => b) _ _ Hvalues Hvalues' mix_value_full).
    rewrite zip_with_second by (rewrite Hlen, Hlen', Hh, Hw; reflexivity).
    destruct previous. reflexivity.
Qed.

Lemma blend_at_half_and_full_strength_witness :
  _blend_frames (Image.make 1 1 [0; 10; 255]) (Image.make 1 1 [1; 13; 254]) 0.5 =
    Ok (Image.make 1 1 (zip_with (fun a b => (a + b) / 2) [0; 10; 255] [1; 13; 254])) /\
  _blend_frames (Image.make 1 1 [0; 10; 255]) (Image.make 1 1 [1; 13; 254]) 1.0
    = Ok (Image.make 1 1 [1; 13; 254]).
Proof.
  apply (blend_at_half_and_full_strength
           (Image.make 1 1 [0; 10; 255]) (Image.make 1 1 [1; 13; 254])).
  - split; reflexivity.
  - split; [reflexivity|]. repeat constructor; lia.
  - split; [reflexivity|]. repeat constructor; lia.
Defined.

(** ** A feature series that is too short *)

Lemma index_raises {A : Type} (xs : list A) (i : Z) (e : exn) :
  index xs i = Raise e -> e = IndexError.
Proof.
  unfold index. destruct (_ && _); [destruct (xs !! _)|]; congruence.
Qed.

(** X19. [_apply_audio_reactivity] reads each series at [frame_idx]
    without a check of its length. A series named [bass], [treble] or
    [energy] that has no sample there ends the call with [IndexError];
    the assignments made before it stay: with a sample for [bass] and none
    for [treble] the zoom of the keyframe object is already rewritten when
    the exception is raised. *)
Theorem short_series_raises_IndexError (s : animator) (keyframe : loc) (kf : KF.t)
    (audio_params : gmap string (list float)) (frame_idx : Z) :
  heap s !! keyframe = Some kf ->
  let out := _apply_audio_reactivity keyframe audio_params frame_idx s in
  (forall name series,
     In name ["bass"; "treble"; "energy"] ->
     audio_params !! name = Some series ->
     ~ (- Z.of_nat (length series) <= frame_idx < Z.of_nat (length series)) ->
     fst out = Raise IndexError) /\
  (forall bass treble bass_value,
     audio_params !! "bass" = Some bass -> index bass frame_idx = Ok bass_value ->
     audio_params !! "treble" = Some treble ->
     ~ (- Z.of_nat (length treble) <= frame_idx < Z.of_nat (length treble)) ->
     out = (Raise IndexError,
            mk_animator
              (<[keyframe := KF.set_zoom (KF.zoom kf * (1.0 + bass_value * 0.2))%float kf]>
                 (heap s))
              (previous_frames s) (calls s))).
Proof.
  intros Hkf out. subst out.
  assert (Hvalid : forall f, <[keyframe := f]> (heap s) !! keyframe = Some f).
  { intros f. apply list_lookup_insert_eq. apply (lookup_lt_Some _ _ _ Hkf). }
  split.
  - intros name series Hname Hseries Hshort.
    apply index_out_of_bounds in Hshort.
    unfold _apply_audio_reactivity, mbind, M_bind, lift, update, mret, M_ret.
    destruct Hname as [<-|[<-|[<-|[]]]]; rewrite ?Hseries, ?Hshort.
    + reflexivity.
    + destruct (audio_params !! "bass") as [bass|];
        [destruct (index bass frame_idx) as [v|e] eqn:Hbass;
         [|apply index_raises in Hbass as ->]|];
        simpl; rewrite ?Hkf; reflexivity.
    + destruct (audio_params !! "bass") as [bass|];
        [destruct (index bass frame_idx) as [v|e] eqn:Hbass;
         [|apply index_raises in Hbass as ->]|];
        simpl; rewrite ?Hkf; simpl; try reflexivity;
        (destruct (audio_params !! "treble") as [treble|];
         [destruct (index treble frame_idx) as [v'|e'] eqn:Htreble;
          [|apply index_raises in Htreble as ->]|];
         simpl; rewrite ?Hkf, ?Hvalid; reflexivity).
  - intros bass treble bass_value Hbass Hvalue Htreble Hshort.
    apply index_out_of_bounds in Hshort.
    unfold _apply_audio_reactivity, mbind, M_bind, lift, update, mret, M_ret.
    rewrite Hbass, Hvalue, Htreble, Hshort. simpl. rewrite Hkf. reflexivity.
Qed.

Lemma short_series_raises_IndexError_witness :
  let s := mk_animator [KF.default 0 "p"] [] [] in
  let audio_params : gmap string (list float) :=
    {[ "bass" := [1.0; 1.0]%float; "treble" := [0.5]%float ]} in
  let out := _apply_audio_reactivity 0%nat audio_params 1 s in
  (forall name series,
     In name ["bass"; "treble"; "energy"] ->
     audio_params !! name = Some series ->
     ~ (- Z.of_nat (length series) <= 1 < Z.of_nat (length series)) ->
     fst out = Raise IndexError) /\
  (forall bass treble bass_value,
     audio_params !! "bass" = Some bass -> index bass 1 = Ok bass_value ->
     audio_params !! "treble" = Some treble ->
     ~ (- Z.of_nat (length treble) <= 1 < Z.of_nat (length treble)) ->
     out = (Raise IndexError,
            mk_animator
              (<[0%nat := KF.set_zoom (KF.zoom (KF.default 0 "p") * (1.0 + bass_value * 0.2))%float
                            (KF.default 0 "p")]>
                 (heap s))
              (previous_frames s) (calls s))).
Proof.
  intros s audio_params.
  apply (short_series_raises_IndexError s 0%nat (KF.default 0 "p") audio_params 1).
  reflexivity.
Defined.
(** ** The warp of a frame *)

Section Warp.
Context `{Transforms.OpenCV}.

(** X20. Only the modes ["2D"] and ["3D"] warp a frame. Under any
    other mode (["Interpolation"] and ["Video Input"] among them)
    [_apply_transforms] calls nothing and hands the image back as it is,
    whatever the keyframe and the border. *)
Theorem other_modes_do_not_warp (image : Image.t) (keyframe : KF.t) (mode border : string) :
  mode <> "2D" -> mode <> "3D" ->
  Transforms._apply_transforms image keyframe mode border = Transforms.Returned image.
Proof.
  intros H2D H3D. unfold Transforms._apply_transforms.
  apply String.eqb_neq in H2D, H3D. rewrite H2D, H3D. reflexivity.
Qed.

(** X21. In mode ["3D"] the warp depends on the keyframe through its
    three translations and its three 3D rotations only: zoom, angle and the
    three perspective-flip angles, which [_apply_3d_transform] receives,
    have no effect. In mode ["2D"] it depends on angle, zoom and the
    translations along x and y only. *)
Theorem warp_reads_few_fields (image : Image.t) (kf kf' : KF.t) (border : string) :
  (agree fields_of_3D kf kf' ->
   Transforms._apply_transforms image kf "3D" border =
   Transforms._apply_transforms image kf' "3D" border) /\
  (agree fields_of_2D kf kf' ->
   Transforms._apply_transforms image kf "2D" border =
   Transforms._apply_transforms image kf' "2D" border).
Proof.
  unfold agree, fields_of_3D, fields_of_2D. split; intros Hagree.
  - repeat (apply Forall_cons_1 in Hagree as [? Hagree]).
    unfold Transforms._apply_transforms.
    change (String.eqb "3D" "2D") with false. change (String.eqb "3D" "3D") with true.
    cbv iota. unfold Transforms._apply_3d_transform.
    repeat match goal with Heq : ?field kf = ?field kf' |- _ => rewrite Heq; clear Heq end.
    reflexivity.
  - repeat (apply Forall_cons_1 in Hagree as [? Hagree]).
    unfold Transforms._apply_transforms.
    change (String.eqb "2D" "2D") with true. cbv iota.
    repeat match goal with Heq : ?field kf = ?field kf' |- _ => rewrite Heq; clear Heq end.
    reflexivity.
Qed.

(** X22. In mode ["3D"] the matrix that [_apply_3d_transform] hands
    to [cv2.warpPerspective] is [projection_matrix[:2, :]], the first two
    rows of the 3x4 product of the camera matrix and [R | T]: it has 2 rows
    and 4 columns, whatever the image and the parameters. The border is
    [BORDER_WRAP] for ["wrap"] and [BORDER_REPLICATE] for every other name. *)
Theorem projection_has_two_rows_of_four (img : Image.t) (tx ty tz rx ry rz : float)
    (theta phi gamma : float) (border : string) :
  (exists e, Transforms._apply_3d_transform img tx ty tz rx ry rz theta phi gamma border
             = Transforms.Raised e) \/
  exists M : Transforms.matrix,
    Transforms._apply_3d_transform img tx ty tz rx ry rz theta phi gamma border =
      Transforms.warpPerspective img M (Image.width img, Image.height img)
        (if String.eqb border "wrap"
         then Transforms.BORDER_WRAP else Transforms.BORDER_REPLICATE) /\
    length M = 2%nat /\
    Forall (fun row => length row = 4%nat) M.
Proof.
  unfold Transforms._apply_3d_transform.
  destruct (truediv (Z.of_nat (Image.width img)) 2) as [half_w|e]; [|left; eauto].
  destruct (truediv (Z.of_nat (Image.height img)) 2) as [half_h|e]; [|left; eauto].
  right. eexists. split; [reflexivity|].
  split; [reflexivity|]. repeat constructor.
Qed.
End Warp.

Lemma other_modes_do_not_warp_witness :
  @Transforms._apply_transforms example_opencv (example_image 7) (KF.default 0 "p")
    "Interpolation" "wrap" = Transforms.Returned (example_image 7).
Proof.
  apply (@other_modes_do_not_warp example_opencv (example_image 7) (KF.default 0 "p")
           "Interpolation" "wrap"); discriminate.
Defined.
(** ** The slideshow engine *)

Lemma truediv_ratio (a b : Z) : 0 <= a <= b -> 0 < b -> exists t, truediv a b = Ok t.
Proof.
  intros Hab Hb. unfold truediv. destruct b as [|q|q]; try lia.
  replace ((2 ^ 1024 - 2 ^ 970) * Z.abs (Z.pos q) <=? Z.abs a) with false
    by (symmetry; apply Z.leb_gt; rewrite Z.abs_eq by lia; simpl Z.abs; lia).
  destruct (Z.abs a); eexists; reflexivity.
Qed.

Section EngineLoops.
Context {image : Type} `{Engine.Arrays image}.

Lemma hold_loop (base_img : image) (total_frames : Z) (indices : list Z)
    (st : Engine.state) :
  Forall (fun i => 0 <= i < total_frames) indices ->
  exists yielded,
    Engine.for_loop (Engine.hold base_img total_frames) indices st =
    Engine.Done (fst st ++ replicate (length indices) base_img, snd st ++ yielded).
Proof.
  intros Hall. revert st. induction Hall as [|i rest Hi _ IH]; intros st.
  - exists []. simpl. rewrite !app_nil_r. destruct st. reflexivity.
  - assert (Hbody : exists ys, Engine.hold base_img total_frames i st =
                               Engine.Done (fst st ++ [base_img], snd st ++ ys)).
    { unfold Engine.hold.
      destruct (truediv_fraction i total_frames Hi) as [progress ->].
      destruct (i mod 10 =? 0); [exists [progress] | exists []];
        rewrite ?app_nil_r; reflexivity. }
    destruct Hbody as [ys Hbody]. cbn [Engine.for_loop]. rewrite Hbody.
    cbn [mbind Engine.outcome_bind].
    destruct (IH (fst st ++ [base_img], snd st ++ ys)) as [yielded ->].
    exists (ys ++ yielded). cbn [fst snd length replicate].
    rewrite <- !app_assoc. reflexivity.
Qed.

Lemma blend_loop (c : Engine.config) (img1 img2 : image)
    (total_frames frames_per_transition : Z) (steps : list Z) (st : Engine.state) :
  Forall (fun t => 0 <= t < frames_per_transition) steps ->
  (0 < frames_per_transition ->
   Z.of_nat (length (fst st) + length steps) <= total_frames) ->
  exists yielded,
    Engine.for_loop (Engine.blend c img1 img2 total_frames frames_per_transition) steps st =
    Engine.Done (fst st ++ map (Engine.blended c img1 img2 frames_per_transition) steps,
                 snd st ++ yielded).
Proof.
  intros Hall. revert st. induction Hall as [|t rest Ht _ IH]; intros st Hroom.
  - exists []. simpl. rewrite !app_nil_r. destruct st. reflexivity.
  - assert (Hroom' : Z.of_nat (length (fst st) + S (length rest)) <= total_frames)
      by (apply Hroom; lia).
    assert (Hbody : exists ys,
              Engine.blend c img1 img2 total_frames frames_per_transition t st =
              Engine.Done (fst st ++ [Engine.blended c img1 img2 frames_per_transition t],
                           snd st ++ ys)).
    { unfold Engine.blend, Engine.blended.
      destruct (truediv_fraction t frames_per_transition Ht) as [alpha ->].
      cbn [Engine.of_result mbind Engine.outcome_bind].
      set (frame := Engine.addWeighted img1 (1 - Engine.curve c alpha)%float img2
                      (Engine.curve c alpha)).
      destruct (truediv_ratio (Z.of_nat (length (fst st ++ [frame]))) total_frames)
        as [progress ->].
      { rewrite length_app. simpl. lia. }
      { lia. }
      destruct (Z.of_nat (length (fst st ++ [frame])) mod 10 =? 0);
        [exists [progress] | exists []]; rewrite ?app_nil_r; reflexivity. }
    destruct Hbody as [ys Hbody]. cbn [Engine.for_loop map]. rewrite Hbody.
    cbn [mbind Engine.outcome_bind].
    destruct (IH (fst st ++ [Engine.blended c img1 img2 frames_per_transition t],
                  snd st ++ ys)) as [yielded ->].
    { intros _. cbn [fst]. rewrite length_app. simpl. lia. }
    exists (ys ++ yielded). cbn [fst snd]. rewrite <- !app_assoc. reflexivity.
Qed.

Lemma chunk_length (c : Engine.config) (images : list image)
    (frames_per_transition i : Z) :
  0 <= i -> i + 1 < Z.of_nat (length images) ->
  length (Engine.chunk c images frames_per_transition i) = Z.to_nat frames_per_transition.
Proof.
  intros Hi Hnext. unfold Engine.chunk.
  destruct (index_in_bounds images i) as (img1 & -> & _); [lia|].
  destruct (index_in_bounds images (i + 1)) as (img2 & -> & _); [lia|].
  rewrite length_map. apply range_length.
Qed.

Lemma transition_loop (c : Engine.config) (images : list image)
    (total_frames frames_per_transition : Z) (indices : list Z) (st : Engine.state) :
  Forall (fun i => 0 <= i /\ i + 1 < Z.of_nat (length images)) indices ->
  (0 < frames_per_transition ->
   Z.of_nat (length (fst st) + length indices * Z.to_nat frames_per_transition)
     <= total_frames) ->
  exists yielded,
    Engine.for_loop (Engine.transition c images total_frames frames_per_transition)
      indices st =
    Engine.Done (fst st ++ concat (map (Engine.chunk c images frames_per_transition) indices),
                 snd st ++ yielded).
Proof.
  intros Hall. revert st. induction Hall as [|i rest [Hi Hnext] _ IH]; intros st Hroom.
  - exists []. simpl. rewrite !app_nil_r. destruct st. reflexivity.
  - cbn [length] in Hroom.
    assert (Hbody : exists ys,
              Engine.transition c images total_frames frames_per_transition i st =
              Engine.Done (fst st ++ Engine.chunk c images frames_per_transition i,
                           snd st ++ ys)).
    { unfold Engine.transition, Engine.chunk.
      destruct (index_in_bounds images i) as (img1 & -> & _); [lia|].
      destruct (index_in_bounds images (i + 1)) as (img2 & -> & _); [lia|].
      cbn [Engine.of_result mbind Engine.outcome_bind].
      apply blend_loop.
      - apply Forall_forall. intros t Ht%range_elem. exact Ht.
      - intros Hper. specialize (Hroom Hper). rewrite range_length. lia. }
    destruct Hbody as [ys Hbody]. cbn [Engine.for_loop map concat]. rewrite Hbody.
    cbn [mbind Engine.outcome_bind].
    destruct (IH (fst st ++ Engine.chunk c images frames_per_transition i, snd st ++ ys))
      as [yielded ->].
    { intros Hper. specialize (Hroom Hper). cbn [fst].
      rewrite length_app, chunk_length by lia. lia. }
    exists (ys ++ yielded). cbn [fst snd]. rewrite <- !app_assoc. reflexivity.
Qed.

(** What [generate_frames] leaves in [self.frames] of a new engine. *)
Lemma generate_frames_runs (c : Engine.config) (images : list image) (total_frames : Z) :
  Engine.total_frames_of c = Engine.Done total_frames ->
  images <> [] ->
  exists yielded,
    Engine.generate_frames c images [] =
    Engine.Done
      (match images with
       | [base_img] => replicate (Z.to_nat total_frames) base_img
       | _ =>
           let per := total_frames / (Z.of_nat (length images) - 1) in
           let blended := concat (map (Engine.chunk c images per)
                                      (range (Z.of_nat (length images) - 1))) in
           blended ++
           match last images with
           | Some final => replicate (Z.to_nat total_frames - length blended) final
           | None => []
           end
       end, yielded ++ [1.0%float]).
Proof.
  intros Htotal Hne. unfold Engine.generate_frames. rewrite Htotal. simpl.
  destruct images as [|img1 [|img2 rest]]; [contradiction| |].
  - simpl. destruct (hold_loop img1 total_frames (range total_frames) ([], []))
      as [yielded Hloop].
    { apply Forall_forall. intros i Hi%range_elem. exact Hi. }
    rewrite Hloop. simpl. rewrite range_length. eexists. reflexivity.
  - set (images := img1 :: img2 :: rest).
    set (n := Z.of_nat (length images)).
    assert (Hn : 2 <= n) by (unfold n, images; simpl; lia).
    replace (n =? 0) with false by (symmetry; apply Z.eqb_neq; lia).
    replace (n =? 1) with false by (symmetry; apply Z.eqb_neq; lia).
    set (per := total_frames / (n - 1)).
    destruct (transition_loop c images total_frames per (range (n - 1)) ([], []))
      as [yielded Hloop].
    { apply Forall_forall. intros i Hi%range_elem. unfold n in Hi. lia. }
    { intros Hper. simpl. rewrite range_length. unfold per in *.
      pose proof (Z.mul_div_le total_frames (n - 1)). nia. }
    rewrite Hloop. simpl fst. simpl snd. cbv zeta.
    set (blended := concat (map (Engine.chunk c images per) (range (n - 1)))).
    cbn [mbind Engine.outcome_bind].
    destruct (last images) as [final|] eqn:Hlast;
      [|apply last_None in Hlast; unfold images in Hlast; discriminate].
    rewrite (index_last _ _ Hlast). cbn [Engine.of_result mbind Engine.outcome_bind].
    unfold Engine.pad. rewrite !app_nil_l.
    destruct (Z.ltb_spec (Z.of_nat (length blended)) total_frames) as [Hshort|Hshort].
    + exists yielded.
      replace (Z.to_nat (total_frames - Z.of_nat (length blended)))
        with (Z.to_nat total_frames - length blended)%nat by lia.
      reflexivity.
    + replace (Z.to_nat total_frames - length blended)%nat with 0%nat by lia.
      simpl. rewrite app_nil_r. exists yielded. reflexivity.
Qed.

(** X23. On a new engine with at least one image, [generate_frames]
    leaves exactly [int(duration * fps)] frames in [self.frames] (none when
    that number is not positive) and its last progress value is 1.0; no
    division by zero can occur. Without an image it raises ["No images
    loaded"]. *)
Theorem slideshow_has_total_frames (c : Engine.config) (images : list image)
    (total_frames : Z) :
  Engine.total_frames_of c = Engine.Done total_frames ->
  (images = [] ->
   Engine.generate_frames c images [] = Engine.Failed Engine.no_images_loaded) /\
  (images <> [] ->
   exists frames yielded,
     Engine.generate_frames c images [] = Engine.Done (frames, yielded) /\
     length frames = Z.to_nat total_frames /\
     last yielded = Some 1.0%float).
Proof.
  intros Htotal. split.
  - intros ->. unfold Engine.generate_frames. rewrite Htotal. reflexivity.
  - intros Hne. destruct (generate_frames_runs c images total_frames Htotal Hne)
      as [yielded Hrun].
    eexists _, _. split; [exact Hrun|]. split; [|apply last_snoc].
    destruct images as [|img1 [|img2 rest]]; [contradiction | apply length_replicate |].
    set (images := img1 :: img2 :: rest) in *.
    set (n := Z.of_nat (length images)).
    assert (Hn : 2 <= n) by (unfold n, images; simpl; lia).
    cbv zeta. set (per := total_frames / (n - 1)).
    assert (Hblended : length (concat (map (Engine.chunk c images per) (range (n - 1))))
                       = (Z.to_nat (n - 1) * Z.to_nat per)%nat).
    { rewrite (concat_uniform_length (Z.to_nat per)).
      - rewrite length_map, range_length. reflexivity.
      - apply Forall_forall. intros chunk Hchunk.
        apply list_elem_of_fmap in Hchunk as (i & -> & Hi%range_elem).
        apply chunk_length; unfold n in Hi; lia. }
    assert (Hfits : (Z.to_nat (n - 1) * Z.to_nat per <= Z.to_nat total_frames)%nat).
    { destruct (Z.le_gt_cases per 0) as [Hle|Hgt].
      - replace (Z.to_nat per) with 0%nat by lia. lia.
      - unfold per in *. pose proof (Z.mul_div_le total_frames (n - 1)). nia. }
    destruct (last images) as [final|] eqn:Hlast;
      [|apply last_None in Hlast; unfold images in Hlast; discriminate].
    rewrite length_app, length_replicate, Hblended. lia.
Qed.

(** X24. The frames of a new engine's slideshow. One image is held
    for every frame. With [n >= 2] images each of the [n - 1] transitions
    has [per = total_frames // (n - 1)] frames, the frame at step [t] of
    the transition from [img1] to [img2] being [img1] and [img2] weighted
    by [1 - alpha] and [alpha], with [alpha] the curve's value at
    [t / per]; the frames left over at the end are copies of the last
    image. So with fewer frames than transitions every frame is the last
    image. *)
Theorem slideshow_frames (c : Engine.config) (images : list image) (total_frames : Z)
    (frames : list image) (yielded : list float) :
  Engine.total_frames_of c = Engine.Done total_frames ->
  Engine.generate_frames c images [] = Engine.Done (frames, yielded) ->
  (forall base_img, images = [base_img] ->
     frames = replicate (Z.to_nat total_frames) base_img) /\
  ((2 <= length images)%nat ->
   let per := total_frames / (Z.of_nat (length images) - 1) in
   (forall (i : nat) (t : Z) (img1 img2 : image),
      images !! i = Some img1 -> images !! S i = Some img2 -> 0 <= t < per ->
      exists alpha,
        truediv t per = Ok alpha /\
        frames !! (i * Z.to_nat per + Z.to_nat t)%nat =
          Some (Engine.addWeighted img1 (1 - Engine.curve c alpha)%float img2
                  (Engine.curve c alpha))) /\
   (forall k : nat,
      ((length images - 1) * Z.to_nat per <= k < Z.to_nat total_frames)%nat ->
      frames !! k = last images) /\
   (total_frames < Z.of_nat (length images) - 1 ->
      forall final, last images = Some final ->
      frames = replicate (Z.to_nat total_frames) final)).
Proof.
  intros Htotal Hrun.
  assert (Hne : images <> []).
  { intros ->. unfold Engine.generate_frames in Hrun. rewrite Htotal in Hrun. discriminate. }
  destruct (generate_frames_runs c images total_frames Htotal Hne) as [yielded' Hrun'].
  rewrite Hrun in Hrun'. injection Hrun' as Hframes _. split.
  - intros base_img ->. exact Hframes.
  - intros Hmany per.
    destruct images as [|img1' [|img2' rest]]; [simpl in Hmany; lia | simpl in Hmany; lia |].
    set (images := img1' :: img2' :: rest) in *.
    set (n := Z.of_nat (length images)) in *.
    assert (Hn : 2 <= n) by (unfold n, images; simpl; lia).
    cbv zeta in Hframes. fold per in Hframes.
    set (chunks := map (Engine.chunk c images per) (range (n - 1))) in *.
    assert (Huniform : Forall (fun chunk => length chunk = Z.to_nat per) chunks).
    { apply Forall_forall. intros chunk Hchunk.
      apply list_elem_of_fmap in Hchunk as (i & -> & Hi%range_elem).
      apply chunk_length; unfold n in Hi; lia. }
    assert (Hblended : length (concat chunks) = ((length images - 1) * Z.to_nat per)%nat).
    { rewrite (concat_uniform_length (Z.to_nat per) _ Huniform).
      unfold chunks. rewrite length_map, range_length. unfold n. f_equal. lia. }
    destruct (last images) as [final|] eqn:Hlast;
      [|apply last_None in Hlast; unfold images in Hlast; discriminate].
    split; [|split].
    + intros i t img1 img2 Himg1 Himg2 Ht.
      destruct (truediv_fraction t per Ht) as [alpha Halpha].
      exists alpha. split; [exact Halpha|]. rewrite Hframes.
      assert (Hi : (S i < length images)%nat) by (apply (lookup_lt_Some _ _ _ Himg2)).
      assert (Hchunk : chunks !! i = Some (Engine.chunk c images per (Z.of_nat i))).
      { unfold chunks. rewrite list_lookup_fmap, range_lookup by (unfold n; lia).
        reflexivity. }
      assert (Hstep : Engine.chunk c images per (Z.of_nat i) !! Z.to_nat t =
                      Some (Engine.addWeighted img1 (1 - Engine.curve c alpha)%float img2
                              (Engine.curve c alpha))).
      { unfold Engine.chunk. rewrite (index_nonneg _ _ _ Himg1).
        replace (Z.of_nat i + 1) with (Z.of_nat (S i)) by lia.
        rewrite (index_nonneg _ _ _ Himg2).
        rewrite list_lookup_fmap, range_lookup by lia. simpl.
        unfold Engine.blended. rewrite Z2Nat.id by lia. rewrite Halpha. reflexivity. }
      rewrite lookup_app_l.
      * apply (concat_uniform_lookup _ _ _ _ _ _ Huniform Hchunk Hstep).
      * rewrite Hblended. nia.
    + intros k Hk. rewrite Hframes, lookup_app_r by (rewrite Hblended; lia).
      rewrite Hblended. apply lookup_replicate_2. lia.
    + intros Hfew final' Hfinal. injection Hfinal as <-.
      assert (Hper : per = 0 \/ per < 0).
      { unfold per. destruct (Z.le_gt_cases 0 total_frames) as [Hpos|Hneg].
        - left. apply Z.div_small. lia.
        - right. apply Z.div_lt_upper_bound; lia. }
      assert (Hnone : concat chunks = []).
      { apply length_zero_iff_nil. rewrite Hblended.
        replace (Z.to_nat per) with 0%nat by lia. lia. }
      rewrite Hframes, Hnone. simpl. rewrite Nat.sub_0_r. reflexivity.
Qed.
End EngineLoops.

(** Two seconds at 24 frames per second, one image: 48 frames. *)
Lemma slideshow_has_total_frames_witness :
  let c := {| Engine.duration := Some 2.0%float; Engine.fps := 24;
              Engine.interpolation := "linear" |} in
  (([7.0%float] : list float) = [] ->
   @Engine.generate_frames float one_value_arrays c [7.0%float] []
     = Engine.Failed Engine.no_images_loaded) /\
  (([7.0%float] : list float) <> [] ->
   exists frames yielded,
     @Engine.generate_frames float one_value_arrays c [7.0%float] []
       = Engine.Done (frames, yielded) /\
     length frames = Z.to_nat 48 /\
     last yielded = Some 1.0%float).
Proof.
  intros c.
  apply (@slideshow_has_total_frames float one_value_arrays c [7.0%float] 48).
  vm_compute. reflexivity.
Defined.

(** A quarter of a second at 24 frames per second over three images: six
    frames, three for each transition. *)
Lemma slideshow_frames_witness :
  let c := {| Engine.duration := Some 0.25%float; Engine.fps := 24;
              Engine.interpolation := "ease-in-out" |} in
  let images := [0.0; 100.0; 200.0]%float in
  let out := match @Engine.generate_frames float one_value_arrays c images [] with
             | Engine.Done st => st
             | Engine.Failed _ => ([], [])
             end in
  (forall base_img, images = [base_img] -> fst out = replicate (Z.to_nat 6) base_img) /\
  ((2 <= length images)%nat ->
   let per := 6 / (Z.of_nat (length images) - 1) in
   (forall (i : nat) (t : Z) (img1 img2 : float),
      images !! i = Some img1 -> images !! S i = Some img2 -> 0 <= t < per ->
      exists alpha,
        truediv t per = Ok alpha /\
        fst out !! (i * Z.to_nat per + Z.to_nat t)%nat =
          Some (@Engine.addWeighted float one_value_arrays img1
                  (1 - @Engine.curve float one_value_arrays c alpha)%float img2
                  (@Engine.curve float one_value_arrays c alpha))) /\
   (forall k : nat,
      ((length images - 1) * Z.to_nat per <= k < Z.to_nat 6)%nat ->
      fst out !! k = last images) /\
   (6 < Z.of_nat (length images) - 1 ->
      forall final, last images = Some final ->
      fst out = replicate (Z.to_nat 6) final)).
Proof.
  intros c images out.
  apply (@slideshow_frames float one_value_arrays c images 6 (fst out) (snd out)).
  - vm_compute. reflexivity.
  - vm_compute. reflexivity.
Defined.
(** ** The model library *)

Lemma occurs_after_prefix (a b s : string) :
  String.prefix (a ++ b) s = true -> ModelManager.occurs b s = true.
Proof.
  revert s. induction a as [|c a IH]; intros s Hprefix.
  - change (String.prefix b s = true) in Hprefix.
    destruct s; cbn [ModelManager.occurs]; rewrite Hprefix; reflexivity.
  - change (String.prefix (String c (a ++ b)) s = true) in Hprefix.
    destruct s as [|c' s]; simpl in Hprefix; [discriminate|].
    destruct (Ascii.ascii_dec c c'); [|discriminate].
    cbn [ModelManager.occurs]. rewrite (IH s Hprefix). apply orb_true_r.
Qed.

Lemma occurs_suffix (a b s : string) :
  ModelManager.occurs (a ++ b) s = true -> ModelManager.occurs b s = true.
Proof.
  induction s as [|c s IH]; cbn [ModelManager.occurs].
  - rewrite orb_false_r. intros Hprefix. apply (occurs_after_prefix a b "" Hprefix).
  - intros [Hprefix|Hlater]%orb_true_iff.
    + apply (occurs_after_prefix a b (String c s) Hprefix).
    + rewrite (IH Hlater). apply orb_true_r.
Qed.

(** X25. [_infer_base_model] answers ["SDXL"] exactly when the two
    letters [xl] occur somewhere in the repository id followed by the file
    name, in either case of the letters and also across the seam between
    the two; the test for [sdxl] decides nothing. The other answers come
    in the order of the tests: ["SD2.1"] for [sd2] or [v2], then ["SD3"]
    for [sd3], else ["SD1.5"]. *)
Theorem base_model_is_SDXL_for_any_xl (repo_id filename : string) :
  let combined := ModelManager.str_lower (repo_id ++ filename) in
  (ModelManager._infer_base_model repo_id filename = "SDXL" <->
   ModelManager.occurs "xl" combined = true) /\
  ModelManager._infer_base_model repo_id filename =
    (if ModelManager.occurs "xl" combined then "SDXL"
     else if ModelManager.occurs "sd2" combined || ModelManager.occurs "v2" combined
          then "SD2.1"
     else if ModelManager.occurs "sd3" combined then "SD3"
     else "SD1.5").
Proof.
  intros combined. unfold ModelManager._infer_base_model. fold combined.
  assert (Hdead : ModelManager.occurs "sdxl" combined || ModelManager.occurs "xl" combined
                  = ModelManager.occurs "xl" combined).
  { destruct (ModelManager.occurs "sdxl" combined) eqn:Hsdxl; [|reflexivity].
    rewrite (occurs_suffix "sd" "xl" combined Hsdxl). reflexivity. }
  rewrite Hdead. split; [|reflexivity].
  destruct (ModelManager.occurs "xl" combined); [tauto|].
  split; [|discriminate].
  destruct (ModelManager.occurs "sd2" combined || ModelManager.occurs "v2" combined);
    [intros Heq; discriminate Heq|].
  destruct (ModelManager.occurs "sd3" combined); intros Heq; discriminate Heq.
Qed.

Example infer_base_model_examples :
  ModelManager._infer_base_model "runwayml/stable-diffusion-v1-5"
    "v1-5-pruned-emaonly.safetensors" = "SD1.5" /\
  ModelManager._infer_base_model "stabilityai/stable-diffusion-XL-base-1.0"
    "sd_xl_base_1.0.safetensors" = "SDXL" /\
  ModelManager._infer_base_model "studio/pix" "lora.safetensors" = "SDXL" /\
  ModelManager._infer_base_model "stabilityai/stable-diffusion-3-medium"
    "sd3_medium.safetensors" = "SD3" /\
  ModelManager._infer_base_model "stabilityai/stable-diffusion-2-1"
    "v2-1_768-ema-pruned.safetensors" = "SD2.1".
Proof. repeat split; vm_compute; reflexivity. Qed.

(** X26. Where a model of Civit.ai is stored: the directory of the
    type that [_determine_model_type] gives is the LoRA directory for the
    Civit.ai types LORA and LoCon, the ControlNet directory for Controlnet
    and Poses, the VAE directory for VAE, and the checkpoint directory for
    every other type, known or unknown (hypernetworks, embeddings,
    wildcards and workflows among them). It is never the AnimateDiff
    directory. *)
Theorem civitai_models_land_in_four_directories (civitai_type : string) :
  ModelManager._get_model_dir (ModelManager._determine_model_type civitai_type) =
  (if String.eqb "LORA" civitai_type || String.eqb "LoCon" civitai_type
   then ModelManager.loras_dir
   else if String.eqb "Controlnet" civitai_type || String.eqb "Poses" civitai_type
   then ModelManager.controlnet_dir
   else if String.eqb "VAE" civitai_type then ModelManager.vae_dir
   else ModelManager.checkpoints_dir) /\
  ModelManager._get_model_dir (ModelManager._determine_model_type civitai_type)
    <> ModelManager.animatediff_dir.
Proof.
  unfold ModelManager._determine_model_type. cbn [ModelManager.get].
  repeat match goal with
         | |- context [String.eqb ?k civitai_type] =>
             lazymatch k with
             | civitai_type => fail
             | _ => destruct (String.eqb_spec k civitai_type) as [<-|?];
                    [split; [reflexivity | discriminate]|]
             end
         end.
  split; [reflexivity | discriminate].
Qed.

(** X27. The two listings of the library. The downloaded models of a
    type are a sub-sequence of the available models of that type, every one
    of them is downloaded, and both listings follow the order of the
    library. An empty type name filters nothing, like no type at all. *)
Theorem downloaded_models_are_listed_among_available (db : ModelManager.models_db)
    (model_type : option string) :
  ModelManager.get_downloaded_models db model_type
    `sublist_of` ModelManager.get_available_models db model_type /\
  Forall (fun m => ModelCheckpoint.is_downloaded m = true)
         (ModelManager.get_downloaded_models db model_type) /\
  ModelManager.get_available_models db model_type `sublist_of` map snd db /\
  ModelManager.get_available_models db (Some "") = ModelManager.get_available_models db None.
Proof.
  assert (Hfilter : forall (p : ModelCheckpoint.t -> bool) l, List.filter p l `sublist_of` l).
  { intros p l. induction l as [|x l IH]; simpl; [constructor|].
    destruct (p x); [apply sublist_skip | apply sublist_cons]; exact IH. }
  assert (Hmono : forall (p : ModelCheckpoint.t -> bool) l l',
            l `sublist_of` l' -> List.filter p l `sublist_of` List.filter p l').
  { intros p l l' Hsub. induction Hsub as [|x l l' _ IH|x l l' _ IH]; simpl.
    - constructor.
    - destruct (p x); [apply sublist_skip|]; exact IH.
    - destruct (p x); [apply sublist_cons|]; exact IH. }
  unfold ModelManager.get_downloaded_models, ModelManager.get_available_models,
    ModelManager.of_type.
  split; [|split; [|split]].
  - destruct model_type as [[|c wanted]|]; try apply Hfilter. apply Hmono, Hfilter.
  - apply Forall_forall. intros m Hm. rewrite list_elem_of_In in Hm.
    destruct model_type as [[|c wanted]|];
      repeat (apply filter_In in Hm as [Hm ?]); try assumption.
  - destruct model_type as [[|c wanted]|]; try reflexivity. apply Hfilter.
  - reflexivity.
Qed.

(** ** Loading the pipeline *)

Section LoadingPipeline.
Context `{Loading.Diffusers}.

Lemma load_loras_available (db : ModelManager.models_db) (lora_ids : list string)
    (p : Loading.pipeline) :
  Loading.load_loras db (available_ids db lora_ids) p = Loading.load_loras db lora_ids p.
Proof.
  revert p. induction lora_ids as [|lora_id rest IH]; intros p; [reflexivity|].
  unfold available_ids in *. simpl.
  destruct (Loading.available db lora_id) as [lora|] eqn:Hlora.
  - rewrite bool_decide_eq_true_2 by eauto. simpl. rewrite Hlora.
    destruct (Loading.load_lora_weights p (ModelCheckpoint.path lora)) as [[[]|e] p'];
      [apply IH | reflexivity].
  - rewrite bool_decide_eq_false_2 by (intros [? ?]; discriminate). apply IH.
Qed.

Lemma load_controlnets_available (db : ModelManager.models_db) (cn_ids : list string)
    (loaded : list Loading.controlnet) :
  Loading.load_controlnets db (available_ids db cn_ids) loaded =
  Loading.load_controlnets db cn_ids loaded.
Proof.
  revert loaded. induction cn_ids as [|cn_id rest IH]; intros loaded; [reflexivity|].
  unfold available_ids in *. simpl.
  destruct (Loading.available db cn_id) as [cn|] eqn:Hcn.
  - rewrite bool_decide_eq_true_2 by eauto. simpl. rewrite Hcn.
    destruct (Loading.controlnet_from_pretrained (ModelCheckpoint.path cn));
      [apply IH | reflexivity].
  - rewrite bool_decide_eq_false_2 by (intros [? ?]; discriminate). apply IH.
Qed.

Lemma load_controlnets_none (db : ModelManager.models_db) (cn_ids : list string)
    (loaded : list Loading.controlnet) :
  available_ids db cn_ids = [] -> Loading.load_controlnets db cn_ids loaded = Loading.Loaded loaded.
Proof. intros Hnone. rewrite <- load_controlnets_available, Hnone. reflexivity. Qed.

Lemma add_controlnets_available (db : ModelManager.models_db) (cn_ids : list string)
    (p : Loading.pipeline) :
  Loading.add_controlnets db (available_ids db cn_ids) p = Loading.add_controlnets db cn_ids p.
Proof.
  unfold Loading.add_controlnets.
  destruct (available_ids db cn_ids) as [|cn_id rest] eqn:Havailable.
  - destruct cn_ids as [|cn_id' rest']; [reflexivity|].
    rewrite (load_controlnets_none _ _ _ Havailable). reflexivity.
  - destruct cn_ids as [|cn_id' rest']; [discriminate|].
    rewrite <- Havailable, load_controlnets_available. reflexivity.
Qed.

(** X28. Ids of LoRA and ControlNet models that the library does not
    hold, or holds without their files, are passed over in silence:
    [load_pipeline] raises and returns, and leaves in [self.pipeline], what
    it would for the configuration that lists the downloaded ones only. *)
Theorem unavailable_models_are_passed_over (db : ModelManager.models_db)
    (config : Loading.settings) (self : Loading.animator) :
  let listed :=
    {| Loading.model_checkpoint := Loading.model_checkpoint config;
       Loading.lora_models := available_ids db (Loading.lora_models config);
       Loading.controlnet_models := available_ids db (Loading.controlnet_models config);
       Loading.use_animatediff := Loading.use_animatediff config;
       Loading.sampler := Loading.sampler config |} in
  fst (Loading.load_pipeline db listed self) = fst (Loading.load_pipeline db config self) /\
  Loading.self_pipeline (snd (Loading.load_pipeline db listed self)) =
  Loading.self_pipeline (snd (Loading.load_pipeline db config self)).
Proof.
  intros listed. unfold Loading.load_pipeline. subst listed. cbn [Loading.model_checkpoint
    Loading.lora_models Loading.controlnet_models Loading.use_animatediff Loading.sampler].
  destruct (negb Loading.importable); [split; reflexivity|].
  destruct (Loading.available db (Loading.model_checkpoint config)) as [checkpoint|];
    [|split; reflexivity].
  destruct (Loading.from_pretrained _ _) as [p|e]; [|split; reflexivity].
  rewrite load_loras_available.
  destruct (Loading.load_loras db (Loading.lora_models config) p) as [[[]|e] p'];
    [|split; reflexivity].
  rewrite add_controlnets_available.
  destruct (Loading.add_controlnets db (Loading.controlnet_models config) p') as [p''|e];
    [|split; reflexivity].
  destruct (Loading._get_scheduler (Loading.sampler config) p'') as [chosen|e];
    [|split; reflexivity].
  destruct (Loading.enable_attention_slicing _) as [[[]|e] p3]; split; reflexivity.
Qed.

(** X29. Under the sampler name ["DPM++ 2M Karras"], the default of
    the configuration, the dict of [_get_scheduler] holds a function and not
    a class: the attribute [from_config] is asked of a function, which
    raises [AttributeError]. So [load_pipeline] never returns for that
    sampler: it fails, after the models have been loaded, and
    [self.current_config] stays as it was. Any name the dict does not hold
    is served by [DPMSolverMultistepScheduler]. *)
Theorem karras_sampler_never_loads (db : ModelManager.models_db) (config : Loading.settings)
    (self : Loading.animator) (p : Loading.pipeline) :
  Loading.sampler config = "DPM++ 2M Karras" ->
  Loading._get_scheduler (Loading.sampler config) p =
    Loading.Failed (if Loading.schedulers_importable
                    then Loading.AttributeError_from_config else Loading.ImportError) /\
  (exists e, fst (Loading.load_pipeline db config self) = Loading.Failed e) /\
  Loading.current_config (snd (Loading.load_pipeline db config self)) =
    Loading.current_config self /\
  (forall sampler_name,
     ~ In sampler_name (map fst Loading.schedulers) ->
     Loading._get_scheduler sampler_name p =
       if Loading.schedulers_importable
       then Loading.from_config "DPMSolverMultistepScheduler" p
       else Loading.Failed Loading.ImportError).
Proof.
  intros Hsampler.
  assert (Hkarras : forall q, Loading._get_scheduler (Loading.sampler config) q =
            Loading.Failed (if Loading.schedulers_importable
                            then Loading.AttributeError_from_config else Loading.ImportError)).
  { intros q. unfold Loading._get_scheduler. rewrite Hsampler.
    destruct Loading.schedulers_importable; reflexivity. }
  split; [apply Hkarras|].
  assert (Hload : (exists e, fst (Loading.load_pipeline db config self) = Loading.Failed e) /\
                  Loading.current_config (snd (Loading.load_pipeline db config self)) =
                    Loading.current_config self).
  { unfold Loading.load_pipeline.
    destruct (negb Loading.importable); [split; eauto|].
    destruct (Loading.available db (Loading.model_checkpoint config)) as [checkpoint|];
      [|split; eauto].
    destruct (Loading.from_pretrained _ _) as [p0|e]; [|split; eauto].
    destruct (Loading.load_loras db (Loading.lora_models config) p0) as [[[]|e] p1];
      [|split; eauto].
    destruct (Loading.add_controlnets db (Loading.controlnet_models config) p1) as [p2|e];
      [|split; eauto].
    rewrite Hkarras. split; eauto. }
  split; [apply Hload|]. split; [apply Hload|].
  intros sampler_name Hunknown. unfold Loading._get_scheduler.
  destruct Loading.schedulers_importable; [|reflexivity].
  simpl in Hunknown. unfold Loading.schedulers. cbn [ModelManager.get].
  repeat match goal with
         | |- context [String.eqb ?k sampler_name] =>
             destruct (String.eqb_spec k sampler_name) as [<-|?]; [exfalso; tauto|]
         end.
  reflexivity.
Qed.
End LoadingPipeline.

Lemma karras_sampler_never_loads_witness :
  let config :=
    {| Loading.model_checkpoint := "base"; Loading.lora_models := ["style"; "later"; "lost"];
       Loading.controlnet_models := []; Loading.use_animatediff := false;
       Loading.sampler := "DPM++ 2M Karras" |} in
  let self := @Loading.mk_animator recording_diffusers None None in
  @Loading._get_scheduler recording_diffusers (Loading.sampler config) [] =
    Loading.Failed Loading.AttributeError_from_config /\
  (exists e, fst (@Loading.load_pipeline recording_diffusers example_library config self)
             = Loading.Failed e) /\
  Loading.current_config
    (snd (@Loading.load_pipeline recording_diffusers example_library config self)) = None /\
  (forall sampler_name,
     ~ In sampler_name (map fst Loading.schedulers) ->
     @Loading._get_scheduler recording_diffusers sampler_name [] =
       Loading.Loaded "DPMSolverMultistepScheduler").
Proof.
  intros config self.
  apply (@karras_sampler_never_loads recording_diffusers example_library config self []).
  reflexivity.
Defined.

(** With the sampler ["DDIM"] the example library loads: the base model,
    then the one LoRA that is downloaded, then the scheduler. *)
Example load_pipeline_example :
  @Loading.load_pipeline recording_diffusers example_library
    {| Loading.model_checkpoint := "base"; Loading.lora_models := ["style"; "later"; "lost"];
       Loading.controlnet_models := ["lost"]; Loading.use_animatediff := false;
       Loading.sampler := "DDIM" |}
    (@Loading.mk_animator recording_diffusers None None)
  = (Loading.Loaded tt,
     @Loading.mk_animator recording_diffusers
       (Some ["models/checkpoints/base"; "models/loras/style"; "DDIMScheduler"])
       (Some {| Loading.model_checkpoint := "base";
                Loading.lora_models := ["style"; "later"; "lost"];
                Loading.controlnet_models := ["lost"]; Loading.use_animatediff := false;
                Loading.sampler := "DDIM" |})).
Proof. reflexivity. Qed.
(** ** Mode ["3D"] *)

Lemma example_opencv_rejects : rejects_other_shapes example_opencv.
Proof.
  intros img M dsize mode Hshape. simpl.
  destruct ((length M =? 3)%nat && forallb (fun row => (length row =? 3)%nat) M) eqn:Hcheck;
    [|eauto].
  exfalso. apply Hshape. apply andb_true_iff in Hcheck as [Hrows Hcolumns].
  split; [apply Nat.eqb_eq, Hrows|].
  apply Forall_forall. intros row Hrow. rewrite forallb_forall in Hcolumns.
  apply Nat.eqb_eq, Hcolumns. apply list_elem_of_In. exact Hrow.
Qed.

Section ThreeD.
Context `{Collaborators}.

(** The matrix of mode ["3D"] has 2 rows: an OpenCV that insists on 3
    refuses it, for every image, keyframe and border. *)
Lemma warp_3D_raises (prev_image : Image.t) (kf : KF.t) (config : Cfg.t) :
  rejects_other_shapes opencv ->
  Cfg.animation_mode config = "3D" ->
  exists e, warp prev_image kf config = Raise e.
Proof.
  intros Hcv Hmode. unfold warp, Transforms._apply_transforms. rewrite Hmode.
  change (String.eqb "3D" "2D") with false. change (String.eqb "3D" "3D") with true.
  cbv iota. unfold Transforms._apply_3d_transform.
  destruct (truediv (Z.of_nat (Image.width prev_image)) 2) as [half_w|e]; [|simpl; eauto].
  destruct (truediv (Z.of_nat (Image.height prev_image)) 2) as [half_h|e]; [|simpl; eauto].
  match goal with
  | |- context [Transforms.warpPerspective ?img ?M ?dsize ?mode] =>
      destruct (Hcv img M dsize mode) as [message Hmessage];
        [intros [Hrows _]; discriminate Hrows | rewrite Hmessage]
  end.
  simpl. eauto.
Qed.

(** X30. In mode ["3D"], the default of the configuration,
    [_apply_3d_transform] hands [cv2.warpPerspective] a matrix of 2 rows
    and 4 columns. With an OpenCV that refuses every matrix but one of 3
    rows and 3 columns, as [cv2.warpPerspective] does, every call of
    [_generate_frame] raises before the pipeline is called, and a run of
    one frame or more returns no frames. *)
Theorem mode_3D_yields_no_frame (init_image : Image.t) (config : Cfg.t)
    (audio_data : option (gmap string (list float)))
    (progress_callback : option (Z -> Z -> result unit)) (s : animator) :
  rejects_other_shapes opencv ->
  Cfg.animation_mode config = "3D" ->
  (forall (prev_image : Image.t) (frame_idx : Z) (keyframe : loc) (s' : animator),
     let out := _generate_frame prev_image frame_idx keyframe config s' in
     (exists e, fst out = Raise e) /\
     exists made, calls (snd out) = calls s' ++ made /\
                  existsb is_pipeline_call made = false) /\
  (0 < Cfg.total_frames config ->
   exists e, fst (generate_animation init_image config audio_data progress_callback s)
             = Raise e).
Proof.
  intros Hcv Hmode.
  assert (Hframe : forall prev_image frame_idx keyframe s',
            (exists e, fst (_generate_frame prev_image frame_idx keyframe config s') = Raise e) /\
            exists made,
              calls (snd (_generate_frame prev_image frame_idx keyframe config s'))
                = calls s' ++ made /\
              existsb is_pipeline_call made = false).
  { intros prev_image frame_idx keyframe s'.
    destruct (heap s' !! keyframe) as [kf|] eqn:Hkf.
    - rewrite (generate_frame_warps _ _ _ _ _ _ Hkf). cbv zeta.
      destruct (warp_3D_raises prev_image kf config Hcv Hmode) as [e ->]. simpl.
      split; [eauto|]. exists [transforms_applied frame_idx]. auto.
    - assert (Hout : _generate_frame prev_image frame_idx keyframe config s'
                     = (Raise IndexError, s')).
      { unfold _generate_frame. unfold mbind at 1. unfold M_bind at 1. unfold deref at 1.
        rewrite Hkf. reflexivity. }
      rewrite Hout. simpl. split; [eauto|]. exists []. rewrite app_nil_r. auto. }
  split; [exact Hframe|].
  intros Hn. rewrite generate_animation_run.
  destruct (ensure_pipeline config) as [[]|e]; [|eauto].
  destruct (audio_params_of audio_data config) as [audio_params|e]; [|eauto].
  destruct (range_positive _ Hn) as [rest ->]. rewrite generate_loop_cons.
  destruct (generate_step _ _ _ _ _ _ _) as [[frames'|e] s1] eqn:Hstep; [|eauto].
  exfalso. unfold generate_step in Hstep.
  apply bind_returns in Hstep as ([] & s2 & _ & Hstep).
  apply bind_returns in Hstep as (keyframe & s3 & _ & Hstep).
  apply bind_returns in Hstep as (keyframe' & s4 & _ & Hstep).
  apply bind_returns in Hstep as (prev_image & s5 & _ & Hstep).
  apply bind_returns in Hstep as (frame & s6 & Hgenerated & _).
  destruct (Hframe prev_image 0 keyframe' s5) as [[e He] _].
  rewrite Hgenerated in He. discriminate.
Qed.
End ThreeD.

(** A run of one frame with the default mode. *)
Lemma mode_3D_yields_no_frame_witness :
  let config :=
    {| Cfg.total_frames := 1; Cfg.steps := 30; Cfg.cfg_scale := 7.0;
       Cfg.animation_mode := "3D"; Cfg.border := "replicate";
       Cfg.color_coherence := "Match Frame 0 LAB"; Cfg.diffusion_cadence := 1;
       Cfg.temporal_strength := 0.5; Cfg.temporal_layers := 2;
       Cfg.use_animatediff := false; Cfg.use_optical_flow := true;
       Cfg.use_frame_interpolation := true; Cfg.interpolation_factor := 2;
       Cfg.keyframes := [] |} in
  exists e,
    fst (@generate_animation still (example_image 9) config None None (mk_animator [] [] []))
    = Raise e.
Proof.
  intros config.
  apply (proj2 (@mode_3D_yields_no_frame still (example_image 9) config None None
                  (mk_animator [] [] []) example_opencv_rejects eq_refl)).
  simpl. lia.
Defined.
